(** * The cluster state model of the VPA recommender

    A shallow embedding of
    [vertical-pod-autoscaler/pkg/recommender/model/cluster.go]: the
    registries of pods, containers and VPA objects, the index of
    aggregations, the links between VPA objects and aggregations, the
    garbage collector of aggregations and the tracking of missing
    recommendations.

    Go maps are [gmap]s.  The [*AggregateContainerState] pointers, which the
    aggregation index, the VPA objects and the containers share, are
    locations of an explicit heap.  A Go [panic] is the outcome [Panic];
    a returned [error] is an ordinary value. *)

From Stdlib Require Import ZArith.
From stdpp Require Import gmap strings list fin_maps.

Local Open Scope Z_scope.

(** ** Identifiers *)

Record PodID := mkPodID { PodID_Namespace : string; PodName : string }.
Record ContainerID := mkContainerID {
  CID_PodID : PodID;
  ContainerName : string;
}.
Record VpaID := mkVpaID { VpaID_Namespace : string; VpaName : string }.

#[global] Instance PodID_eq_dec : EqDecision PodID.
Proof. solve_decision. Defined.
#[global] Instance PodID_countable : Countable PodID.
Proof.
  apply (inj_countable' (λ p, (PodID_Namespace p, PodName p))
                        (λ q, mkPodID q.1 q.2)).
  by intros [].
Defined.

#[global] Instance ContainerID_eq_dec : EqDecision ContainerID.
Proof. solve_decision. Defined.

#[global] Instance VpaID_eq_dec : EqDecision VpaID.
Proof. solve_decision. Defined.
#[global] Instance VpaID_countable : Countable VpaID.
Proof.
  apply (inj_countable' (λ p, (VpaID_Namespace p, VpaName p))
                        (λ q, mkVpaID q.1 q.2)).
  by intros [].
Defined.

(** [labelSetKey] is the string form of a label set ([labelSet.String()]). *)
Abbreviation labelSetKey := string (only parsing).

(** [aggregateStateKey]: the implementation of [AggregateStateKey].  Its
    fourth field in the source points to the label set map of the cluster
    state that made the key; with one cluster state it is the same pointer
    in every key, and [Labels] below reads that map. *)
Record AggregateStateKey := mkKey {
  key_namespace : string;
  key_containerName : string;
  key_labelSetKey : labelSetKey;
}.

#[global] Instance AggregateStateKey_eq_dec : EqDecision AggregateStateKey.
Proof. solve_decision. Defined.
#[global] Instance AggregateStateKey_countable : Countable AggregateStateKey.
Proof.
  apply (inj_countable'
           (λ k, (key_namespace k, key_containerName k, key_labelSetKey k))
           (λ q, mkKey q.1.1 q.1.2 q.2)).
  by intros [].
Defined.

(** ** Time

    A [time.Time] is its number of nanoseconds since the Unix epoch, a
    [time.Duration] a number of nanoseconds held in an int64. *)
Abbreviation Time := Z (only parsing).
Abbreviation Duration := Z (only parsing).

Definition minDuration : Duration := - 2 ^ 63.
Definition maxDuration : Duration := 2 ^ 63 - 1.

(** [t.Sub(u)]: the duration [t - u], or the largest (smallest) duration
    when [t - u] does not fit one. *)
Definition Time_Sub (t u : Time) : Duration :=
  Z.max minDuration (Z.min maxDuration (t - u)).

Definition Time_Add (t : Time) (d : Duration) : Time := t + d.
Definition Time_Before (t u : Time) : bool := t <? u.

Definition Minute : Duration := 60 * 1000000000.

(** [RecommendationMissingMaxDuration] is maximum time that we accept the
    recommendation can be missing. *)
Definition RecommendationMissingMaxDuration : Duration := 30 * Minute.

(** ** Values carried from the API objects *)

Abbreviation PodPhase := string (only parsing).
Definition PodSucceeded : PodPhase := "Succeeded".
Definition PodFailed : PodPhase := "Failed".

Abbreviation ResourceAmount := Z (only parsing).
(** [Resources] is [map[ResourceName]ResourceAmount]. *)
Abbreviation Resources := (gmap string Z) (only parsing).

Record ContainerUsageSample := mkSample {
  MeasureStart : Time;
  Usage : ResourceAmount;
  Resource : string;
}.

Record ContainerUsageSampleWithKey := mkSampleWithKey {
  Sample : ContainerUsageSample;
  Container : ContainerID;
}.

Record CrossVersionObjectReference := mkTargetRef {
  ref_Kind : string;
  ref_Name : string;
  ref_APIVersion : string;
}.

Record VerticalPodAutoscalerCondition := mkCondition {
  cond_Type : string;
  cond_Status : string;
}.

Definition RecommendationProvided : string := "RecommendationProvided".
Definition ConditionTrue : string := "True".

Record RecommendedContainerResources := mkContainerRecommendation {
  rec_ContainerName : string;
  rec_Target : Resources;
}.

(** [*RecommendedPodResources]: [None] is the nil pointer, [Some l] a
    recommendation whose [ContainerRecommendations] is [l]. *)
Abbreviation Recommendation_t := (option (list RecommendedContainerResources))
  (only parsing).

Record ContainerResourcePolicy := mkContainerPolicy {
  crp_ContainerName : string;
  crp_Mode : option string;
}.

(** The fields of a [VerticalPodAutoscaler] API object that
    [AddOrUpdateVpa] reads. *)
Record VerticalPodAutoscaler := mkApiObject {
  api_Namespace : string;
  api_Name : string;
  api_Annotations : gmap string string;
  api_CreationTimestamp : Time;
  api_Conditions : list VerticalPodAutoscalerCondition;
  api_Recommendation : Recommendation_t;
  api_TargetRef : CrossVersionObjectReference;
  api_UpdatePolicy : option (option string);
  api_ResourcePolicy : option (list ContainerResourcePolicy);
  api_Version : string;
}.

(** [vpaConditionsMap] *)
Abbreviation vpaConditionsMap := (gmap string VerticalPodAutoscalerCondition)
  (only parsing).

Record ControllerKeyWithAPIVersion := mkControllerKey {
  ck_Namespace : string;
  ck_Kind : string;
  ck_Name : string;
  ck_ApiVersion : string;
}.

(** A [ControllerFetcher]: [FindTopMostWellKnownOrScalable], whose error
    the caller drops; [None] is the nil controller. *)
Abbreviation ControllerFetcher :=
  (ControllerKeyWithAPIVersion → option ControllerKeyWithAPIVersion)
  (only parsing).

(** ** Errors *)

(** The argument of [NewKeyError], an [interface{}] in the source. *)
Inductive KeyErrorArg :=
| KeyPodID (k : PodID)
| KeyContainerID (k : ContainerID)
| KeyContainerName (k : string)
| KeyVpaID (k : VpaID).

Inductive error :=
| NewKeyError (k : KeyErrorArg)
    (* the missing-parent and not-found conditions *)
| ErrSampleDiscarded
    (* "sample discarded (invalid or out of order)" *)
| ErrRecordOOM (containerID : ContainerID) (reason : string)
    (* "error while recording OOM for %v, Reason: %v" *)
| ErrMissingRecommendation (vpaID : VpaID) (d : Duration).
    (* "VPA %s/%s is missing recommendation for more than %v" *)

Definition isKeyError (e : option error) : bool :=
  match e with Some (NewKeyError _) => true | _ => false end.

(** ** The collaborators

    The label sets and selectors of [k8s.io/apimachinery/pkg/labels], and
    the aggregation ([AggregateContainerState]), are consumed through
    their interfaces. *)

Class LabelsAPI := {
  LabelSet : Type;                       (* labels.Set *)
  Selector : Type;                       (* labels.Selector *)
  Set_String : LabelSet → labelSetKey;   (* labelSet.String() *)
  Selector_String : Selector → string;   (* selector.String() *)
  Matches : Selector → LabelSet → bool;  (* selector.Matches(labelSet) *)
  nilSet : LabelSet;                     (* the nil labels.Set *)
  (* the string form of a label set is canonical: it stands for one
     label set only *)
  Set_String_inj : Inj (=) (=) Set_String;
}.

Abbreviation loc := positive (only parsing).

Class AggregationAPI := {
  AggregateContainerState : Type;
  NewAggregateContainerState : AggregateContainerState;
  isEmpty : AggregateContainerState → bool;
  isExpired : AggregateContainerState → Time → bool;
  MarkNotAutoscaled : AggregateContainerState → AggregateContainerState;
  (* accept-sample: [None] when the sample is invalid or out of order *)
  acceptSample :
    AggregateContainerState → ContainerUsageSample →
    option AggregateContainerState;
  (* accept-OOM-event: [inl reason] when the event is refused *)
  acceptOOM :
    AggregateContainerState → Time → ResourceAmount →
    string + AggregateContainerState;
}.

(** Go leaves the order in which [range] visits a map unspecified:
    [rangeOrder] stands for the order the runtime picks. *)
Class MapIteration := {
  rangeOrder : ∀ {A : Type}, list A → list A;
  rangeOrder_perm : ∀ (A : Type) (l : list A), rangeOrder l ≡ₚ l;
}.

(** ** The state *)

Section Model.
Context `{LA : LabelsAPI} `{AA : AggregationAPI} `{MI : MapIteration}.

(** The [aggregator] of a container: [AddOrUpdateContainer] installs a
    proxy made from the cluster state and the container ID,
    [AddOrUpdatePod] a pointer to an aggregation. *)
Inductive ContainerStateAggregator :=
| ContainerStateAggregatorProxy (containerID : ContainerID)
| AggregatorPtr (l : loc).

Record ContainerState := mkContainerState {
  Request : Resources;
  aggregator : ContainerStateAggregator;
}.

Definition NewContainerState (request : Resources)
    (aggregator : ContainerStateAggregator) : ContainerState :=
  mkContainerState request aggregator.

(** [PodState] holds runtime information about a single Pod. *)
Record PodState := mkPodState {
  ID : PodID;
  pod_labelSetKey : labelSetKey;
  Containers : gmap string ContainerState;
  InitContainers : list string;
  Phase : PodPhase;
}.

Definition newPod (id : PodID) : PodState :=
  mkPodState id EmptyString ∅ [] EmptyString.

(** The VPA object of the model: the fields that [cluster.go] reads and
    writes. *)
Record Vpa := mkVpa {
  vpa_ID : VpaID;
  PodSelector : Selector;
  Created : Time;
  TargetRef : CrossVersionObjectReference;
  Annotations : gmap string string;
  Conditions : vpaConditionsMap;
  Recommendation : Recommendation_t;
  UpdateMode : option string;
  ResourcePolicy : option (list ContainerResourcePolicy);
  APIVersion : string;
  PodCount : Z;
  aggregateContainerStates : gmap AggregateStateKey loc;
}.

Record clusterState := mkClusterState {
  (* Pods in the cluster. *)
  pods : gmap PodID PodState;
  (* VPA objects in the cluster. *)
  vpas : gmap VpaID Vpa;
  (* VPA objects in the cluster that have no recommendation mapped to the
     first time we've noticed the recommendation missing or last time we
     logged a warning about it. *)
  emptyVPAs : gmap VpaID Time;
  (* Observed VPAs. *)
  observedVPAs : list VerticalPodAutoscaler;
  (* All container aggregations where the usage samples are stored. *)
  aggregateStateMap : gmap AggregateStateKey loc;
  (* Map with all label sets used by the aggregations. *)
  labelSetMap : gmap labelSetKey LabelSet;
  lastAggregateContainerStateGC : Time;
  gcInterval : Duration;
  (* The aggregations that the pointers of the maps above, of the VPA
     objects and of the containers point to. *)
  heap : gmap loc AggregateContainerState;
}.

Definition set_pods (f : gmap PodID PodState → gmap PodID PodState)
    (c : clusterState) : clusterState :=
  mkClusterState (f (pods c)) (vpas c) (emptyVPAs c) (observedVPAs c)
    (aggregateStateMap c) (labelSetMap c) (lastAggregateContainerStateGC c)
    (gcInterval c) (heap c).

Definition set_vpas (f : gmap VpaID Vpa → gmap VpaID Vpa)
    (c : clusterState) : clusterState :=
  mkClusterState (pods c) (f (vpas c)) (emptyVPAs c) (observedVPAs c)
    (aggregateStateMap c) (labelSetMap c) (lastAggregateContainerStateGC c)
    (gcInterval c) (heap c).

Definition set_emptyVPAs (f : gmap VpaID Time → gmap VpaID Time)
    (c : clusterState) : clusterState :=
  mkClusterState (pods c) (vpas c) (f (emptyVPAs c)) (observedVPAs c)
    (aggregateStateMap c) (labelSetMap c) (lastAggregateContainerStateGC c)
    (gcInterval c) (heap c).

Definition set_observedVPAs (l : list VerticalPodAutoscaler)
    (c : clusterState) : clusterState :=
  mkClusterState (pods c) (vpas c) (emptyVPAs c) l
    (aggregateStateMap c) (labelSetMap c) (lastAggregateContainerStateGC c)
    (gcInterval c) (heap c).

Definition set_aggregateStateMap
    (f : gmap AggregateStateKey loc → gmap AggregateStateKey loc)
    (c : clusterState) : clusterState :=
  mkClusterState (pods c) (vpas c) (emptyVPAs c) (observedVPAs c)
    (f (aggregateStateMap c)) (labelSetMap c)
    (lastAggregateContainerStateGC c) (gcInterval c) (heap c).

Definition set_labelSetMap
    (f : gmap labelSetKey LabelSet → gmap labelSetKey LabelSet)
    (c : clusterState) : clusterState :=
  mkClusterState (pods c) (vpas c) (emptyVPAs c) (observedVPAs c)
    (aggregateStateMap c) (f (labelSetMap c))
    (lastAggregateContainerStateGC c) (gcInterval c) (heap c).

Definition set_lastAggregateContainerStateGC (t : Time)
    (c : clusterState) : clusterState :=
  mkClusterState (pods c) (vpas c) (emptyVPAs c) (observedVPAs c)
    (aggregateStateMap c) (labelSetMap c) t (gcInterval c) (heap c).

Definition set_heap
    (f : gmap loc AggregateContainerState → gmap loc AggregateContainerState)
    (c : clusterState) : clusterState :=
  mkClusterState (pods c) (vpas c) (emptyVPAs c) (observedVPAs c)
    (aggregateStateMap c) (labelSetMap c) (lastAggregateContainerStateGC c)
    (gcInterval c) (f (heap c)).

(** [NewClusterState] returns a new clusterState with no pods. *)
Definition NewClusterState (gcInterval : Duration) : clusterState :=
  mkClusterState ∅ ∅ ∅ [] ∅ ∅ 0 gcInterval ∅.

(** [StateMapSize] *)
Definition StateMapSize (cluster : clusterState) : nat :=
  size (aggregateStateMap cluster).

(** ** The monad of the operations: state, and panics *)

Inductive outcome (A : Type) :=
| Done (a : A) (s : clusterState)
| Panic (msg : string).
Global Arguments Done {A} a s.
Global Arguments Panic {A} msg.

Definition M (A : Type) : Type := clusterState → outcome A.

Definition ret {A} (a : A) : M A := λ s, Done a s.

Definition bind {A B} (m : M A) (k : A → M B) : M B :=
  λ s, match m s with
       | Done a s' => k a s'
       | Panic msg => Panic msg
       end.

Definition modify (f : clusterState → clusterState) : M unit :=
  λ s, Done tt (f s).

Definition panic {A} (msg : string) : M A := λ _, Panic msg.

Fixpoint forM_ {A} (f : A → M unit) (l : list A) : M unit :=
  match l with
  | [] => ret tt
  | x :: l' => bind (f x) (λ _, forM_ f l')
  end.

End Model.

Notation "x <- m ;; k" := (bind m (λ x, k))
  (at level 100, m at next level, right associativity,
   format "'[v' x  <-  m  ;;  '/' k ']'").
Notation "m ;;; k" := (bind m (λ _, k))
  (at level 100, right associativity, only parsing).

(** ** The operations *)

Section Operations.
Context `{LA : LabelsAPI} `{AA : AggregationAPI} `{MI : MapIteration}.

(** *** The collaborators' side of the model *)

(** Modelled from the spec: [vpa_utils.PodLabelsMatchVPA] is not in this
    file.  A pod matches a policy when its (namespace, label set) matches
    the policy's (namespace, selector). *)
Definition PodLabelsMatchVPA (podNamespace : string) (labels : LabelSet)
    (vpaNamespace : string) (vpaSelector : Selector) : bool :=
  bool_decide (podNamespace = vpaNamespace) && Matches vpaSelector labels.

(** [cluster.labelSetMap[key]]: the nil label set when [key] is absent. *)
Definition lookupLabels (m : gmap labelSetKey LabelSet) (key : labelSetKey)
    : LabelSet :=
  default nilSet (m !! key).

(** [Labels] returns the set of labels for the aggregateStateKey. *)
Definition Labels (m : gmap labelSetKey LabelSet) (k : AggregateStateKey)
    : LabelSet :=
  lookupLabels m (key_labelSetKey k).

(** Modelled from the spec: the methods of [Vpa] are not in this file.  A
    policy object holds a private set of links into the aggregation index
    keyed by aggregation key and exposes has-link(key),
    link-if-matching(key, aggregation) and unlink(key); a key matches when
    its (namespace, label set) matches the policy's (namespace,
    selector). *)
Definition UsesAggregation (vpa : Vpa) (aggregationKey : AggregateStateKey)
    : bool :=
  bool_decide (is_Some (aggregateContainerStates vpa !! aggregationKey)).

(** Modelled from the spec: [matchesAggregation] of [Vpa], the test of
    link-if-matching: the (namespace, label set) of the key matches the
    (namespace, selector) of the policy object. *)
Definition matchesAggregation (m : gmap labelSetKey LabelSet) (vpa : Vpa)
    (aggregationKey : AggregateStateKey) : bool :=
  bool_decide (VpaID_Namespace (vpa_ID vpa) = key_namespace aggregationKey)
  && Matches (PodSelector vpa) (Labels m aggregationKey).

Definition set_aggregateContainerStates
    (f : gmap AggregateStateKey loc → gmap AggregateStateKey loc)
    (vpa : Vpa) : Vpa :=
  mkVpa (vpa_ID vpa) (PodSelector vpa) (Created vpa) (TargetRef vpa)
    (Annotations vpa) (Conditions vpa) (Recommendation vpa) (UpdateMode vpa)
    (ResourcePolicy vpa) (APIVersion vpa) (PodCount vpa)
    (f (aggregateContainerStates vpa)).

Definition set_PodCount (f : Z → Z) (vpa : Vpa) : Vpa :=
  mkVpa (vpa_ID vpa) (PodSelector vpa) (Created vpa) (TargetRef vpa)
    (Annotations vpa) (Conditions vpa) (Recommendation vpa) (UpdateMode vpa)
    (ResourcePolicy vpa) (APIVersion vpa) (f (PodCount vpa))
    (aggregateContainerStates vpa).

(** Modelled from the spec: [UseAggregationIfMatching] of [Vpa],
    link-if-matching(key, aggregation). *)
Definition UseAggregationIfMatching (m : gmap labelSetKey LabelSet)
    (aggregationKey : AggregateStateKey) (aggregation : loc) (vpa : Vpa)
    : Vpa :=
  if UsesAggregation vpa aggregationKey then vpa
  else if matchesAggregation m vpa aggregationKey
       then set_aggregateContainerStates <[aggregationKey := aggregation]> vpa
       else vpa.

(** Modelled from the spec: [DeleteAggregation] of [Vpa], unlink(key). *)
Definition DeleteAggregation (aggregationKey : AggregateStateKey) (vpa : Vpa)
    : Vpa :=
  set_aggregateContainerStates (delete aggregationKey) vpa.

(** Modelled from the spec: [NewVpa] and the setters of [Vpa] are not in
    this file.  A new policy object has its ID, selector and creation
    time, no link and no pod; the setters store their argument. *)
Definition NewVpa (id : VpaID) (selector : Selector) (created : Time) : Vpa :=
  mkVpa id selector created
    (mkTargetRef EmptyString EmptyString EmptyString) ∅ ∅ None None None
    EmptyString 0 ∅.

(** The last seven statements of [AddOrUpdateVpa].  Modelled from the
    spec: [SetUpdateMode], [SetResourcePolicy] and [SetAPIVersion] of
    [Vpa] are not in this file; the update mode, resource policy and API
    version of the policy object are refreshed from the supplied
    object. *)

Definition refreshVpa (apiObject : VerticalPodAutoscaler)
    (conditionsMap : vpaConditionsMap)
    (currentRecommendation : Recommendation_t) (vpa : Vpa) : Vpa :=
  mkVpa (vpa_ID vpa) (PodSelector vpa) (Created vpa)
    (api_TargetRef apiObject)                (* vpa.TargetRef = ... *)
    (api_Annotations apiObject)              (* vpa.Annotations = ... *)
    conditionsMap                            (* vpa.Conditions = ... *)
    currentRecommendation                    (* vpa.Recommendation = ... *)
    (mjoin (api_UpdatePolicy apiObject))     (* vpa.SetUpdateMode(...) *)
    (api_ResourcePolicy apiObject)           (* vpa.SetResourcePolicy(...) *)
    (api_Version apiObject)                  (* vpa.SetAPIVersion(...) *)
    (PodCount vpa) (aggregateContainerStates vpa).

(** The aggregation a pointer points to.  Every pointer of the model
    comes from [NewAggregateContainerState], which is what a location
    never written holds. *)
Definition deref (h : gmap loc AggregateContainerState) (l : loc)
    : AggregateContainerState :=
  default NewAggregateContainerState (h !! l).

Definition store (l : loc) (a : AggregateContainerState)
    : clusterState → clusterState :=
  set_heap <[l := a]>.

(** *** Keys and the aggregation index *)

(** [getLabelSetKey] puts the given labelSet in the global labelSet map and
    returns a corresponding labelSetKey. *)
Definition getLabelSetKey (labelSet : LabelSet) : M labelSetKey :=
  λ cluster,
    let labelSetKey := Set_String labelSet in
    Done labelSetKey (set_labelSetMap <[labelSetKey := labelSet]> cluster).

(** [MakeAggregateStateKey] returns the AggregateStateKey that should be
    used to aggregate usage samples from a container with the given name
    in a given pod. *)
Definition MakeAggregateStateKey (pod : PodState) (containerName : string)
    : AggregateStateKey :=
  mkKey (PodID_Namespace (ID pod)) containerName (pod_labelSetKey pod).

(** [aggregateStateKeyForContainerID] returns the AggregateStateKey for the
    ContainerID.  The pod with the corresponding PodID must already be
    present in the clusterState. *)
Definition aggregateStateKeyForContainerID (containerID : ContainerID)
    : M AggregateStateKey :=
  λ cluster,
    match pods cluster !! CID_PodID containerID with
    | None => Panic "Pod not present in the ClusterState"
    | Some pod =>
        Done (MakeAggregateStateKey pod (ContainerName containerID)) cluster
    end.

(** [findOrCreateAggregateContainerState] returns (possibly newly created)
    AggregateContainerState that should be used to aggregate usage samples
    from container with a given ID. *)
Definition findOrCreateAggregateContainerState (containerID : ContainerID)
    : M loc :=
  aggregateStateKey <- aggregateStateKeyForContainerID containerID ;;
  λ cluster,
    match aggregateStateMap cluster !! aggregateStateKey with
    | Some aggregateContainerState => Done aggregateContainerState cluster
    | None =>
        let aggregateContainerState := fresh (dom (heap cluster)) in
        Done aggregateContainerState
          ((* Link the new aggregation to the existing VPAs. *)
           set_vpas (fmap (UseAggregationIfMatching (labelSetMap cluster)
                             aggregateStateKey aggregateContainerState))
             (set_aggregateStateMap
                <[aggregateStateKey := aggregateContainerState]>
                (store aggregateContainerState NewAggregateContainerState
                   cluster)))
    end.

(** *** Pods *)

Definition podMatchesVpa (m : gmap labelSetKey LabelSet) (pod : PodState)
    (vpa : Vpa) : bool :=
  PodLabelsMatchVPA (PodID_Namespace (ID pod))
    (lookupLabels m (pod_labelSetKey pod))
    (VpaID_Namespace (vpa_ID vpa)) (PodSelector vpa).

(** [addPodToItsVpa] increases the count of Pods associated with a VPA
    object. *)
Definition addPodToItsVpa (pod : PodState) : M unit :=
  modify (λ cluster,
    set_vpas (fmap (λ vpa,
      if podMatchesVpa (labelSetMap cluster) pod vpa
      then set_PodCount (λ n, n + 1) vpa else vpa)) cluster).

(** [removePodFromItsVpa] decreases the count of Pods associated with a VPA
    object. *)
Definition removePodFromItsVpa (pod : PodState) : M unit :=
  modify (λ cluster,
    set_vpas (fmap (λ vpa,
      if podMatchesVpa (labelSetMap cluster) pod vpa
      then set_PodCount (λ n, n - 1) vpa else vpa)) cluster).

Definition set_pod_labelSetKey (k : labelSetKey) (pod : PodState) : PodState :=
  mkPodState (ID pod) k (Containers pod) (InitContainers pod) (Phase pod).

Definition set_Phase (phase : PodPhase) (pod : PodState) : PodState :=
  mkPodState (ID pod) (pod_labelSetKey pod) (Containers pod)
    (InitContainers pod) phase.

Definition set_Containers
    (f : gmap string ContainerState → gmap string ContainerState)
    (pod : PodState) : PodState :=
  mkPodState (ID pod) (pod_labelSetKey pod) (f (Containers pod))
    (InitContainers pod) (Phase pod).

Definition set_aggregator (a : ContainerStateAggregator)
    (container : ContainerState) : ContainerState :=
  mkContainerState (Request container) a.

Definition set_Request (request : Resources) (container : ContainerState)
    : ContainerState :=
  mkContainerState request (aggregator container).

(** The body of the loop of [AddOrUpdatePod] over [pod.Containers]:
    [container.aggregator = cluster.findOrCreateAggregateContainerState(containerID)]. *)
Definition relinkContainer (podID : PodID) (containerName : string) : M unit :=
  let containerID := mkContainerID podID containerName in
  l <- findOrCreateAggregateContainerState containerID ;;
  modify (set_pods
            (alter (set_Containers
                      (alter (set_aggregator (AggregatorPtr l)) containerName))
               podID)).

(** [AddOrUpdatePod] updates the state of the pod with a given PodID, if it
    is present in the cluster object.  Otherwise a new pod is created and
    added to the Cluster object.  If the labels of the pod have changed, it
    updates the links between the containers and the aggregations. *)
Definition AddOrUpdatePod (podID : PodID) (newLabels : LabelSet)
    (phase : PodPhase) : M unit :=
  λ cluster,
    let podExists := bool_decide (is_Some (pods cluster !! podID)) in
    let pod := default (newPod podID) (pods cluster !! podID) in
    (modify (if podExists then id else set_pods <[podID := pod]>) ;;;
     newlabelSetKey <- getLabelSetKey newLabels ;;
     let changed :=
       negb (bool_decide (pod_labelSetKey pod = newlabelSetKey)) in
     (if podExists && changed
      then (* This Pod is already counted in the old VPA, remove the link. *)
           removePodFromItsVpa pod
      else ret tt) ;;;
     (if negb podExists || changed
      then
        modify (set_pods (alter (set_pod_labelSetKey newlabelSetKey) podID)) ;;;
        (* Set the links between the containers and aggregations based on
           the current pod labels. *)
        forM_ (relinkContainer podID)
          (rangeOrder ((map_to_list (Containers pod)).*1)) ;;;
        addPodToItsVpa (set_pod_labelSetKey newlabelSetKey pod)
      else ret tt) ;;;
     modify (set_pods (alter (set_Phase phase) podID))) cluster.

(** [GetContainer] returns the ContainerState object for a given
    ContainerID or null if it's not present in the model. *)
Definition GetContainer (containerID : ContainerID) (cluster : clusterState)
    : option ContainerState :=
  match pods cluster !! CID_PodID containerID with
  | Some pod => Containers pod !! ContainerName containerID
  | None => None
  end.

(** [DeletePod] removes an existing pod from the cluster. *)
Definition DeletePod (podID : PodID) : M unit :=
  λ cluster,
    ((match pods cluster !! podID with
      | Some pod => removePodFromItsVpa pod
      | None => ret tt
      end) ;;;
     modify (set_pods (delete podID))) cluster.

(** *** Containers *)

(** [AddOrUpdateContainer] creates a new container with the given
    ContainerID and adds it to the parent pod in the clusterState object,
    if not yet present.  Requires the pod to be added to the clusterState
    first.  Otherwise an error is returned. *)
Definition AddOrUpdateContainer (containerID : ContainerID)
    (request : Resources) : M (option error) :=
  λ cluster,
    match pods cluster !! CID_PodID containerID with
    | None =>
        Done (Some (NewKeyError (KeyPodID (CID_PodID containerID)))) cluster
    | Some pod =>
        match Containers pod !! ContainerName containerID with
        | None =>
            (findOrCreateAggregateContainerState containerID ;;;
             modify (set_pods
               (alter (set_Containers
                  <[ContainerName containerID :=
                      NewContainerState request
                        (ContainerStateAggregatorProxy containerID)]>)
                  (CID_PodID containerID))) ;;;
             ret None) cluster
        | Some container =>
            (* Container aleady exists. Possibly update the request. *)
            Done None
              (set_pods
                 (alter (set_Containers
                    (alter (set_Request request) (ContainerName containerID)))
                    (CID_PodID containerID)) cluster)
        end
    end.

(** *** Usage samples and OOM events *)

(** Modelled from the spec: the methods of [ContainerState] and of the
    aggregator proxy are not in this file.  A container holds a reference
    to its aggregation; a sample is forwarded to that aggregation via
    accept-sample, and a sample the accumulator rejects as invalid or out
    of order changes nothing.  The proxy made from (cluster,
    containerID) stands for the aggregation the cluster state holds for
    the container's key, which it finds or creates when it forwards. *)
Definition currentAggregation (a : ContainerStateAggregator)
    (cluster : clusterState) : AggregateContainerState :=
  match a with
  | AggregatorPtr l => deref (heap cluster) l
  | ContainerStateAggregatorProxy containerID =>
      match pods cluster !! CID_PodID containerID with
      | Some pod =>
          match aggregateStateMap cluster
                  !! MakeAggregateStateKey pod (ContainerName containerID) with
          | Some l => deref (heap cluster) l
          | None => NewAggregateContainerState
          end
      | None => NewAggregateContainerState
      end
  end.

(** Modelled from the spec: the aggregation that a reference forwards
    to; the proxy finds or creates the aggregation of its container. *)
Definition aggregatorLoc (a : ContainerStateAggregator) : M loc :=
  match a with
  | AggregatorPtr l => ret l
  | ContainerStateAggregatorProxy containerID =>
      findOrCreateAggregateContainerState containerID
  end.

(** Modelled from the spec: [AddSample] of [ContainerState] forwards the
    sample to the container's aggregation via accept-sample and returns
    false, changing nothing, when the sample is rejected. *)
Definition ContainerState_AddSample (container : ContainerState)
    (sample : ContainerUsageSample) : M bool :=
  λ cluster,
    match acceptSample (currentAggregation (aggregator container) cluster)
            sample with
    | None => Done false cluster
    | Some a' =>
        (l <- aggregatorLoc (aggregator container) ;;
         modify (store l a') ;;;
         ret true) cluster
    end.

(** Modelled from the spec: [RecordOOM] of [ContainerState] forwards to
    the accept-OOM-event of the aggregation and returns the failure that
    the accumulator reports. *)
Definition ContainerState_RecordOOM (container : ContainerState)
    (timestamp : Time) (requestedMemory : ResourceAmount)
    : M (option string) :=
  λ cluster,
    match acceptOOM (currentAggregation (aggregator container) cluster)
            timestamp requestedMemory with
    | inl reason => Done (Some reason) cluster
    | inr a' =>
        (l <- aggregatorLoc (aggregator container) ;;
         modify (store l a') ;;;
         ret None) cluster
    end.

(** [AddSample] adds a new usage sample to the proper container in the
    clusterState object.  Requires the container as well as the parent pod
    to be added to the clusterState first.  Otherwise an error is
    returned. *)
Definition AddSample (sample : ContainerUsageSampleWithKey)
    : M (option error) :=
  λ cluster,
    match pods cluster !! CID_PodID (Container sample) with
    | None =>
        Done (Some (NewKeyError (KeyPodID (CID_PodID (Container sample)))))
          cluster
    | Some pod =>
        match Containers pod !! ContainerName (Container sample) with
        | None =>
            Done (Some (NewKeyError (KeyContainerID (Container sample))))
              cluster
        | Some containerState =>
            (ok <- ContainerState_AddSample containerState (Sample sample) ;;
             if negb ok then ret (Some ErrSampleDiscarded) else ret None)
              cluster
        end
    end.

(** [RecordOOM] adds info regarding OOM event in the model as an artificial
    memory sample. *)
Definition RecordOOM (containerID : ContainerID) (timestamp : Time)
    (requestedMemory : ResourceAmount) : M (option error) :=
  λ cluster,
    match pods cluster !! CID_PodID containerID with
    | None =>
        Done (Some (NewKeyError (KeyPodID (CID_PodID containerID)))) cluster
    | Some pod =>
        match Containers pod !! ContainerName containerID with
        | None =>
            Done (Some (NewKeyError
                          (KeyContainerName (ContainerName containerID))))
              cluster
        | Some containerState =>
            (err <- ContainerState_RecordOOM containerState timestamp
                      requestedMemory ;;
             match err with
             | Some reason => ret (Some (ErrRecordOOM containerID reason))
             | None => ret None
             end) cluster
        end
    end.

(** *** VPA objects *)

(** [GetMatchingPods] returns a list of currently active pods that match
    the given VPA.  Traverses through all pods in the cluster. *)
Definition GetMatchingPods (vpa : Vpa) (cluster : clusterState) : list PodID :=
  (filter (λ p : PodID * PodState,
             PodLabelsMatchVPA (PodID_Namespace p.1)
               (lookupLabels (labelSetMap cluster) (pod_labelSetKey p.2))
               (VpaID_Namespace (vpa_ID vpa)) (PodSelector vpa) = true)
     (rangeOrder (map_to_list (pods cluster)))).*1.

(** [DeleteVpa] removes a VPA with the given ID from the clusterState. *)
Definition DeleteVpa (vpaID : VpaID) : M (option error) :=
  λ cluster,
    match vpas cluster !! vpaID with
    | None => Done (Some (NewKeyError (KeyVpaID vpaID))) cluster
    | Some vpa =>
        Done None
          (set_emptyVPAs (delete vpaID)
             (set_vpas (delete vpaID)
                (set_heap
                   (λ h, foldl (λ h state,
                                  <[state := MarkNotAutoscaled (deref h state)]> h)
                           h
                           (rangeOrder
                              ((map_to_list (aggregateContainerStates vpa)).*2)))
                   cluster)))
    end.

Definition conditionsMapOf (conditions : list VerticalPodAutoscalerCondition)
    : vpaConditionsMap :=
  foldl (λ conditionsMap condition,
           <[cond_Type condition := condition]> conditionsMap) ∅ conditions.

Definition currentRecommendationOf (apiObject : VerticalPodAutoscaler)
    (conditionsMap : vpaConditionsMap) : Recommendation_t :=
  if bool_decide
       (cond_Status (default (mkCondition EmptyString EmptyString)
                       (conditionsMap !! RecommendationProvided))
        = ConditionTrue)
  then api_Recommendation apiObject
  else None.

(** The [!vpaExists] branch of [AddOrUpdateVpa]. *)
Definition createVpa (vpaID : VpaID) (selector : Selector) (created : Time)
    : M unit :=
  modify (λ cluster,
    let vpa := NewVpa vpaID selector created in
    let vpa :=
      foldl (λ vpa e, UseAggregationIfMatching (labelSetMap cluster) e.1 e.2 vpa)
        vpa (rangeOrder (map_to_list (aggregateStateMap cluster))) in
    let vpa :=
      set_PodCount (λ _, Z.of_nat (length (GetMatchingPods vpa cluster))) vpa in
    set_vpas <[vpaID := vpa]> cluster).

(** [AddOrUpdateVpa] adds a new VPA with a given ID to the clusterState if
    it didn't yet exist.  If the VPA already existed but had a different
    pod selector, the pod selector is updated.  Updates the links between
    the VPA and all aggregations it matches. *)
Definition AddOrUpdateVpa (apiObject : VerticalPodAutoscaler)
    (selector : Selector) : M (option error) :=
  let vpaID := mkVpaID (api_Namespace apiObject) (api_Name apiObject) in
  let conditionsMap := conditionsMapOf (api_Conditions apiObject) in
  let currentRecommendation := currentRecommendationOf apiObject conditionsMap in
  let refresh : M (option error) :=
    modify (set_vpas
              (alter (refreshVpa apiObject conditionsMap currentRecommendation)
                 vpaID)) ;;;
    ret None in
  let create : M (option error) :=
    createVpa vpaID selector (api_CreationTimestamp apiObject) ;;; refresh in
  λ cluster,
    match vpas cluster !! vpaID with
    | Some vpa =>
        if bool_decide (Selector_String (PodSelector vpa)
                        ≠ Selector_String selector)
        then
          (* Pod selector was changed. Delete the VPA object and recreate
             it with the new selector. *)
          (err <- DeleteVpa vpaID ;;
           match err with
           | Some e => ret (Some e)
           | None => create
           end) cluster
        else refresh cluster
    | None => create cluster
    end.

(** [VPAs], [Pods], [SetObservedVPAs], [ObservedVPAs] *)
Definition VPAs (cluster : clusterState) : gmap VpaID Vpa := vpas cluster.
Definition Pods (cluster : clusterState) : gmap PodID PodState := pods cluster.
Definition SetObservedVPAs (observed : list VerticalPodAutoscaler) : M unit :=
  modify (set_observedVPAs observed).
Definition ObservedVPAs (cluster : clusterState)
    : list VerticalPodAutoscaler :=
  observedVPAs cluster.

(** *** Garbage collection of aggregations *)

(** [GetControllingVPA] returns a VPA object controlling given Pod. *)
Definition GetControllingVPA (pod : PodState) (cluster : clusterState)
    : option Vpa :=
  head (filter (λ vpa, podMatchesVpa (labelSetMap cluster) pod vpa = true)
          (rangeOrder (map_to_list (vpas cluster))).*2).

(** [GetControllerForPodUnderVPA] returns controller associated with given
    Pod.  Returns nil if Pod is not controlled by a VPA object. *)
Definition GetControllerForPodUnderVPA (pod : PodState)
    (controllerFetcher : ControllerFetcher) (cluster : clusterState)
    : option ControllerKeyWithAPIVersion :=
  match GetControllingVPA pod cluster with
  | Some controllingVPA =>
      controllerFetcher
        (mkControllerKey (VpaID_Namespace (vpa_ID controllingVPA))
           (ref_Kind (TargetRef controllingVPA))
           (ref_Name (TargetRef controllingVPA))
           (ref_APIVersion (TargetRef controllingVPA)))
  | None => None
  end.

(** Pod is considered contributive in any of following situations:
    1) It is in active state - i.e. not PodSucceeded nor PodFailed.
    2) Its associated controller (e.g. Deployment) still exists. *)
Definition podContributive (controllerFetcher : ControllerFetcher)
    (cluster : clusterState) (pod : PodState) : bool :=
  let podControllerExists :=
    bool_decide
      (is_Some (GetControllerForPodUnderVPA pod controllerFetcher cluster)) in
  let podActive :=
    negb (bool_decide (Phase pod = PodSucceeded))
    && negb (bool_decide (Phase pod = PodFailed)) in
  podActive || podControllerExists.

(** [getContributiveAggregateStateKeys]: the keys that the returned
    [map[AggregateStateKey]bool] maps to true. *)
Definition getContributiveAggregateStateKeys
    (controllerFetcher : ControllerFetcher) (cluster : clusterState)
    : gset AggregateStateKey :=
  list_to_set
    (p ← rangeOrder (map_to_list (pods cluster));
     if podContributive controllerFetcher cluster p.2
     then MakeAggregateStateKey p.2
            <$> (rangeOrder (map_to_list (Containers p.2))).*1
     else []).

(** The test of the loop of [garbageCollectAggregateCollectionStates] that
    appends a key to [keysToDelete]. *)
Definition obsolete (contributiveKeys : gset AggregateStateKey)
    (h : gmap loc AggregateContainerState) (now : Time)
    (key : AggregateStateKey) (aggregateContainerState : loc) : bool :=
  let isKeyContributive := bool_decide (key ∈ contributiveKeys) in
  (negb isKeyContributive && isEmpty (deref h aggregateContainerState))
  || isExpired (deref h aggregateContainerState) now.

(** [garbageCollectAggregateCollectionStates] removes obsolete
    AggregateCollectionStates from the clusterState.
    AggregateCollectionState is obsolete in following situations:
    1) It has no samples and there are no more contributive pods - a pod is
       contributive in any of following situations:
         a) It is in an active state - i.e. not PodSucceeded nor PodFailed.
         b) Its associated controller (e.g. Deployment) still exists.
    2) The last sample is too old to give meaningful recommendation,
    3) There are no samples and the aggregate state was created too long
       ago. *)
Definition garbageCollectAggregateCollectionStates (now : Time)
    (controllerFetcher : ControllerFetcher) : M unit :=
  modify (λ cluster,
    let contributiveKeys :=
      getContributiveAggregateStateKeys controllerFetcher cluster in
    let keysToDelete :=
      (filter (λ e : AggregateStateKey * loc,
                 obsolete contributiveKeys (heap cluster) now e.1 e.2 = true)
         (rangeOrder (map_to_list (aggregateStateMap cluster)))).*1 in
    foldl (λ cluster key,
             set_vpas (fmap (DeleteAggregation key))
               (set_aggregateStateMap (delete key) cluster))
      cluster keysToDelete).

(** [RateLimitedGarbageCollectAggregateCollectionStates] removes obsolete
    AggregateCollectionStates from the clusterState.  It performs clean up
    only if more than [gcInterval] passed since the last time it performed
    a cleanup. *)
Definition RateLimitedGarbageCollectAggregateCollectionStates (now : Time)
    (controllerFetcher : ControllerFetcher) : M unit :=
  λ cluster,
    if Time_Sub now (lastAggregateContainerStateGC cluster) <? gcInterval cluster
    then Done tt cluster
    else
      (garbageCollectAggregateCollectionStates now controllerFetcher ;;;
       modify (set_lastAggregateContainerStateGC now)) cluster.

(** *** Missing recommendations *)

Definition hasRecommendation (vpa : Vpa) : bool :=
  match Recommendation vpa with
  | Some containerRecommendations =>
      bool_decide (0 < length containerRecommendations)%nat
  | None => false
  end.

(** [RecordRecommendation] marks the state of recommendation in the
    cluster.  We keep track of empty recommendations and log information
    about them periodically. *)
Definition RecordRecommendation (vpa : Vpa) (now : Time) : M (option error) :=
  λ cluster,
    if hasRecommendation vpa
    then Done None (set_emptyVPAs (delete (vpa_ID vpa)) cluster)
    else
      match emptyVPAs cluster !! vpa_ID vpa with
      | None => Done None (set_emptyVPAs <[vpa_ID vpa := now]> cluster)
      | Some lastLogged =>
          if Time_Before (Time_Add lastLogged RecommendationMissingMaxDuration)
               now
          then Done (Some (ErrMissingRecommendation (vpa_ID vpa)
                             RecommendationMissingMaxDuration))
                 (set_emptyVPAs <[vpa_ID vpa := now]> cluster)
          else Done None cluster
      end.

(** ** Sequences of operations *)

Inductive op :=
| OpAddOrUpdatePod (podID : PodID) (newLabels : LabelSet) (phase : PodPhase)
| OpDeletePod (podID : PodID)
| OpAddOrUpdateContainer (containerID : ContainerID) (request : Resources)
| OpAddSample (sample : ContainerUsageSampleWithKey)
| OpRecordOOM (containerID : ContainerID) (timestamp : Time)
    (requestedMemory : ResourceAmount)
| OpAddOrUpdateVpa (apiObject : VerticalPodAutoscaler) (selector : Selector)
| OpDeleteVpa (vpaID : VpaID)
| OpGarbageCollect (now : Time) (controllerFetcher : ControllerFetcher)
| OpRateLimitedGarbageCollect (now : Time)
    (controllerFetcher : ControllerFetcher)
| OpRecordRecommendation (vpa : Vpa) (now : Time)
| OpSetObservedVPAs (observed : list VerticalPodAutoscaler).

(** One call; what it returns is dropped, as a caller that goes on after
    an error does. *)
Definition step (o : op) : M unit :=
  match o with
  | OpAddOrUpdatePod podID newLabels phase =>
      AddOrUpdatePod podID newLabels phase
  | OpDeletePod podID => DeletePod podID
  | OpAddOrUpdateContainer containerID request =>
      AddOrUpdateContainer containerID request ;;; ret tt
  | OpAddSample sample => AddSample sample ;;; ret tt
  | OpRecordOOM containerID timestamp requestedMemory =>
      RecordOOM containerID timestamp requestedMemory ;;; ret tt
  | OpAddOrUpdateVpa apiObject selector =>
      AddOrUpdateVpa apiObject selector ;;; ret tt
  | OpDeleteVpa vpaID => DeleteVpa vpaID ;;; ret tt
  | OpGarbageCollect now controllerFetcher =>
      garbageCollectAggregateCollectionStates now controllerFetcher
  | OpRateLimitedGarbageCollect now controllerFetcher =>
      RateLimitedGarbageCollectAggregateCollectionStates now controllerFetcher
  | OpRecordRecommendation vpa now => RecordRecommendation vpa now ;;; ret tt
  | OpSetObservedVPAs observed => SetObservedVPAs observed
  end.

Definition run (ops : list op) : M unit := forM_ step ops.

(** An operation that sweeps the aggregation index. *)
Definition isGarbageCollect (o : op) : bool :=
  match o with
  | OpGarbageCollect _ _ | OpRateLimitedGarbageCollect _ _ => true
  | _ => false
  end.

End Operations.

(** ** An instance of the collaborators

    Small collaborators on which the model runs: a label set is given by
    its canonical string, a selector selects everything, nothing or one
    label set; an aggregation counts its samples and remembers the start
    of the last one and the marks it received; [range] visits a map in the
    order of [map_to_list]. *)

Module Demo.

Inductive selector :=
| Everything
| Nothing
| Exactly (labelSet : string).

Definition selector_String (s : selector) : string :=
  match s with
  | Everything => EmptyString
  | Nothing => "<null>"
  | Exactly l => l
  end.

Definition selector_Matches (s : selector) (labelSet : string) : bool :=
  match s with
  | Everything => true
  | Nothing => false
  | Exactly l => bool_decide (l = labelSet)
  end.

Definition labels : LabelsAPI :=
  {| LabelSet := string;
     Selector := selector;
     Set_String := λ l, l;
     Selector_String := selector_String;
     Matches := selector_Matches;
     nilSet := EmptyString;
     Set_String_inj := λ x y H, H |}.

Record aggregation := mkAggregation {
  TotalSamplesCount : nat;
  LastSampleStart : Time;
  NotAutoscaledMarks : nat;
}.

(** The length of the window after which an aggregation is expired. *)
Definition window : Duration := 8 * 24 * 60 * Minute.

Definition aggregations : AggregationAPI :=
  {| AggregateContainerState := aggregation;
     NewAggregateContainerState := mkAggregation 0 0 0;
     isEmpty := λ a, bool_decide (TotalSamplesCount a = 0%nat);
     isExpired := λ a now, window <=? Time_Sub now (LastSampleStart a);
     MarkNotAutoscaled := λ a,
       mkAggregation (TotalSamplesCount a) (LastSampleStart a)
         (S (NotAutoscaledMarks a));
     acceptSample := λ a sample,
       if (0 <=? Usage sample) && (LastSampleStart a <? MeasureStart sample)
       then Some (mkAggregation (S (TotalSamplesCount a)) (MeasureStart sample)
                    (NotAutoscaledMarks a))
       else None;
     acceptOOM := λ a timestamp requestedMemory,
       if timestamp <? LastSampleStart a
       then inl "OOM event will be discarded - it is too old"
       else inr (mkAggregation (S (TotalSamplesCount a))
                   (Z.max timestamp (LastSampleStart a))
                   (NotAutoscaledMarks a)) |}.

Definition order : MapIteration :=
  {| rangeOrder := λ A l, l;
     rangeOrder_perm := λ A l, reflexivity l |}.

#[local] Existing Instances labels aggregations order.

(** Runs of the model on these collaborators. *)
Definition p1 : PodID := mkPodID "ns" "p1".
Definition p2 : PodID := mkPodID "ns" "p2".
Definition c1 : ContainerID := mkContainerID p1 "c1".

Definition noController
    : ControllerKeyWithAPIVersion → option ControllerKeyWithAPIVersion :=
  λ _, None.



(** A running pod with one container. *)
Definition active : list op :=
  [ OpAddOrUpdatePod p1 "app=foo" "Running";
    OpAddOrUpdateContainer c1 ∅ ].

(** A policy object without a recommendation. *)
Definition vpa1 : Vpa := NewVpa (mkVpaID "ns" "vpa1") Everything 0.

(** The state in which a run from a fresh cluster state ends. *)
Definition final (ops : list op) : clusterState :=
  match run ops (NewClusterState 0) with
  | Done _ s => s
  | Panic _ => NewClusterState 0
  end.

(** The pod [p1] after the run [active]. *)
Definition pod1 : PodState :=
  mkPodState p1 "app=foo"
    {[ "c1" := NewContainerState ∅ (ContainerStateAggregatorProxy c1) ]}
    [] "Running".

(** The policy object [vpa1] is seen without a recommendation at time 0. *)
Definition tracked : list op := [ OpRecordRecommendation vpa1 0 ].

(** The API object of the policy [ns/vpa1], and a CPU sample for [c1]. *)
Definition api1 : VerticalPodAutoscaler :=
  mkApiObject "ns" "vpa1" ∅ 0 [] None (mkTargetRef "Deployment" "d" "apps/v1")
    None None "v1".

Definition cpu100 : gmap string Z := {[ "cpu" := 100 ]}.

Definition sample1 : ContainerUsageSampleWithKey :=
  mkSampleWithKey (mkSample 1 150 "cpu") c1.

(** What a call returns, and the state it leaves. *)
Definition returned {A} (o : outcome A) : option A :=
  match o with Done a _ => Some a | Panic _ => None end.

Definition after {A} (o : outcome A) : clusterState :=
  match o with Done _ s => s | Panic _ => NewClusterState 0 end.

End Demo.

(** ** The invariants of the cluster state *)

Section Invariants.
Context `{LA : LabelsAPI} `{AA : AggregationAPI} `{MI : MapIteration}.

(** A policy object holds a link to a key. *)
Definition holdsLink (vpa : Vpa) (key : AggregateStateKey) : Prop :=
  is_Some (aggregateContainerStates vpa !! key).

(** The (namespace, label set) of a key matches the (namespace, selector)
    of a policy object. *)
Definition keyMatches (cluster : clusterState) (vpa : Vpa)
    (key : AggregateStateKey) : Prop :=
  key_namespace key = VpaID_Namespace (vpa_ID vpa)
  ∧ Matches (PodSelector vpa) (Labels (labelSetMap cluster) key) = true.

(** I2: every registered policy object holds a link to a key of the index
    iff the key matches it. *)
Definition linkConsistent (cluster : clusterState) : Prop :=
  ∀ vpaID vpa key,
    vpas cluster !! vpaID = Some vpa →
    is_Some (aggregateStateMap cluster !! key) →
    holdsLink vpa key ↔ keyMatches cluster vpa key.

(** The (namespace, label set) of a registered pod matches the (namespace,
    selector) of a policy object. *)
Definition podMatches (cluster : clusterState) (vpa : Vpa)
    (podID : PodID) (pod : PodState) : Prop :=
  PodID_Namespace podID = VpaID_Namespace (vpa_ID vpa)
  ∧ Matches (PodSelector vpa)
      (lookupLabels (labelSetMap cluster) (pod_labelSetKey pod)) = true.

#[global] Instance podMatches_dec cluster vpa podID pod :
  Decision (podMatches cluster vpa podID pod).
Proof. unfold podMatches. apply _. Defined.

(** The number of pods of the registry that match a policy object, by a
    scan of the registry. *)
Definition matchingPodCount (cluster : clusterState) (vpa : Vpa) : nat :=
  size (filter (λ p : PodID * PodState, podMatches cluster vpa p.1 p.2)
          (pods cluster)).

(** I3: the pod count of every registered policy object is the number of
    registered pods that match it. *)
Definition podCountCorrect (cluster : clusterState) : Prop :=
  ∀ vpaID vpa,
    vpas cluster !! vpaID = Some vpa →
    PodCount vpa = Z.of_nat (matchingPodCount cluster vpa).

(** The aggregation a container's reference stands for: the target of a
    pointer, the entry that the index holds for the key of a proxy's
    container. *)
Definition referredAggregation (cluster : clusterState)
    (a : ContainerStateAggregator) : option loc :=
  match a with
  | AggregatorPtr l => Some l
  | ContainerStateAggregatorProxy containerID =>
      pod ← pods cluster !! CID_PodID containerID;
      aggregateStateMap cluster
        !! MakeAggregateStateKey pod (ContainerName containerID)
  end.

(** I1: the aggregation reference of every container of every registered
    pod is the entry of the index for the key (namespace of the pod, name
    of the container, current label set key of the pod). *)
Definition containersLinked (cluster : clusterState) : Prop :=
  ∀ podID pod containerName container,
    pods cluster !! podID = Some pod →
    Containers pod !! containerName = Some container →
    ∃ l,
      aggregateStateMap cluster
        !! mkKey (PodID_Namespace podID) containerName (pod_labelSetKey pod)
      = Some l
      ∧ referredAggregation cluster (aggregator container) = Some l.

(** What the operations keep besides.  A registered pod is keyed by its
    ID, its label set key is in the label set map, and a proxy among its
    containers is the proxy of the container that holds it. *)
Definition podOK (cluster : clusterState) (podID : PodID) (pod : PodState)
    : Prop :=
  ID pod = podID
  ∧ is_Some (labelSetMap cluster !! pod_labelSetKey pod)
  ∧ (∀ containerName container containerID,
       Containers pod !! containerName = Some container →
       aggregator container = ContainerStateAggregatorProxy containerID →
       containerID = mkContainerID podID containerName).

(** The policy objects are keyed by their IDs, the label set map holds
    each label set under its own string, the label set keys of the index
    are in the label set map, and the policy objects link keys of the
    index only. *)
Definition wellFormed (cluster : clusterState) : Prop :=
  (∀ podID pod, pods cluster !! podID = Some pod → podOK cluster podID pod)
  ∧ (∀ vpaID vpa, vpas cluster !! vpaID = Some vpa → vpa_ID vpa = vpaID)
  ∧ (∀ k labelSet,
       labelSetMap cluster !! k = Some labelSet → Set_String labelSet = k)
  ∧ (∀ key,
       is_Some (aggregateStateMap cluster !! key) →
       is_Some (labelSetMap cluster !! key_labelSetKey key))
  ∧ (∀ vpaID vpa key,
       vpas cluster !! vpaID = Some vpa →
       holdsLink vpa key → is_Some (aggregateStateMap cluster !! key)).

(** 0 or 1 *)
Definition indicator (b : bool) : Z := if b then 1 else 0.

(** The pod counts are right up to a correction [d] per policy object. *)
Definition podCountOff (d : Vpa → Z) (cluster : clusterState) : Prop :=
  ∀ vpaID vpa,
    vpas cluster !! vpaID = Some vpa →
    PodCount vpa = Z.of_nat (matchingPodCount cluster vpa) + d vpa.

(** What an operation on the index and on the links leaves alone: the
    label set map, the ID, label set key and container names of every pod,
    the ID, selector and pod count of every policy object; the index only
    grows. *)
Definition vpaMeta (vpa : Vpa) : VpaID * Selector * Z :=
  (vpa_ID vpa, PodSelector vpa, PodCount vpa).

Definition podMeta (pod : PodState) : PodID * labelSetKey * gset string :=
  (ID pod, pod_labelSetKey pod, dom (Containers pod)).

Definition frame (s s' : clusterState) : Prop :=
  labelSetMap s' = labelSetMap s
  ∧ podMeta <$> pods s' = podMeta <$> pods s
  ∧ vpaMeta <$> vpas s' = vpaMeta <$> vpas s
  ∧ aggregateStateMap s ⊆ aggregateStateMap s'.

(** The invariant of the cluster state that every operation keeps. *)
Definition clusterInvariant (cluster : clusterState) : Prop :=
  wellFormed cluster ∧ linkConsistent cluster ∧ podCountCorrect cluster.

(** I1 but for the containers [names] of the pod [podID]: the state of
    [AddOrUpdatePod] while its loop still has [names] to visit. *)
Definition linkedExcept (podID : PodID) (names : list string)
    (cluster : clusterState) : Prop :=
  ∀ podID' pod containerName container,
    pods cluster !! podID' = Some pod →
    Containers pod !! containerName = Some container →
    (podID' = podID → containerName ∉ names) →
    ∃ l,
      aggregateStateMap cluster
        !! mkKey (PodID_Namespace podID') containerName (pod_labelSetKey pod)
      = Some l
      ∧ referredAggregation cluster (aggregator container) = Some l.

(** The container [containerName] of [pod] points to the entry that the
    index holds for its key. *)
Definition pointsToEntry (cluster : clusterState) (pod : PodState)
    (containerName : string) : Prop :=
  ∃ container l,
    Containers pod !! containerName = Some container
    ∧ aggregator container = AggregatorPtr l
    ∧ aggregateStateMap cluster !! MakeAggregateStateKey pod containerName
      = Some l.

(** The entries of the index whose key matches (namespace, selector). *)
Definition matchingEntries (cluster : clusterState) (vpaID : VpaID)
    (selector : Selector) : gmap AggregateStateKey loc :=
  filter (λ e : AggregateStateKey * loc,
            key_namespace e.1 = VpaID_Namespace vpaID
            ∧ Matches selector (Labels (labelSetMap cluster) e.1) = true)
    (aggregateStateMap cluster).

(** The number of registered pods that match (namespace, selector). *)
Definition matchingPods (cluster : clusterState) (vpaID : VpaID)
    (selector : Selector) : nat :=
  size (filter (λ p : PodID * PodState,
                  PodID_Namespace p.1 = VpaID_Namespace vpaID
                  ∧ Matches selector
                      (lookupLabels (labelSetMap cluster)
                         (pod_labelSetKey p.2)) = true)
          (pods cluster)).

(** A policy object as it is created: linked to every matching entry of
    the index, with the number of matching pods as its pod count. *)
Definition seededVpa (cluster : clusterState) (vpaID : VpaID)
    (selector : Selector) (created : Time) : Vpa :=
  set_PodCount (λ _, Z.of_nat (matchingPods cluster vpaID selector))
    (set_aggregateContainerStates
       (λ _, matchingEntries cluster vpaID selector)
       (NewVpa vpaID selector created)).

End Invariants.

(** ** What the operations leave alone *)

Section Frames.
Context `{LA : LabelsAPI} `{AA : AggregationAPI} `{MI : MapIteration}.

(** The fields of the cluster state outside the registries, the index and
    the label set map. *)
Definition bookkeeping (cluster : clusterState)
    : gmap VpaID Time * list VerticalPodAutoscaler * Time * Duration :=
  (emptyVPAs cluster, observedVPAs cluster,
   lastAggregateContainerStateGC cluster, gcInterval cluster).

(** A pod but for the aggregators of its containers. *)
Definition podData (pod : PodState)
    : PodID * labelSetKey * list string * PodPhase * gmap string Resources :=
  (ID pod, pod_labelSetKey pod, InitContainers pod, Phase pod,
   Request <$> Containers pod).

(** A policy object but for its pod count and its links. *)
Definition vpaData (vpa : Vpa) : Vpa :=
  set_PodCount (λ _, 0) (set_aggregateContainerStates (λ _, ∅) vpa).

(** The registries as sets: the names of the containers of each
    registered pod, and the IDs of the registered policy objects. *)
Definition registryOf (cluster : clusterState)
    : gmap PodID (gset string) * gset VpaID :=
  ((λ pod, dom (Containers pod)) <$> pods cluster, dom (vpas cluster)).

(** What an operation does to the registries, as sets: a pod is added
    without containers, or kept; a container is added to a pod that is
    registered; a pod goes with its containers.  The samples, the
    sweeps and the recommendations add and remove nothing. *)
Definition registryStep (o : op) (r : gmap PodID (gset string) * gset VpaID)
    : gmap PodID (gset string) * gset VpaID :=
  match o with
  | OpAddOrUpdatePod podID _ _ => (<[podID := default ∅ (r.1 !! podID)]> r.1, r.2)
  | OpDeletePod podID => (delete podID r.1, r.2)
  | OpAddOrUpdateContainer containerID _ =>
      (alter (λ names, {[ContainerName containerID]} ∪ names)
         (CID_PodID containerID) r.1, r.2)
  | OpAddOrUpdateVpa apiObject _ =>
      (r.1, {[mkVpaID (api_Namespace apiObject) (api_Name apiObject)]} ∪ r.2)
  | OpDeleteVpa vpaID => (r.1, r.2 ∖ {[vpaID]})
  | _ => r
  end.

(** What one operation writes of the label set map, the index, the
    aggregations and the fields besides, by its kind. *)
Definition writes (o : op) (s s' : clusterState) : Prop :=
  gcInterval s' = gcInterval s
  ∧ labelSetMap s'
    = match o with
      | OpAddOrUpdatePod _ newLabels _ =>
          <[Set_String newLabels := newLabels]> (labelSetMap s)
      | _ => labelSetMap s
      end
  ∧ observedVPAs s'
    = match o with
      | OpSetObservedVPAs observed => observed
      | _ => observedVPAs s
      end
  ∧ match o with
    | OpRateLimitedGarbageCollect _ _ => True
    | _ => lastAggregateContainerStateGC s' = lastAggregateContainerStateGC s
    end
  ∧ (if isGarbageCollect o
     then aggregateStateMap s' ⊆ aggregateStateMap s
     else aggregateStateMap s ⊆ aggregateStateMap s')
  ∧ dom (heap s) ⊆ dom (heap s').

(** The pointers of the index and of the links: every aggregation of the
    index was made by [NewAggregateContainerState] (it is in the heap),
    no two keys of the index share an aggregation, and a link of a
    registered policy object holds the aggregation that the index holds
    for its key. *)
Definition pointersSound (cluster : clusterState) : Prop :=
  (∀ key l, aggregateStateMap cluster !! key = Some l →
            l ∈ dom (heap cluster))
  ∧ (∀ key key' l,
       aggregateStateMap cluster !! key = Some l →
       aggregateStateMap cluster !! key' = Some l → key = key')
  ∧ (∀ vpaID vpa key l,
       vpas cluster !! vpaID = Some vpa →
       aggregateContainerStates vpa !! key = Some l →
       aggregateStateMap cluster !! key = Some l).

End Frames.

(** * Proofs *)

(** ** The scenarios of the specification, run on the model *)

Section Scenarios.
#[local] Existing Instances Demo.labels Demo.aggregations Demo.order.

(** Scenario A: a registered container echoes its request and accepts a
    sample; once its pod is deleted, a sample for it is refused with a
    missing-parent error. *)
Example scenario_A :
  let s := Demo.final [ OpAddOrUpdatePod Demo.p1 "app=foo" "Running";
                        OpAddOrUpdateContainer Demo.c1 Demo.cpu100 ] in
  (Request <$> GetContainer Demo.c1 s) = Some Demo.cpu100
  ∧ Demo.returned (AddSample Demo.sample1 s) = Some None
  ∧ Demo.returned
      (AddSample Demo.sample1 (Demo.after (DeletePod Demo.p1 s)))
    = Some (Some (NewKeyError (KeyPodID Demo.p1))).
Proof. repeat split; vm_compute; reflexivity. Qed.

(** Scenario B: the pod count of a policy follows the labels of a pod. *)
Example scenario_B :
  let vpaID := mkVpaID "ns" "vpa1" in
  let s0 :=
    Demo.final [ OpAddOrUpdateVpa Demo.api1 (Demo.Exactly "app=foo") ] in
  let s1 := Demo.after (AddOrUpdatePod Demo.p1 "app=foo" "Running" s0) in
  let s2 := Demo.after (AddOrUpdatePod Demo.p1 "app=bar" "Running" s1) in
  (PodCount <$> vpas s0 !! vpaID) = Some 0
  ∧ (PodCount <$> vpas s1 !! vpaID) = Some 1
  ∧ (PodCount <$> vpas s2 !! vpaID) = Some 0.
Proof. repeat split; vm_compute; reflexivity. Qed.

(** Scenario D: deleting the only policy linked to a key marks the
    aggregation of the key as not autoscaled; a sweep without a
    contributive pod for the key then deletes the key from the index. *)
Example scenario_D :
  let key := mkKey "ns" "c1" "app=foo" in
  let s0 := Demo.final [ OpAddOrUpdateVpa Demo.api1 (Demo.Exactly "app=foo");
                         OpAddOrUpdatePod Demo.p1 "app=foo" "Succeeded";
                         OpAddOrUpdateContainer Demo.c1 Demo.cpu100 ] in
  let s1 := Demo.after (DeleteVpa (mkVpaID "ns" "vpa1") s0) in
  let s2 := Demo.after (garbageCollectAggregateCollectionStates 0
                          Demo.noController s1) in
  (l ← aggregateStateMap s0 !! key;
   Some (Demo.NotAutoscaledMarks (deref (heap s0) l))) = Some 0%nat
  ∧ (l ← aggregateStateMap s1 !! key;
     Some (Demo.NotAutoscaledMarks (deref (heap s1) l))) = Some 1%nat
  ∧ aggregateStateMap s2 !! key = None.
Proof. repeat split; vm_compute; reflexivity. Qed.

End Scenarios.

(** ** The order of [range] and the label set map *)

Section Basics.
Context `{LA : LabelsAPI} `{AA : AggregationAPI} `{MI : MapIteration}.

Lemma rangeOrder_elem_of {A} (l : list A) (x : A) : x ∈ rangeOrder l ↔ x ∈ l.
Proof. by rewrite rangeOrder_perm. Qed.

Lemma rangeOrder_nil {A} : rangeOrder (@nil A) = [].
Proof. apply Permutation_nil_r. by rewrite rangeOrder_perm. Qed.

Lemma rangeOrder_length {A} (l : list A) : length (rangeOrder l) = length l.
Proof. by rewrite rangeOrder_perm. Qed.

Lemma lookupLabels_insert (m : gmap string LabelSet) (labelSet : LabelSet) (k : string) :
  (∀ k labelSet, m !! k = Some labelSet → Set_String labelSet = k) →
  is_Some (m !! k) →
  lookupLabels (<[Set_String labelSet := labelSet]> m) k = lookupLabels m k.
Proof.
  intros Hm [l Hl]. unfold lookupLabels.
  destruct (decide (Set_String labelSet = k)) as [<-|Hne].
  - rewrite lookup_insert_eq, Hl. simpl. f_equal.
    apply Set_String_inj. symmetry. by apply Hm.
  - by rewrite lookup_insert_ne.
Qed.

Lemma interned_insert (m : gmap string LabelSet) (labelSet : LabelSet) :
  (∀ k labelSet, m !! k = Some labelSet → Set_String labelSet = k) →
  ∀ k l, <[Set_String labelSet := labelSet]> m !! k = Some l → Set_String l = k.
Proof.
  intros Hm k l. rewrite lookup_insert. case_decide; [|by apply Hm].
  intros [= <-]. done.
Qed.

End Basics.

(** ** [findOrCreateAggregateContainerState] *)

Section FindOrCreate.
Context `{LA : LabelsAPI} `{AA : AggregationAPI} `{MI : MapIteration}.

Lemma matchesAggregation_keyMatches (s : clusterState) (vpa : Vpa) key :
  matchesAggregation (labelSetMap s) vpa key = true ↔ keyMatches s vpa key.
Proof.
  unfold matchesAggregation, keyMatches.
  rewrite andb_true_iff, bool_decide_eq_true.
  split; intros [? ?]; split; congruence.
Qed.

Lemma UsesAggregation_holdsLink (vpa : Vpa) key :
  UsesAggregation vpa key = true ↔ holdsLink vpa key.
Proof. unfold UsesAggregation. by rewrite bool_decide_eq_true. Qed.

Lemma UseAggregationIfMatching_meta m key l (vpa : Vpa) :
  vpaMeta (UseAggregationIfMatching m key l vpa) = vpaMeta vpa.
Proof.
  unfold UseAggregationIfMatching.
  destruct (UsesAggregation vpa key); [done|].
  by destruct (matchesAggregation m vpa key).
Qed.

Lemma UseAggregationIfMatching_links_ne m key l (vpa : Vpa) key' :
  key ≠ key' →
  aggregateContainerStates (UseAggregationIfMatching m key l vpa) !! key'
  = aggregateContainerStates vpa !! key'.
Proof.
  intros Hne. unfold UseAggregationIfMatching.
  destruct (UsesAggregation vpa key); [done|].
  destruct (matchesAggregation m vpa key); [|done].
  simpl. by rewrite lookup_insert_ne.
Qed.

Lemma UseAggregationIfMatching_links_eq m key l (vpa : Vpa) :
  aggregateContainerStates vpa !! key = None →
  aggregateContainerStates (UseAggregationIfMatching m key l vpa) !! key
  = if matchesAggregation m vpa key then Some l else None.
Proof.
  intros Hnone. unfold UseAggregationIfMatching, UsesAggregation.
  rewrite bool_decide_eq_false_2 by (rewrite Hnone; by intros [? ?]).
  destruct (matchesAggregation m vpa key); [|done].
  simpl. by rewrite lookup_insert_eq.
Qed.

Lemma vpaMeta_ID (v v' : Vpa) : vpaMeta v' = vpaMeta v → vpa_ID v' = vpa_ID v.
Proof. unfold vpaMeta. congruence. Qed.
Lemma vpaMeta_PodSelector (v v' : Vpa) :
  vpaMeta v' = vpaMeta v → PodSelector v' = PodSelector v.
Proof. unfold vpaMeta. congruence. Qed.
Lemma vpaMeta_PodCount (v v' : Vpa) :
  vpaMeta v' = vpaMeta v → PodCount v' = PodCount v.
Proof. unfold vpaMeta. congruence. Qed.

Lemma keyMatches_meta (s s' : clusterState) (v v' : Vpa) key :
  labelSetMap s' = labelSetMap s → vpaMeta v' = vpaMeta v →
  keyMatches s' v' key ↔ keyMatches s v key.
Proof.
  intros Hl Hm. unfold keyMatches.
  by rewrite Hl, (vpaMeta_ID _ _ Hm), (vpaMeta_PodSelector _ _ Hm).
Qed.

Lemma frame_refl (s : clusterState) : frame s s.
Proof. by repeat split. Qed.

Lemma frame_trans (s1 s2 s3 : clusterState) :
  frame s1 s2 → frame s2 s3 → frame s1 s3.
Proof.
  intros (?&?&?&?) (?&?&?&?). repeat split; try congruence.
  by etrans.
Qed.

Lemma findOrCreate_spec (containerID : ContainerID) (s : clusterState) pod :
  pods s !! CID_PodID containerID = Some pod →
  ∃ l s',
    findOrCreateAggregateContainerState containerID s = Done l s'
    ∧ frame s s'
    ∧ pods s' = pods s
    ∧ aggregateStateMap s'
        !! MakeAggregateStateKey pod (ContainerName containerID) = Some l
    ∧ (wellFormed s → linkConsistent s → wellFormed s' ∧ linkConsistent s').
Proof.
  intros Hpod.
  unfold findOrCreateAggregateContainerState, bind,
    aggregateStateKeyForContainerID.
  rewrite Hpod.
  set (key := MakeAggregateStateKey pod (ContainerName containerID)).
  destruct (aggregateStateMap s !! key) as [l|] eqn:Hkey.
  { exists l, s. eauto 10 using frame_refl. }
  eexists _, _. split; [done|].
  set (l := fresh (dom (heap s))).
  split; [|split; [|split]]; simpl.
  - (* frame *)
    repeat split; simpl; try done.
    + rewrite <- map_fmap_compose. apply map_fmap_ext.
      intros ? ? _. apply UseAggregationIfMatching_meta.
    + by apply insert_subseteq.
  - done.
  - by rewrite lookup_insert_eq.
  - intros (Hpod' & Hvid & Hint & Hik & Hli) Hlink.
    assert (Hnolink : ∀ vpaID vpa, vpas s !! vpaID = Some vpa →
              aggregateContainerStates vpa !! key = None).
    { intros vpaID vpa Hv. apply eq_None_not_Some. intros Hs.
      destruct (Hli _ _ _ Hv Hs) as [? ?]. congruence. }
    split.
    + (* wellFormed *)
      split; [exact Hpod'|]. split; [|split; [exact Hint|split]]; simpl.
      * intros vpaID vpa'. rewrite lookup_fmap.
        destruct (vpas s !! vpaID) as [vpa|] eqn:Hv; [|done].
        intros [= <-].
        rewrite (vpaMeta_ID _ _ (UseAggregationIfMatching_meta _ _ _ _)). eauto.
      * intros key'. rewrite lookup_insert. case_decide; [|by apply Hik].
        subst key'. intros _. simpl. by eapply (Hpod' _ _ Hpod).
      * intros vpaID vpa' key'. rewrite lookup_fmap.
        destruct (vpas s !! vpaID) as [vpa|] eqn:Hv; [|done].
        intros [= <-]. unfold holdsLink. rewrite lookup_insert.
        case_decide; [done|].
        rewrite UseAggregationIfMatching_links_ne by done. by eapply Hli.
    + (* linkConsistent *)
      intros vpaID vpa' key'. simpl. rewrite lookup_fmap.
      destruct (vpas s !! vpaID) as [vpa|] eqn:Hv; [|done].
      intros [= <-]. rewrite lookup_insert. case_decide as Hk.
      * subst key'. intros _. unfold holdsLink.
        rewrite UseAggregationIfMatching_links_eq by eauto.
        rewrite (keyMatches_meta s _ vpa _) by
          (done || apply UseAggregationIfMatching_meta).
        rewrite <- matchesAggregation_keyMatches.
        destruct (matchesAggregation (labelSetMap s) vpa key); [by eauto|].
        split; [by intros [? ?]|done].
      * intros Hin. unfold holdsLink.
        rewrite UseAggregationIfMatching_links_ne by done.
        rewrite (keyMatches_meta s _ vpa _) by
          (done || apply UseAggregationIfMatching_meta).
        by eapply Hlink.
Qed.

End FindOrCreate.

(** ** Counting the matching pods *)

Section Counting.
Context `{LA : LabelsAPI} `{AA : AggregationAPI} `{MI : MapIteration}.

Lemma size_filter_insert {A} (P : PodID * A → Prop) `{!∀ x, Decision (P x)}
    (m : gmap PodID A) i x :
  size (filter P (<[i:=x]> m))
  = ((if decide (P (i, x)) then 1 else 0) + size (filter P (delete i m)))%nat.
Proof.
  rewrite map_filter_insert. case_decide; [|done].
  rewrite <- insert_delete_eq, map_size_insert_None.
  - by rewrite map_filter_delete.
  - apply lookup_delete_eq.
Qed.

Lemma size_filter_delete {A} (P : PodID * A → Prop) `{!∀ x, Decision (P x)}
    (m : gmap PodID A) i x :
  m !! i = Some x →
  size (filter P m)
  = ((if decide (P (i, x)) then 1 else 0) + size (filter P (delete i m)))%nat.
Proof.
  intros Hi. rewrite <- (insert_id m i x) at 1 by done.
  apply size_filter_insert.
Qed.

Lemma podMatchesVpa_podMatches (s : clusterState) (vpa : Vpa) (pod : PodState) :
  podMatchesVpa (labelSetMap s) pod vpa = true
  ↔ podMatches s vpa (ID pod) pod.
Proof.
  unfold podMatchesVpa, PodLabelsMatchVPA, podMatches.
  by rewrite andb_true_iff, bool_decide_eq_true.
Qed.

Lemma podMatches_meta (s s' : clusterState) (v v' : Vpa) id (pod pod' : PodState) :
  vpaMeta v' = vpaMeta v →
  lookupLabels (labelSetMap s') (pod_labelSetKey pod')
  = lookupLabels (labelSetMap s) (pod_labelSetKey pod) →
  podMatches s' v' id pod' ↔ podMatches s v id pod.
Proof.
  intros Hm Hl. unfold podMatches.
  by rewrite Hl, (vpaMeta_ID _ _ Hm), (vpaMeta_PodSelector _ _ Hm).
Qed.

Lemma matchingPodCount_keys (s : clusterState) (vpa : Vpa) :
  matchingPodCount s vpa
  = size (filter (λ p : PodID * string,
                    PodID_Namespace p.1 = VpaID_Namespace (vpa_ID vpa)
                    ∧ Matches (PodSelector vpa)
                        (lookupLabels (labelSetMap s) p.2) = true)
            (pod_labelSetKey <$> pods s)).
Proof.
  unfold matchingPodCount. by rewrite map_filter_fmap, map_size_fmap.
Qed.

Lemma matchingPodCount_same (s s' : clusterState) (v v' : Vpa) :
  pod_labelSetKey <$> pods s' = pod_labelSetKey <$> pods s →
  (∀ id pod, pods s !! id = Some pod →
     lookupLabels (labelSetMap s') (pod_labelSetKey pod)
     = lookupLabels (labelSetMap s) (pod_labelSetKey pod)) →
  vpaMeta v' = vpaMeta v →
  matchingPodCount s' v' = matchingPodCount s v.
Proof.
  intros Hk Hl Hm. rewrite !matchingPodCount_keys, Hk.
  f_equal. apply map_filter_ext. intros i k. rewrite lookup_fmap.
  destruct (pods s !! i) as [pod|] eqn:Hp; [|done].
  intros [= <-]. simpl.
  by rewrite (Hl _ _ Hp), (vpaMeta_ID _ _ Hm), (vpaMeta_PodSelector _ _ Hm).
Qed.

Lemma podMeta_key_fmap (m m' : gmap PodID PodState) :
  podMeta <$> m' = podMeta <$> m →
  pod_labelSetKey <$> m' = pod_labelSetKey <$> m.
Proof.
  intros Hm.
  assert (Hc : ∀ m : gmap PodID PodState,
            pod_labelSetKey <$> m = (λ x, x.1.2) <$> (podMeta <$> m)).
  { intros m0. rewrite <- map_fmap_compose. by apply map_fmap_ext. }
  by rewrite !Hc, Hm.
Qed.

Lemma matchingPodCount_frame (s s' : clusterState) (v v' : Vpa) :
  frame s s' → vpaMeta v' = vpaMeta v →
  matchingPodCount s' v' = matchingPodCount s v.
Proof.
  intros (Hl & Hp & _ & _) Hm. apply matchingPodCount_same; [|by rewrite Hl|done].
  by apply podMeta_key_fmap.
Qed.

Lemma frame_vpa (s s' : clusterState) vpaID (v' : Vpa) :
  frame s s' → vpas s' !! vpaID = Some v' →
  ∃ v, vpas s !! vpaID = Some v ∧ vpaMeta v' = vpaMeta v.
Proof.
  intros (_ & _ & Hv & _) Hv'.
  assert (H1 := f_equal (λ m, m !! vpaID) Hv). simpl in H1.
  rewrite !lookup_fmap, Hv' in H1. simpl in H1.
  destruct (vpas s !! vpaID) as [v|]; [|done]. simpl in H1.
  exists v. split; [done|congruence].
Qed.

Lemma frame_pod (s s' : clusterState) podID (pod : PodState) :
  frame s s' → pods s !! podID = Some pod →
  ∃ pod', pods s' !! podID = Some pod' ∧ podMeta pod' = podMeta pod.
Proof.
  intros (_ & Hp & _ & _) Hpod.
  assert (H1 := f_equal (λ m, m !! podID) Hp). simpl in H1.
  rewrite !lookup_fmap, Hpod in H1. simpl in H1.
  destruct (pods s' !! podID) as [pod'|]; [|done]. simpl in H1.
  exists pod'. split; [done|congruence].
Qed.

Lemma podCountOff_frame (d : Vpa → Z) (s s' : clusterState) :
  (∀ v v', vpaMeta v' = vpaMeta v → d v' = d v) →
  frame s s' → podCountOff d s → podCountOff d s'.
Proof.
  intros Hd Hf Hc vpaID v' Hv'.
  destruct (frame_vpa _ _ _ _ Hf Hv') as (v & Hv & Hm).
  rewrite (vpaMeta_PodCount _ _ Hm), (Hc _ _ Hv).
  by rewrite (matchingPodCount_frame _ _ _ _ Hf Hm), (Hd _ _ Hm).
Qed.

Lemma podCountOff_zero (s : clusterState) :
  podCountOff (λ _, 0) s ↔ podCountCorrect s.
Proof.
  unfold podCountOff, podCountCorrect.
  split; intros Hc vpaID vpa Hv; specialize (Hc _ _ Hv); lia.
Qed.

End Counting.

(** ** The steps that the operations are made of *)

Section Steps.
Context `{LA : LabelsAPI} `{AA : AggregationAPI} `{MI : MapIteration}.

Lemma podCountOff_ext (d d' : Vpa → Z) (s : clusterState) :
  (∀ v, d v = d' v) → podCountOff d s → podCountOff d' s.
Proof. intros Hd Hc vpaID v Hv. rewrite <- Hd. by eapply Hc. Qed.

(** Changes of the policy registry that keep the ID, the selector and the
    links of every policy object. *)
Lemma wellFormed_vpas (s s' : clusterState) :
  pods s' = pods s → labelSetMap s' = labelSetMap s →
  aggregateStateMap s' = aggregateStateMap s →
  (∀ vpaID v', vpas s' !! vpaID = Some v' →
     ∃ v, vpas s !! vpaID = Some v ∧ vpa_ID v' = vpa_ID v
          ∧ PodSelector v' = PodSelector v
          ∧ aggregateContainerStates v' = aggregateContainerStates v) →
  wellFormed s → wellFormed s'.
Proof.
  intros Hp Hl Hi Hv (Hpod & Hvid & Hint & Hik & Hli).
  split; [|split; [|split; [|split]]].
  - intros podID pod. rewrite Hp. intros Hpd.
    destruct (Hpod _ _ Hpd) as (? & ? & ?). split; [done|]. by rewrite Hl.
  - intros vpaID v' Hv'. destruct (Hv _ _ Hv') as (v & ? & -> & _). eauto.
  - by rewrite Hl.
  - rewrite Hi, Hl. exact Hik.
  - intros vpaID v' key Hv'. destruct (Hv _ _ Hv') as (v & ? & _ & _ & Hlk).
    unfold holdsLink. rewrite Hlk, Hi. by eapply Hli.
Qed.

Lemma linkConsistent_vpas (s s' : clusterState) :
  labelSetMap s' = labelSetMap s →
  aggregateStateMap s' = aggregateStateMap s →
  (∀ vpaID v', vpas s' !! vpaID = Some v' →
     ∃ v, vpas s !! vpaID = Some v ∧ vpa_ID v' = vpa_ID v
          ∧ PodSelector v' = PodSelector v
          ∧ aggregateContainerStates v' = aggregateContainerStates v) →
  linkConsistent s → linkConsistent s'.
Proof.
  intros Hl Hi Hv Hlink vpaID v' key Hv'.
  destruct (Hv _ _ Hv') as (v & Hv0 & Hid & Hsel & Hlk).
  rewrite Hi. intros Hk. unfold holdsLink, keyMatches.
  rewrite Hlk, Hl, Hid, Hsel. by eapply Hlink.
Qed.

(** Changes of the pod registry. *)
Lemma wellFormed_pods (s s' : clusterState) :
  vpas s' = vpas s → labelSetMap s' = labelSetMap s →
  aggregateStateMap s' = aggregateStateMap s →
  (∀ podID pod', pods s' !! podID = Some pod' → podOK s podID pod') →
  wellFormed s → wellFormed s'.
Proof.
  intros Hv Hl Hi Hp (Hpod & Hvid & Hint & Hik & Hli).
  split; [|split; [|split; [|split]]].
  - intros podID pod Hpd. destruct (Hp _ _ Hpd) as (? & ? & ?).
    split; [done|]. by rewrite Hl.
  - by rewrite Hv.
  - by rewrite Hl.
  - rewrite Hi, Hl. exact Hik.
  - rewrite Hv, Hi. exact Hli.
Qed.

Lemma linkConsistent_same (s s' : clusterState) :
  vpas s' = vpas s → labelSetMap s' = labelSetMap s →
  aggregateStateMap s' = aggregateStateMap s →
  linkConsistent s → linkConsistent s'.
Proof.
  intros Hv Hl Hi Hlink vpaID v key. rewrite Hv, Hi.
  unfold keyMatches. rewrite Hl. apply Hlink.
Qed.

(** Interning a label set. *)
Lemma intern_lookupLabels (s : clusterState) labelSet k :
  wellFormed s → is_Some (labelSetMap s !! k) →
  lookupLabels (<[Set_String labelSet := labelSet]> (labelSetMap s)) k
  = lookupLabels (labelSetMap s) k.
Proof. intros (_ & _ & Hint & _) Hk. by apply lookupLabels_insert. Qed.

Lemma intern_wellFormed (s : clusterState) labelSet :
  wellFormed s →
  wellFormed (set_labelSetMap <[Set_String labelSet := labelSet]> s).
Proof.
  intros (Hpod & Hvid & Hint & Hik & Hli).
  split; [|split; [|split; [|split]]]; simpl.
  - intros podID pod Hpd. destruct (Hpod _ _ Hpd) as (? & ? & ?).
    split; [done|]. split; [|done]. simpl.
    rewrite lookup_insert_is_Some. destruct (decide (Set_String labelSet = pod_labelSetKey pod)); eauto.
  - exact Hvid.
  - by apply interned_insert.
  - intros key Hk. rewrite lookup_insert_is_Some.
    destruct (decide (Set_String labelSet = key_labelSetKey key)); eauto.
  - exact Hli.
Qed.

Lemma intern_linkConsistent (s : clusterState) labelSet :
  wellFormed s → linkConsistent s →
  linkConsistent (set_labelSetMap <[Set_String labelSet := labelSet]> s).
Proof.
  intros Hwf Hlink vpaID v key Hv Hk. simpl in Hv, Hk.
  rewrite (Hlink _ _ _ Hv Hk). unfold keyMatches, Labels. simpl.
  rewrite intern_lookupLabels; [done|done|].
  destruct Hwf as (_ & _ & _ & Hik & _). by apply Hik.
Qed.

Lemma intern_podCountOff (d : Vpa → Z) (s : clusterState) labelSet :
  wellFormed s → podCountOff d s →
  podCountOff d (set_labelSetMap <[Set_String labelSet := labelSet]> s).
Proof.
  intros Hwf Hc vpaID v Hv. simpl in Hv. rewrite (Hc _ _ Hv).
  f_equal. f_equal. symmetry. apply matchingPodCount_same; [done| |done].
  intros id pod Hp. simpl. apply intern_lookupLabels; [done|].
  destruct Hwf as (Hpod & _). by apply (Hpod _ _ Hp).
Qed.

(** The pod counts after [addPodToItsVpa] and [removePodFromItsVpa]. *)
Lemma adjust_vpas (s : clusterState) (b : Vpa → bool) (g : Z → Z) vpaID v' :
  (fmap (λ vpa, if b vpa then set_PodCount g vpa else vpa) (vpas s))
    !! vpaID = Some v' →
  ∃ v, vpas s !! vpaID = Some v ∧ vpa_ID v' = vpa_ID v
       ∧ PodSelector v' = PodSelector v
       ∧ aggregateContainerStates v' = aggregateContainerStates v
       ∧ PodCount v' = if b v then g (PodCount v) else PodCount v.
Proof.
  rewrite lookup_fmap. destruct (vpas s !! vpaID) as [v|]; [|done].
  intros [= <-]. exists v. by destruct (b v).
Qed.

Lemma podMatchesVpa_target m (pod : PodState) (v v' : Vpa) :
  vpa_ID v' = vpa_ID v → PodSelector v' = PodSelector v →
  podMatchesVpa m pod v' = podMatchesVpa m pod v.
Proof. unfold podMatchesVpa. by intros -> ->. Qed.

Lemma matchingPodCount_target (s s' : clusterState) (v v' : Vpa) :
  pods s' = pods s → labelSetMap s' = labelSetMap s →
  vpa_ID v' = vpa_ID v → PodSelector v' = PodSelector v →
  matchingPodCount s' v' = matchingPodCount s v.
Proof.
  intros Hp Hl Hid Hsel. unfold matchingPodCount. rewrite Hp.
  f_equal. apply map_filter_ext. intros i x _. unfold podMatches.
  by rewrite Hl, Hid, Hsel.
Qed.

Lemma adjust_podCountOff (d : Vpa → Z) (s : clusterState) (pod : PodState)
    (g : Z → Z) (δ : Z) :
  (∀ n, g n = n + δ) →
  (∀ v v', vpa_ID v' = vpa_ID v → PodSelector v' = PodSelector v → d v' = d v) →
  podCountOff d s →
  podCountOff
    (λ v, d v + δ * indicator (podMatchesVpa (labelSetMap s) pod v))
    (set_vpas (fmap (λ vpa, if podMatchesVpa (labelSetMap s) pod vpa
                            then set_PodCount g vpa else vpa)) s).
Proof.
  intros Hg Hd Hc vpaID v' Hv'. simpl in Hv'.
  destruct (adjust_vpas _ _ _ _ _ Hv') as (v & Hv & Hid & Hsel & _ & Hcount).
  rewrite Hcount, (podMatchesVpa_target _ _ _ _ Hid Hsel), (Hd _ _ Hid Hsel).
  rewrite (matchingPodCount_target s _ v v') by done.
  specialize (Hc _ _ Hv). unfold indicator.
  destruct (podMatchesVpa (labelSetMap s) pod v); rewrite ?Hg; lia.
Qed.

Lemma adjust_wellFormed (s : clusterState) (b : Vpa → bool) (g : Z → Z) :
  wellFormed s →
  wellFormed (set_vpas (fmap (λ vpa, if b vpa then set_PodCount g vpa
                                     else vpa)) s).
Proof.
  apply wellFormed_vpas; try done. intros vpaID v' Hv'. simpl in Hv'.
  destruct (adjust_vpas _ _ _ _ _ Hv') as (v & ?). exists v. naive_solver.
Qed.

Lemma adjust_linkConsistent (s : clusterState) (b : Vpa → bool) (g : Z → Z) :
  linkConsistent s →
  linkConsistent (set_vpas (fmap (λ vpa, if b vpa then set_PodCount g vpa
                                         else vpa)) s).
Proof.
  apply linkConsistent_vpas; try done. intros vpaID v' Hv'. simpl in Hv'.
  destruct (adjust_vpas _ _ _ _ _ Hv') as (v & ?). exists v. naive_solver.
Qed.

(** The pod counts after a change of the pod registry. *)
Lemma podMatchesVpa_decide (s : clusterState) (v : Vpa) (pod : PodState) :
  podMatchesVpa (labelSetMap s) pod v
  = bool_decide (podMatches s v (ID pod) pod).
Proof.
  apply eq_true_iff_eq.
  by rewrite podMatchesVpa_podMatches, bool_decide_eq_true.
Qed.

Lemma matchingPodCount_insert (s : clusterState) (v : Vpa) id (pod : PodState) :
  matchingPodCount (set_pods <[id := pod]> s) v
  = (Nat.b2n (bool_decide (podMatches s v id pod))
     + matchingPodCount (set_pods (delete id) s) v)%nat.
Proof.
  unfold matchingPodCount. simpl.
  rewrite (size_filter_insert (λ p, podMatches s v p.1 p.2)). simpl.
  by rewrite decide_bool_decide.
Qed.

Lemma matchingPodCount_delete (s : clusterState) (v : Vpa) id (pod : PodState) :
  pods s !! id = Some pod →
  matchingPodCount s v
  = (Nat.b2n (bool_decide (podMatches s v id pod))
     + matchingPodCount (set_pods (delete id) s) v)%nat.
Proof.
  intros Hp. unfold matchingPodCount. simpl.
  rewrite (size_filter_delete (λ p, podMatches s v p.1 p.2) _ _ _ Hp). simpl.
  by rewrite decide_bool_decide.
Qed.

Lemma matchingPodCount_absent (s : clusterState) (v : Vpa) id :
  pods s !! id = None →
  matchingPodCount (set_pods (delete id) s) v = matchingPodCount s v.
Proof. intros Hp. unfold matchingPodCount. simpl. by rewrite delete_id. Qed.

Lemma indicator_b2n (b : bool) : Z.of_nat (Nat.b2n b) = indicator b.
Proof. by destruct b. Qed.

Lemma replace_podCountOff (d : Vpa → Z) (s : clusterState) id (pod pod' : PodState) :
  pods s !! id = Some pod →
  podCountOff d s →
  podCountOff (λ v, d v + indicator (bool_decide (podMatches s v id pod))
                    - indicator (bool_decide (podMatches s v id pod')))
    (set_pods <[id := pod']> s).
Proof.
  intros Hp Hc vpaID v Hv. simpl in Hv. specialize (Hc _ _ Hv).
  rewrite matchingPodCount_insert. rewrite (matchingPodCount_delete _ _ _ _ Hp) in Hc.
  rewrite Hc, !Nat2Z.inj_add, !indicator_b2n. lia.
Qed.

Lemma insert_podCountOff (d : Vpa → Z) (s : clusterState) id (pod' : PodState) :
  pods s !! id = None →
  podCountOff d s →
  podCountOff (λ v, d v - indicator (bool_decide (podMatches s v id pod')))
    (set_pods <[id := pod']> s).
Proof.
  intros Hp Hc vpaID v Hv. simpl in Hv. specialize (Hc _ _ Hv).
  rewrite matchingPodCount_insert, matchingPodCount_absent by done.
  rewrite Hc, !Nat2Z.inj_add, !indicator_b2n. lia.
Qed.

Lemma delete_podCountOff (d : Vpa → Z) (s : clusterState) id (pod : PodState) :
  pods s !! id = Some pod →
  podCountOff d s →
  podCountOff (λ v, d v + indicator (bool_decide (podMatches s v id pod)))
    (set_pods (delete id) s).
Proof.
  intros Hp Hc vpaID v Hv. simpl in Hv. specialize (Hc _ _ Hv).
  rewrite (matchingPodCount_delete _ _ _ _ Hp) in Hc.
  rewrite Hc, !Nat2Z.inj_add, !indicator_b2n. lia.
Qed.

Lemma alter_insert_lookup {K A} `{Countable K} (f : A → A) (m : gmap K A) i x :
  m !! i = Some x → alter f i m = <[i := f x]> m.
Proof.
  intros Hi. apply map_eq. intros j. rewrite lookup_alter, lookup_insert.
  case_decide; [subst; by rewrite Hi|done].
Qed.

End Steps.

(** ** The loop of [AddOrUpdatePod] over the containers *)

Section Relink.
Context `{LA : LabelsAPI} `{AA : AggregationAPI} `{MI : MapIteration}.

Lemma podMeta_ID (p p' : PodState) : podMeta p' = podMeta p → ID p' = ID p.
Proof. unfold podMeta. congruence. Qed.
Lemma podMeta_key (p p' : PodState) :
  podMeta p' = podMeta p → pod_labelSetKey p' = pod_labelSetKey p.
Proof. unfold podMeta. congruence. Qed.
Lemma podMeta_dom (p p' : PodState) :
  podMeta p' = podMeta p → dom (Containers p') = dom (Containers p).
Proof. unfold podMeta. congruence. Qed.
Lemma podMeta_MakeAggregateStateKey (p p' : PodState) name :
  podMeta p' = podMeta p →
  MakeAggregateStateKey p' name = MakeAggregateStateKey p name.
Proof.
  intros Hm. unfold MakeAggregateStateKey.
  by rewrite (podMeta_ID _ _ Hm), (podMeta_key _ _ Hm).
Qed.

Lemma referredAggregation_frame (s s' : clusterState) a l :
  frame s s' →
  referredAggregation s a = Some l → referredAggregation s' a = Some l.
Proof.
  intros Hf. destruct a as [cid|l']; [|done]. simpl.
  destruct (pods s !! CID_PodID cid) as [pod|] eqn:Hp; [|done]. simpl.
  destruct (frame_pod _ _ _ _ Hf Hp) as (pod' & -> & Hm). simpl.
  rewrite (podMeta_MakeAggregateStateKey _ _ _ Hm).
  destruct Hf as (_ & _ & _ & Hsub). intros Hx. by eapply lookup_weaken.
Qed.

Lemma relinkedPod_meta (pod : PodState) name l :
  podMeta (set_Containers (alter (set_aggregator (AggregatorPtr l)) name) pod)
  = podMeta pod.
Proof. unfold podMeta. simpl. by rewrite dom_alter_L. Qed.

Lemma relinkContainer_spec (podID : PodID) (name : string)
    (s : clusterState) (pod : PodState) :
  pods s !! podID = Some pod →
  ∃ l s',
    relinkContainer podID name s = Done tt s'
    ∧ frame s s'
    ∧ pods s'
      = <[podID := set_Containers
                     (alter (set_aggregator (AggregatorPtr l)) name) pod]>
          (pods s)
    ∧ aggregateStateMap s' !! MakeAggregateStateKey pod name = Some l
    ∧ (wellFormed s → linkConsistent s → wellFormed s' ∧ linkConsistent s')
    ∧ (wellFormed s → ∀ names,
         linkedExcept podID (name :: names) s → linkedExcept podID names s').
Proof.
  intros Hpod. unfold relinkContainer, bind.
  destruct (findOrCreate_spec (mkContainerID podID name) s pod Hpod)
    as (l & s1 & -> & Hf & Hp1 & Hl & Hinv).
  simpl in Hl. exists l. eexists. split; [done|]. unfold modify.
  set (pod' := set_Containers (alter (set_aggregator (AggregatorPtr l)) name) pod).
  assert (Hpods : pods (set_pods (alter (set_Containers
             (alter (set_aggregator (AggregatorPtr l)) name)) podID) s1)
           = <[podID := pod']> (pods s)).
  { simpl. rewrite Hp1. by apply alter_insert_lookup. }
  assert (Hf' : frame s (set_pods (alter (set_Containers
             (alter (set_aggregator (AggregatorPtr l)) name)) podID) s1)).
  { destruct Hf as (Hfl & Hfp & Hfv & Hfi).
    split; [done|]. split; [|done].
    rewrite Hpods, fmap_insert. unfold pod'. rewrite relinkedPod_meta.
    apply insert_id. by rewrite lookup_fmap, Hpod. }
  split; [done|]. split; [done|]. split; [done|]. split.
  - intros Hwf Hlink. destruct (Hinv Hwf Hlink) as [Hwf1 Hlink1].
    split; [|by apply (linkConsistent_same s1)].
    apply (wellFormed_pods s1); try done.
    intros id p. rewrite Hpods, lookup_insert.
    destruct Hwf1 as (Hpod1 & _). rewrite Hp1 in Hpod1.
    case_decide as Hid; [|by apply Hpod1].
    subst id. intros [= <-].
    destruct (Hpod1 _ _ Hpod) as (Hid & Hk & Hpx).
    split; [done|]. split; [done|].
    intros cname c cid. simpl. rewrite lookup_alter.
    case_decide; [|by apply Hpx].
    subst cname. destruct (Containers pod !! name); [|done].
    by intros [= <-].
  - intros Hwf names Hle id p cname c. rewrite Hpods, lookup_insert.
    destruct Hwf as (Hpod0 & _).
    case_decide as Hid.
    + subst id. intros [= <-]. simpl. rewrite lookup_alter.
      destruct (Hpod0 _ _ Hpod) as (Hid & _).
      case_decide as Hn.
      * subst cname. destruct (Containers pod !! name) as [c0|]; [|done].
        intros [= <-] _. exists l. simpl. split; [|done].
        rewrite <- Hl. unfold MakeAggregateStateKey. by rewrite Hid.
      * intros Hc Hnot.
        destruct (Hle podID pod cname c Hpod Hc) as (l0 & Hl0 & Hr0).
        { intros _. rewrite not_elem_of_cons. split; [done|]. by apply Hnot. }
        exists l0. split; [|by eapply referredAggregation_frame].
        destruct Hf' as (_ & _ & _ & Hsub). by eapply lookup_weaken.
    + intros Hp Hc Hnot.
      destruct (Hle id p cname c Hp Hc) as (l0 & Hl0 & Hr0); [done|].
      exists l0. split; [|by eapply referredAggregation_frame].
      destruct Hf' as (_ & _ & _ & Hsub). by eapply lookup_weaken.
Qed.

Lemma relinkLoop_spec (podID : PodID) (names : list string) :
  ∀ (s : clusterState) (pod : PodState),
    pods s !! podID = Some pod →
    ∃ s' pod',
      forM_ (relinkContainer podID) names s = Done tt s'
      ∧ frame s s'
      ∧ pods s' !! podID = Some pod'
      ∧ podMeta pod' = podMeta pod
      ∧ (∀ id, id ≠ podID → pods s' !! id = pods s !! id)
      ∧ (∀ name, name ∈ dom (Containers pod) →
           name ∈ names ∨ pointsToEntry s pod name →
           pointsToEntry s' pod' name)
      ∧ (wellFormed s → linkConsistent s → wellFormed s' ∧ linkConsistent s')
      ∧ (wellFormed s → linkConsistent s →
         linkedExcept podID names s → linkedExcept podID [] s').
Proof.
  induction names as [|name names IH]; intros s pod Hpod.
  { exists s, pod. split; [done|]. split; [apply frame_refl|].
    split; [done|]. split; [done|]. split; [done|].
    split; [|by eauto].
    intros name _ [Hn|Hn]; [|done]. by apply elem_of_nil in Hn. }
  destruct (relinkContainer_spec podID name s pod Hpod)
    as (l & s1 & Hrun & Hf1 & Hp1 & Hl1 & Hinv1 & Hle1).
  set (pod1 := set_Containers
                 (alter (set_aggregator (AggregatorPtr l)) name) pod) in *.
  assert (Hpod1 : pods s1 !! podID = Some pod1).
  { by rewrite Hp1, lookup_insert_eq. }
  destruct (IH s1 pod1 Hpod1)
    as (s' & pod' & Hrun' & Hf' & Hp' & Hm' & Hoth & Hpt & Hinv' & Hle').
  exists s', pod'. split.
  { simpl. unfold bind. by rewrite Hrun. }
  split; [by eapply frame_trans|]. split; [done|].
  assert (Hm1 : podMeta pod1 = podMeta pod) by apply relinkedPod_meta.
  split; [congruence|]. split.
  { intros id Hid. rewrite (Hoth _ Hid), Hp1. by apply lookup_insert_ne. }
  split; [|split].
  - intros cname Hdom Hcase. apply Hpt.
    { by rewrite (podMeta_dom _ _ Hm1). }
    rewrite elem_of_cons in Hcase.
    destruct (decide (cname = name)) as [->|Hne].
    + right. apply elem_of_dom in Hdom as [c Hc].
      exists (set_aggregator (AggregatorPtr l) c), l.
      unfold pod1. simpl. rewrite lookup_alter_eq, Hc.
      split; [done|]. split; [done|].
      by rewrite (podMeta_MakeAggregateStateKey _ _ _ Hm1).
    + destruct Hcase as [[?|?]|(c & l0 & Hc & Ha & Hi)]; [done|by left|].
      right. exists c, l0. unfold pod1. simpl.
      rewrite lookup_alter_ne by done. split; [done|]. split; [done|].
      rewrite (podMeta_MakeAggregateStateKey _ _ _ Hm1).
      destruct Hf1 as (_ & _ & _ & Hsub). by eapply lookup_weaken.
  - intros Hwf Hlink. destruct (Hinv1 Hwf Hlink). by apply Hinv'.
  - intros Hwf Hlink Hle. destruct (Hinv1 Hwf Hlink). apply Hle'; try done.
    by apply Hle1.
Qed.

End Relink.

(** ** The references of the containers, and [AddOrUpdatePod] unfolded *)

Section Linked.
Context `{LA : LabelsAPI} `{AA : AggregationAPI} `{MI : MapIteration}.

Lemma linkedExcept_nil (podID : PodID) (s : clusterState) :
  linkedExcept podID [] s ↔ containersLinked s.
Proof.
  unfold linkedExcept, containersLinked. split; intros Hl id pod name c Hp Hc.
  - apply (Hl id pod name c Hp Hc). intros _. apply not_elem_of_nil.
  - intros _. by apply (Hl id pod name c Hp Hc).
Qed.

(** Under [wellFormed], a container is linked when the index has an entry
    for its key and a pointer of the container points to that entry. *)
Lemma linked_alt (s : clusterState) podID (pod : PodState) name
    (c : ContainerState) :
  wellFormed s → pods s !! podID = Some pod →
  Containers pod !! name = Some c →
  (∃ l, aggregateStateMap s
          !! mkKey (PodID_Namespace podID) name (pod_labelSetKey pod) = Some l
        ∧ referredAggregation s (aggregator c) = Some l)
  ↔ (∃ l, aggregateStateMap s
            !! mkKey (PodID_Namespace podID) name (pod_labelSetKey pod) = Some l
          ∧ ∀ l', aggregator c = AggregatorPtr l' → l' = l).
Proof.
  intros (Hpod & _) Hp Hc. destruct (Hpod _ _ Hp) as (Hid & _ & Hpx).
  split; intros (l & Hl & Hr); exists l; (split; [done|]).
  - intros l' Ha. rewrite Ha in Hr. simpl in Hr. congruence.
  - destruct (aggregator c) as [cid|l'] eqn:Ha.
    + rewrite (Hpx _ _ _ Hc Ha). simpl. rewrite Hp. simpl.
      unfold MakeAggregateStateKey. by rewrite Hid.
    + simpl. f_equal. by apply Hr.
Qed.

Lemma containersLinked_update (s s' : clusterState) :
  wellFormed s → wellFormed s' →
  aggregateStateMap s ⊆ aggregateStateMap s' →
  containersLinked s →
  (∀ id pod' name c',
     pods s' !! id = Some pod' → Containers pod' !! name = Some c' →
     (∃ pod c, pods s !! id = Some pod
               ∧ pod_labelSetKey pod = pod_labelSetKey pod'
               ∧ Containers pod !! name = Some c
               ∧ aggregator c' = aggregator c)
     ∨ (∃ cid, aggregator c' = ContainerStateAggregatorProxy cid
               ∧ is_Some (aggregateStateMap s'
                            !! mkKey (PodID_Namespace id) name
                                 (pod_labelSetKey pod')))) →
  containersLinked s'.
Proof.
  intros Hwf Hwf' Hsub Hl Hupd id pod' name c' Hp' Hc'.
  apply (linked_alt s' id pod' name c' Hwf' Hp' Hc').
  destruct (Hupd _ _ _ _ Hp' Hc') as
    [(pod & c & Hp & Hk & Hc & Ha)|(cid & Ha & [l Hl'])].
  - destruct (proj1 (linked_alt s id pod name c Hwf Hp Hc) (Hl _ _ _ _ Hp Hc))
      as (l & Hl0 & Hptr).
    exists l. rewrite <- Hk, Ha. split; [|done]. by eapply lookup_weaken.
  - exists l. split; [done|]. intros l'. by rewrite Ha.
Qed.

End Linked.

Section AddOrUpdatePod.
Context `{LA : LabelsAPI} `{AA : AggregationAPI} `{MI : MapIteration}.

Lemma containerNames_elem_of (pod : PodState) (name : string) :
  name ∈ rangeOrder ((map_to_list (Containers pod)).*1)
  ↔ name ∈ dom (Containers pod).
Proof.
  rewrite rangeOrder_perm, elem_of_dom. rewrite list_elem_of_fmap. split.
  - intros ([n c] & -> & Hin). apply elem_of_map_to_list in Hin. eauto.
  - intros [c Hc]. exists (name, c). split; [done|].
    by apply elem_of_map_to_list.
Qed.

(** A pod that is not registered yet. *)
Lemma AddOrUpdatePod_new (podID : PodID) (newLabels : LabelSet)
    (phase : string) (s : clusterState) :
  pods s !! podID = None →
  let k := Set_String newLabels in
  let s1 := set_labelSetMap <[k := newLabels]> s in
  let pod := set_pod_labelSetKey k (newPod podID) in
  AddOrUpdatePod podID newLabels phase s
  = Done tt
      (set_pods <[podID := set_Phase phase pod]>
         (set_vpas (fmap (λ vpa, if podMatchesVpa (labelSetMap s1) pod vpa
                                 then set_PodCount (λ n, n + 1) vpa else vpa))
            s1)).
Proof.
  intros Hp. simpl. unfold AddOrUpdatePod, bind, modify, getLabelSetKey, ret.
  rewrite Hp. simpl.
  rewrite map_to_list_empty. simpl. rewrite rangeOrder_nil. simpl.
  unfold addPodToItsVpa, modify, ret. simpl. f_equal.
  unfold set_pods, set_vpas, set_labelSetMap. simpl. f_equal.
  by rewrite !alter_insert_eq.
Qed.

(** A registered pod whose label set key does not change. *)
Lemma AddOrUpdatePod_same (podID : PodID) (newLabels : LabelSet)
    (phase : string) (s : clusterState) (pod : PodState) :
  pods s !! podID = Some pod →
  pod_labelSetKey pod = Set_String newLabels →
  AddOrUpdatePod podID newLabels phase s
  = Done tt
      (set_pods (alter (set_Phase phase) podID)
         (set_labelSetMap <[Set_String newLabels := newLabels]> s)).
Proof.
  intros Hp Hk. unfold AddOrUpdatePod, bind, modify, getLabelSetKey, ret.
  rewrite Hp. simpl.
  rewrite bool_decide_eq_true_2 by done. by simpl.
Qed.

(** A registered pod whose label set key changes. *)
Lemma AddOrUpdatePod_changed (podID : PodID) (newLabels : LabelSet)
    (phase : string) (s : clusterState) (pod : PodState) :
  pods s !! podID = Some pod →
  pod_labelSetKey pod ≠ Set_String newLabels →
  let k := Set_String newLabels in
  let s1 := set_labelSetMap <[k := newLabels]> s in
  let s2 :=
    set_vpas (fmap (λ vpa, if podMatchesVpa (labelSetMap s1) pod vpa
                           then set_PodCount (λ n, n - 1) vpa else vpa)) s1 in
  let s3 := set_pods (alter (set_pod_labelSetKey k) podID) s2 in
  AddOrUpdatePod podID newLabels phase s
  = ((forM_ (relinkContainer podID)
        (rangeOrder (map_to_list (Containers pod)).*1) ;;;
      addPodToItsVpa (set_pod_labelSetKey k pod)) ;;;
     modify (set_pods (alter (set_Phase phase) podID))) s3.
Proof.
  intros Hp Hk. simpl. unfold AddOrUpdatePod.
  unfold bind at 1. unfold modify at 1. rewrite Hp. simpl.
  unfold bind at 1. unfold getLabelSetKey at 1.
  rewrite bool_decide_eq_false_2 by done. simpl.
  unfold bind at 1. unfold removePodFromItsVpa at 1, modify at 1.
  unfold bind at 1. unfold bind at 1. unfold modify at 1. done.
Qed.

End AddOrUpdatePod.

(** ** [AddOrUpdatePod]: new pods and unchanged labels *)

Section AddOrUpdatePodInv.
Context `{LA : LabelsAPI} `{AA : AggregationAPI} `{MI : MapIteration}.

Lemma set_pods_ext (f g : gmap PodID PodState → gmap PodID PodState)
    (s : clusterState) :
  f (pods s) = g (pods s) → set_pods f s = set_pods g s.
Proof. unfold set_pods. by intros ->. Qed.

Lemma setPhase_spec (podID : PodID) (phase : string) (s : clusterState) :
  let s' := set_pods (alter (set_Phase phase) podID) s in
  (wellFormed s → wellFormed s')
  ∧ (linkConsistent s → linkConsistent s')
  ∧ (∀ d, podCountOff d s → podCountOff d s')
  ∧ (wellFormed s → containersLinked s → containersLinked s').
Proof.
  intros s'.
  assert (Hwf : wellFormed s → wellFormed s').
  { intros Hwf. apply (wellFormed_pods s); try done. intros id p'. simpl.
    rewrite lookup_alter_Some. intros [(-> & p & Hp & ->)|[_ Hp]].
    - destruct Hwf as (Hpod & _). by destruct (Hpod _ _ Hp) as (? & ? & ?).
    - destruct Hwf as (Hpod & _). by apply Hpod. }
  split; [done|]. split; [by apply linkConsistent_same|]. split.
  - intros d Hc vpaID v Hv. simpl in Hv. rewrite (Hc _ _ Hv).
    f_equal. f_equal. symmetry. apply matchingPodCount_same; try done.
    simpl. apply map_eq. intros i. rewrite !lookup_fmap, lookup_alter.
    case_decide; [|done]. subst. by destruct (pods s !! i).
  - intros Hwf0 Hl. apply (containersLinked_update s s'); try done.
    { by apply Hwf. }
    intros id p' name c'. simpl.
    rewrite lookup_alter_Some. intros [(-> & p & Hp & ->)|[_ Hp]] Hc;
      left; eauto 10.
Qed.

Lemma AddOrUpdatePod_new_invariant (podID : PodID) (newLabels : LabelSet)
    (phase : string) (s : clusterState) :
  pods s !! podID = None →
  let k := Set_String newLabels in
  let s1 := set_labelSetMap <[k := newLabels]> s in
  let pod := set_pod_labelSetKey k (newPod podID) in
  let s' :=
    set_pods <[podID := set_Phase phase pod]>
      (set_vpas (fmap (λ vpa, if podMatchesVpa (labelSetMap s1) pod vpa
                              then set_PodCount (λ n, n + 1) vpa else vpa))
         s1) in
  clusterInvariant s →
  clusterInvariant s' ∧ (containersLinked s → containersLinked s').
Proof.
  intros Hp k s1 pod s' (Hwf & Hlink & Hcount).
  set (s2 := set_vpas (fmap (λ vpa, if podMatchesVpa (labelSetMap s1) pod vpa
                              then set_PodCount (λ n, n + 1) vpa else vpa)) s1).
  assert (Hwf1 : wellFormed s1) by by apply intern_wellFormed.
  assert (Hwf2 : wellFormed s2) by by apply adjust_wellFormed.
  assert (Hwf' : wellFormed s').
  { apply (wellFormed_pods s2); try done. intros id p. simpl.
    rewrite lookup_insert. case_decide as Hid.
    - subst id. intros [= <-]. split; [done|]. split.
      + simpl. rewrite lookup_insert_eq. eauto.
      + intros name c cid. simpl. by rewrite lookup_empty.
    - intros Hq. destruct Hwf2 as (Hpod2 & _). by apply Hpod2. }
  split; [split; [done|split]|].
  - apply (linkConsistent_same s2); try done.
    apply adjust_linkConsistent. by apply intern_linkConsistent.
  - apply podCountOff_zero.
    assert (Hc1 : podCountOff (λ _, 0) s1).
    { apply intern_podCountOff; [done|]. by apply podCountOff_zero. }
    assert (Hc2 := adjust_podCountOff (λ _, 0) s1 pod (λ n, n + 1) 1
                     ltac:(done) ltac:(done) Hc1).
    fold s2 in Hc2.
    assert (Hc3 := insert_podCountOff _ s2 podID (set_Phase phase pod) Hp Hc2).
    revert Hc3. apply podCountOff_ext. intros v.
    rewrite (podMatchesVpa_decide s2). simpl.
    rewrite (bool_decide_ext (podMatches s2 v podID pod)
               (podMatches s2 v podID (set_Phase phase pod))) by done.
    lia.
  - intros Hl. apply (containersLinked_update s s'); try done.
    intros id p name c. simpl. rewrite lookup_insert. case_decide as Hid.
    + intros [= <-]. simpl. by rewrite lookup_empty.
    + intros Hq Hc. left. eauto 10.
Qed.

Lemma AddOrUpdatePod_same_invariant (podID : PodID) (newLabels : LabelSet)
    (phase : string) (s : clusterState) :
  let s' :=
    set_pods (alter (set_Phase phase) podID)
      (set_labelSetMap <[Set_String newLabels := newLabels]> s) in
  clusterInvariant s →
  clusterInvariant s' ∧ (containersLinked s → containersLinked s').
Proof.
  intros s' (Hwf & Hlink & Hcount).
  set (s1 := set_labelSetMap <[Set_String newLabels := newLabels]> s).
  destruct (setPhase_spec podID phase s1) as (H1 & H2 & H3 & H4).
  assert (Hwf1 : wellFormed s1) by by apply intern_wellFormed.
  split; [split; [by apply H1|split]|].
  - apply H2. by apply intern_linkConsistent.
  - apply podCountOff_zero, H3, intern_podCountOff; [done|].
    by apply podCountOff_zero.
  - intros Hl. apply H4; [done|].
    apply (containersLinked_update s s1); try done.
    intros id p name c Hp Hc. left. eauto 10.
Qed.

End AddOrUpdatePodInv.

(** ** [AddOrUpdatePod]: changed labels *)

Section AddOrUpdatePodChanged.
Context `{LA : LabelsAPI} `{AA : AggregationAPI} `{MI : MapIteration}.

Lemma containersLinked_vpas (s : clusterState)
    (f : gmap VpaID Vpa → gmap VpaID Vpa) :
  wellFormed s → wellFormed (set_vpas f s) →
  containersLinked s → containersLinked (set_vpas f s).
Proof.
  intros Hwf Hwf' Hl. apply (containersLinked_update s); try done.
  intros id p name c Hp Hc. left. eauto 10.
Qed.

Lemma AddOrUpdatePod_changed_spec (podID : PodID) (newLabels : LabelSet)
    (phase : string) (s : clusterState) (pod : PodState) :
  pods s !! podID = Some pod →
  pod_labelSetKey pod ≠ Set_String newLabels →
  ∃ s' pod',
    AddOrUpdatePod podID newLabels phase s = Done tt s'
    ∧ pods s' !! podID = Some pod'
    ∧ Phase pod' = phase
    ∧ pod_labelSetKey pod' = Set_String newLabels
    ∧ ID pod' = ID pod
    ∧ dom (Containers pod') = dom (Containers pod)
    ∧ (∀ name, name ∈ dom (Containers pod) → pointsToEntry s' pod' name)
    ∧ (clusterInvariant s →
       clusterInvariant s' ∧ (containersLinked s → containersLinked s')).
Proof.
  intros Hp Hk. rewrite (AddOrUpdatePod_changed _ _ _ _ _ Hp Hk).
  set (k := Set_String newLabels).
  set (s1 := set_labelSetMap <[k := newLabels]> s).
  set (s2 := set_vpas (fmap (λ vpa, if podMatchesVpa (labelSetMap s1) pod vpa
                           then set_PodCount (λ n, n - 1) vpa else vpa)) s1).
  set (s3 := set_pods (alter (set_pod_labelSetKey k) podID) s2).
  set (pod3 := set_pod_labelSetKey k pod).
  set (names := rangeOrder (map_to_list (Containers pod)).*1).
  assert (Hs3 : s3 = set_pods <[podID := pod3]> s2).
  { apply set_pods_ext. by apply alter_insert_lookup. }
  assert (Hp3 : pods s3 !! podID = Some pod3).
  { rewrite Hs3. simpl. by rewrite lookup_insert_eq. }
  destruct (relinkLoop_spec podID names s3 pod3 Hp3)
    as (s4 & pod4 & Hrun & Hf & Hp4 & Hm4 & Hoth & Hpt & Hinv & Hle).
  unfold bind at 1. unfold bind at 1. rewrite Hrun.
  unfold addPodToItsVpa, modify.
  set (s5 := set_vpas (fmap (λ vpa,
                if podMatchesVpa (labelSetMap s4) pod3 vpa
                then set_PodCount (λ n, n + 1) vpa else vpa)) s4).
  set (s6 := set_pods (alter (set_Phase phase) podID) s5).
  exists s6, (set_Phase phase pod4).
  split; [done|]. split.
  { simpl. by rewrite lookup_alter_eq, Hp4. }
  split; [done|]. split; [simpl; by rewrite (podMeta_key _ _ Hm4)|].
  split; [simpl; by rewrite (podMeta_ID _ _ Hm4)|].
  split; [simpl; by rewrite (podMeta_dom _ _ Hm4)|].
  split.
  { intros name Hdom.
    destruct (Hpt name Hdom) as (c & l & Hc & Ha & Hi).
    { left. by apply containerNames_elem_of. }
    by exists c, l. }
  intros (Hwf & Hlink & Hcount).
  assert (Hwf1 : wellFormed s1) by by apply intern_wellFormed.
  assert (Hlink1 : linkConsistent s1) by by apply intern_linkConsistent.
  assert (Hwf2 : wellFormed s2) by by apply adjust_wellFormed.
  assert (Hlink2 : linkConsistent s2) by by apply adjust_linkConsistent.
  assert (Hpok : podOK s podID pod) by (destruct Hwf as (Hpod & _); eauto).
  destruct Hpok as (Hid & Hkin & Hpx).
  assert (Hwf3 : wellFormed s3).
  { apply (wellFormed_pods s2); try done. intros id p. simpl.
    rewrite lookup_alter_Some. intros [(-> & p0 & Hp0 & ->)|[_ Hp0]].
    - rewrite Hp in Hp0. injection Hp0 as <-.
      split; [done|]. split; [|done]. simpl. rewrite lookup_insert_eq. eauto.
    - destruct Hwf2 as (Hpod2 & _). by apply Hpod2. }
  assert (Hlink3 : linkConsistent s3) by by apply (linkConsistent_same s2).
  destruct (Hinv Hwf3 Hlink3) as (Hwf4 & Hlink4).
  assert (Hl4 : labelSetMap s4 = labelSetMap s1) by by destruct Hf as (-> & _).
  assert (Hwf5 : wellFormed s5) by by apply adjust_wellFormed.
  assert (Hlink5 : linkConsistent s5) by by apply adjust_linkConsistent.
  destruct (setPhase_spec podID phase s5) as (H1 & H2 & H3 & H4).
  split; [split; [by apply H1|split; [by apply H2|]]|].
  - (* pod counts *)
    apply podCountOff_zero, H3.
    assert (Hc1 : podCountOff (λ _, 0) s1).
    { apply intern_podCountOff; [done|]. by apply podCountOff_zero. }
    assert (Hc2 := adjust_podCountOff (λ _, 0) s1 pod (λ n, n - 1) (-1)
                     ltac:(intros n; cbv beta; lia) ltac:(done) Hc1).
    fold s2 in Hc2.
    assert (Hc3 := replace_podCountOff _ s2 podID pod pod3 Hp Hc2).
    rewrite <- Hs3 in Hc3.
    assert (Hc3' : podCountOff
              (λ v, - indicator (podMatchesVpa (labelSetMap s1) pod3 v)) s3).
    { revert Hc3. apply podCountOff_ext. intros v.
      rewrite (podMatchesVpa_decide s1 v pod), Hid.
      rewrite (podMatchesVpa_decide s1 v pod3). simpl. rewrite Hid.
      change (bool_decide (podMatches s2 v podID pod))
        with (bool_decide (podMatches s1 v podID pod)).
      change (bool_decide (podMatches s2 v podID pod3))
        with (bool_decide (podMatches s1 v podID pod3)).
      lia. }
    assert (Hc4 : podCountOff
              (λ v, - indicator (podMatchesVpa (labelSetMap s1) pod3 v)) s4).
    { revert Hc3'. apply podCountOff_frame; [|done].
      intros v v' Hm. f_equal. f_equal.
      apply podMatchesVpa_target;
        [by apply vpaMeta_ID|by apply vpaMeta_PodSelector]. }
    assert (Hc5 := adjust_podCountOff
                     (λ v, - indicator (podMatchesVpa (labelSetMap s1) pod3 v))
                     s4 pod3 (λ n, n + 1) 1
                     ltac:(done)
                     ltac:(intros v v' Hi Hs; cbv beta;
                           by rewrite (podMatchesVpa_target _ _ _ _ Hi Hs))
                     Hc4).
    fold s5 in Hc5. revert Hc5. apply podCountOff_ext. intros v.
    rewrite Hl4. lia.
  - (* the containers *)
    intros Hl. apply H4; [done|]. apply containersLinked_vpas; [done|done|].
    apply (linkedExcept_nil podID). apply Hle; [done|done|].
    intros id p name c Hq Hc Hex.
    apply (linked_alt s3 id p name c Hwf3 Hq Hc).
    revert Hq. rewrite Hs3. simpl. rewrite lookup_insert.
    case_decide as Hi.
    + subst id. intros [= <-]. exfalso. apply Hex; [done|].
      apply containerNames_elem_of. apply elem_of_dom. eauto.
    + intros Hq.
      by apply (linked_alt s id p name c Hwf Hq Hc), Hl.
Qed.

End AddOrUpdatePodChanged.

(** ** [AddOrUpdatePod], [DeletePod] and [AddOrUpdateContainer] keep the invariant *)

Section PodsAndContainers.
Context `{LA : LabelsAPI} `{AA : AggregationAPI} `{MI : MapIteration}.

(** The invariants read the registries, the label set map and the index
    only. *)
Lemma invariant_same_fields (s s' : clusterState) :
  pods s' = pods s → vpas s' = vpas s → labelSetMap s' = labelSetMap s →
  aggregateStateMap s' = aggregateStateMap s →
  clusterInvariant s →
  clusterInvariant s' ∧ (containersLinked s → containersLinked s').
Proof.
  destruct s, s'. simpl. intros -> -> -> ->.
  intros (Hwf & Hlink & Hcount). split; [|done].
  split; [done|]. split; [done|].
  intros vpaID v Hv. exact (Hcount vpaID v Hv).
Qed.

Lemma AddOrUpdatePod_spec (podID : PodID) (newLabels : LabelSet)
    (phase : string) (s : clusterState) :
  ∃ s' pod',
    AddOrUpdatePod podID newLabels phase s = Done tt s'
    ∧ pods s' !! podID = Some pod'
    ∧ Phase pod' = phase
    ∧ pod_labelSetKey pod' = Set_String newLabels
    ∧ (∀ pod, pods s !! podID = Some pod →
         pod_labelSetKey pod ≠ Set_String newLabels →
         ID pod' = ID pod
         ∧ dom (Containers pod') = dom (Containers pod)
         ∧ ∀ name, name ∈ dom (Containers pod) → pointsToEntry s' pod' name)
    ∧ (clusterInvariant s →
       clusterInvariant s' ∧ (containersLinked s → containersLinked s')).
Proof.
  destruct (pods s !! podID) as [pod|] eqn:Hp.
  - destruct (decide (pod_labelSetKey pod = Set_String newLabels)) as [Hk|Hk].
    + rewrite (AddOrUpdatePod_same _ _ _ _ _ Hp Hk).
      eexists _, (set_Phase phase pod). split; [done|]. split.
      { simpl. by rewrite lookup_alter_eq, Hp. }
      split; [done|]. split; [done|]. split; [by intros ? [= <-]|].
      apply AddOrUpdatePod_same_invariant.
    + destruct (AddOrUpdatePod_changed_spec _ _ phase _ _ Hp Hk)
        as (s' & pod' & Hrun & Hp' & Hph & Hk' & Hid & Hdom & Hpt & Hinv).
      exists s', pod'. split; [done|]. split; [done|]. split; [done|].
      split; [done|]. split; [|done]. by intros ? [= <-].
  - rewrite (AddOrUpdatePod_new _ _ _ _ Hp).
    eexists _, _. split; [done|]. split.
    { simpl. by rewrite lookup_insert_eq. }
    split; [done|]. split; [done|]. split; [done|].
    by apply AddOrUpdatePod_new_invariant.
Qed.

Lemma DeletePod_spec (podID : PodID) (s : clusterState) :
  ∃ s', DeletePod podID s = Done tt s'
    ∧ pods s' = delete podID (pods s)
    ∧ (clusterInvariant s →
       clusterInvariant s' ∧ (containersLinked s → containersLinked s')).
Proof.
  unfold DeletePod, bind, modify, ret, removePodFromItsVpa.
  destruct (pods s !! podID) as [pod|] eqn:Hp.
  - eexists. split; [done|]. split; [done|].
    intros (Hwf & Hlink & Hcount).
    set (s1 := set_vpas (fmap (λ vpa,
                 if podMatchesVpa (labelSetMap s) pod vpa
                 then set_PodCount (λ n, n - 1) vpa else vpa)) s).
    assert (Hwf1 : wellFormed s1) by by apply adjust_wellFormed.
    assert (Hwf' : wellFormed (set_pods (delete podID) s1)).
    { apply (wellFormed_pods s1); try done. intros id p. simpl.
      rewrite lookup_delete_Some. intros [_ Hq].
      destruct Hwf1 as (Hpod1 & _). by apply Hpod1. }
    split; [split; [done|split]|].
    + apply (linkConsistent_same s1); try done.
      by apply adjust_linkConsistent.
    + apply podCountOff_zero.
      assert (Hc1 := adjust_podCountOff (λ _, 0) s pod (λ n, n - 1) (-1)
                       ltac:(intros n; cbv beta; lia) ltac:(done)
                       (proj2 (podCountOff_zero s) Hcount)).
      fold s1 in Hc1.
      assert (Hc2 := delete_podCountOff _ s1 podID pod Hp Hc1).
      revert Hc2. apply podCountOff_ext. intros v.
      rewrite (podMatchesVpa_decide s v pod).
      destruct Hwf as (Hpod & _). destruct (Hpod _ _ Hp) as (-> & _).
      change (bool_decide (podMatches s1 v podID pod))
        with (bool_decide (podMatches s v podID pod)).
      lia.
    + intros Hl. apply (containersLinked_update s); try done.
      intros id p name c. simpl. rewrite lookup_delete_Some.
      intros [_ Hq] Hc. left. eauto 10.
  - eexists. split; [done|]. split; [done|].
    apply invariant_same_fields; try done. simpl. by apply delete_id.
Qed.

Lemma AddOrUpdateContainer_spec (containerID : ContainerID)
    (request : gmap string Z) (s : clusterState) :
  ∃ err s', AddOrUpdateContainer containerID request s = Done err s'
    ∧ (clusterInvariant s →
       clusterInvariant s' ∧ (containersLinked s → containersLinked s')).
Proof.
  unfold AddOrUpdateContainer.
  destruct (pods s !! CID_PodID containerID) as [pod|] eqn:Hp;
    [|by eauto 10].
  destruct (Containers pod !! ContainerName containerID) as [c|] eqn:Hc.
  - eexists _, _. split; [done|]. intros (Hwf & Hlink & Hcount).
    set (s' := set_pods _ s).
    assert (Hwf' : wellFormed s').
    { apply (wellFormed_pods s); try done. intros id p. simpl.
      destruct Hwf as (Hpod & _).
      rewrite lookup_alter_Some. intros [(<- & p0 & Hp0 & ->)|[_ Hp0]];
        [|by apply Hpod].
      destruct (Hpod _ _ Hp0) as (Hid & Hk & Hpx).
      split; [done|]. split; [done|]. intros name c' cid. simpl.
      rewrite lookup_alter_Some.
      intros [(<- & c0 & Hc0 & ->)|[_ Hc0]]; simpl; by eapply Hpx. }
    split; [split; [done|split]|].
    + by apply (linkConsistent_same s).
    + intros vpaID v Hv. simpl in Hv. rewrite (Hcount _ _ Hv).
      f_equal. symmetry. apply matchingPodCount_same; try done.
      simpl. apply map_eq. intros i. rewrite !lookup_fmap, lookup_alter.
      case_decide; [|done]. subst. by destruct (pods s !! _).
    + intros Hl. apply (containersLinked_update s); try done.
      intros id p name c'. simpl.
      rewrite lookup_alter_Some. intros [(<- & p0 & Hp0 & ->)|[_ Hp0]];
        [|by left; eauto 10].
      simpl. rewrite lookup_alter_Some.
      intros [(<- & c0 & Hc0 & ->)|[_ Hc0]]; left; eauto 10.
  - destruct (findOrCreate_spec containerID s pod Hp)
      as (l & s1 & Hrun & Hf & Hp1 & Hl1 & Hinv).
    unfold bind, modify, ret. rewrite Hrun.
    eexists _, _. split; [done|]. intros (Hwf & Hlink & Hcount).
    destruct (Hinv Hwf Hlink) as (Hwf1 & Hlink1).
    set (s' := set_pods _ s1).
    assert (Hpod0 : podOK s (CID_PodID containerID) pod)
      by (destruct Hwf as (Hpod & _); eauto).
    destruct Hpod0 as (Hid & Hk & Hpx).
    assert (Hwf' : wellFormed s').
    { apply (wellFormed_pods s1); try done. intros id p. simpl. rewrite Hp1.
      destruct Hwf1 as (Hpod1 & _). rewrite Hp1 in Hpod1.
      rewrite lookup_alter_Some. intros [(<- & p0 & Hp0 & ->)|[_ Hp0]];
        [|by apply Hpod1].
      destruct (Hpod1 _ _ Hp0) as (Hid1 & Hk1 & Hpx1).
      split; [done|]. split; [done|]. intros name c' cid. simpl.
      rewrite lookup_insert. case_decide as Hn; [|by apply Hpx1].
      subst name. intros [= <-]. simpl. intros [= <-].
      by destruct containerID. }
    split; [split; [done|split]|].
    + by apply (linkConsistent_same s1).
    + apply podCountOff_zero.
      assert (Hc1 : podCountOff (λ _, 0) s1).
      { apply (podCountOff_frame _ s); [done|done|].
        by apply podCountOff_zero. }
      intros vpaID v Hv. simpl in Hv. rewrite (Hc1 _ _ Hv).
      f_equal. f_equal. symmetry.
      apply matchingPodCount_same; try done.
      simpl. apply map_eq. intros i. rewrite !lookup_fmap, lookup_alter.
      case_decide; [|done]. subst. by destruct (pods s1 !! _).
    + intros Hl. apply (containersLinked_update s); try done.
      { apply Hf. }
      intros id p name c'. simpl. rewrite Hp1.
      rewrite lookup_alter_Some. intros [(<- & p0 & Hp0 & ->)|[_ Hp0]];
        [|by left; eauto 10].
      simpl. rewrite lookup_insert. case_decide as Hn.
      * subst name. intros [= <-]. right. eexists. split; [done|].
        rewrite Hp in Hp0. injection Hp0 as <-.
        exists l. rewrite <- Hl1. unfold MakeAggregateStateKey.
        by rewrite Hid.
      * intros Hc'. left. eauto 10.
Qed.

End PodsAndContainers.

(** ** Samples, OOM events, recommendations and [DeleteVpa] keep the invariant *)

Section Samples.
Context `{LA : LabelsAPI} `{AA : AggregationAPI} `{MI : MapIteration}.

Lemma frame_invariant (s s1 : clusterState) :
  frame s s1 → pods s1 = pods s →
  wellFormed s1 → linkConsistent s1 →
  clusterInvariant s →
  clusterInvariant s1 ∧ (containersLinked s → containersLinked s1).
Proof.
  intros Hf Hp Hwf1 Hlink1 (Hwf & Hlink & Hcount).
  split; [split; [done|split; [done|]]|].
  - apply podCountOff_zero. apply (podCountOff_frame _ s); [done|done|].
    by apply podCountOff_zero.
  - intros Hl. apply (containersLinked_update s); try done.
    { apply Hf. }
    intros id p name c. rewrite Hp. intros Hq Hc. left. eauto 10.
Qed.

Lemma aggregatorLoc_spec (s : clusterState) podID (pod : PodState) name
    (c : ContainerState) :
  wellFormed s → linkConsistent s →
  pods s !! podID = Some pod → Containers pod !! name = Some c →
  ∃ l s1,
    aggregatorLoc (aggregator c) s = Done l s1
    ∧ frame s s1 ∧ pods s1 = pods s
    ∧ wellFormed s1 ∧ linkConsistent s1.
Proof.
  intros Hwf Hlink Hp Hc. unfold aggregatorLoc.
  destruct (aggregator c) as [cid|l] eqn:Ha.
  - destruct Hwf as (Hpod & Hrest). destruct (Hpod _ _ Hp) as (_ & _ & Hpx).
    rewrite (Hpx _ _ _ Hc Ha).
    destruct (findOrCreate_spec (mkContainerID podID name) s pod Hp)
      as (l & s1 & Hrun & Hf & Hp1 & _ & Hinv).
    exists l, s1. destruct (Hinv (conj Hpod Hrest) Hlink). done.
  - exists l, s. eauto using frame_refl.
Qed.

(** The state after the sample or the OOM event was forwarded. *)
Lemma forwarded_invariant (s : clusterState) podID (pod : PodState) name
    (c : ContainerState) (a' : AggregateContainerState) :
  clusterInvariant s →
  pods s !! podID = Some pod → Containers pod !! name = Some c →
  ∃ l s1,
    aggregatorLoc (aggregator c) s = Done l s1
    ∧ clusterInvariant (store l a' s1)
    ∧ (containersLinked s → containersLinked (store l a' s1)).
Proof.
  intros Hinv Hp Hc. destruct (Hinv) as (Hwf & Hlink & _).
  destruct (aggregatorLoc_spec s podID pod name c Hwf Hlink Hp Hc)
    as (l & s1 & Hrun & Hf & Hp1 & Hwf1 & Hlink1).
  exists l, s1. split; [done|].
  destruct (frame_invariant s s1 Hf Hp1 Hwf1 Hlink1 Hinv) as (Hinv1 & Hl1).
  pose proof (invariant_same_fields s1 (store l a' s1)
                eq_refl eq_refl eq_refl eq_refl Hinv1) as (Hinv2 & Hl2).
  split; [done|]. intros Hl. by apply Hl2, Hl1.
Qed.

Lemma AddSample_invariant (sample : ContainerUsageSampleWithKey)
    (s : clusterState) :
  clusterInvariant s →
  ∃ err s', AddSample sample s = Done err s'
    ∧ clusterInvariant s' ∧ (containersLinked s → containersLinked s').
Proof.
  intros Hinv. unfold AddSample.
  destruct (pods s !! CID_PodID (Container sample)) as [pod|] eqn:Hp;
    [|by eauto 10].
  destruct (Containers pod !! ContainerName (Container sample))
    as [c|] eqn:Hc; [|by eauto 10].
  unfold bind at 1. unfold ContainerState_AddSample.
  destruct (acceptSample _ _) as [a'|]; [|by eexists _, _].
  destruct (forwarded_invariant s _ pod _ c a' Hinv Hp Hc)
    as (l & s1 & Hrun & Hinv' & Hl').
  unfold bind, modify, ret. rewrite Hrun. simpl. by eexists _, _.
Qed.

Lemma RecordOOM_invariant (containerID : ContainerID) (timestamp : Z)
    (requestedMemory : Z) (s : clusterState) :
  clusterInvariant s →
  ∃ err s', RecordOOM containerID timestamp requestedMemory s = Done err s'
    ∧ clusterInvariant s' ∧ (containersLinked s → containersLinked s').
Proof.
  intros Hinv. unfold RecordOOM.
  destruct (pods s !! CID_PodID containerID) as [pod|] eqn:Hp;
    [|by eauto 10].
  destruct (Containers pod !! ContainerName containerID)
    as [c|] eqn:Hc; [|by eauto 10].
  unfold bind at 1. unfold ContainerState_RecordOOM.
  destruct (acceptOOM _ _ _) as [reason|a']; [by eexists _, _|].
  destruct (forwarded_invariant s _ pod _ c a' Hinv Hp Hc)
    as (l & s1 & Hrun & Hinv' & Hl').
  unfold bind, modify, ret. rewrite Hrun. simpl. by eexists _, _.
Qed.

Lemma RecordRecommendation_invariant (vpa : Vpa) (now : Z)
    (s : clusterState) :
  clusterInvariant s →
  ∃ err s', RecordRecommendation vpa now s = Done err s'
    ∧ clusterInvariant s' ∧ (containersLinked s → containersLinked s').
Proof.
  intros Hinv. unfold RecordRecommendation.
  destruct (hasRecommendation vpa).
  { eexists _, _. split; [done|]. by apply invariant_same_fields. }
  destruct (emptyVPAs s !! vpa_ID vpa).
  - destruct (Time_Before _ _); eexists _, _; (split; [done|]);
      [by apply invariant_same_fields|done].
  - eexists _, _. split; [done|]. by apply invariant_same_fields.
Qed.

End Samples.

Section Vpas.
Context `{LA : LabelsAPI} `{AA : AggregationAPI} `{MI : MapIteration}.

Lemma DeleteVpa_invariant (vpaID : VpaID) (s : clusterState) :
  clusterInvariant s →
  ∃ err s', DeleteVpa vpaID s = Done err s'
    ∧ vpas s' = delete vpaID (vpas s)
    ∧ pods s' = pods s
    ∧ labelSetMap s' = labelSetMap s
    ∧ aggregateStateMap s' = aggregateStateMap s
    ∧ clusterInvariant s' ∧ (containersLinked s → containersLinked s').
Proof.
  intros (Hwf & Hlink & Hcount). unfold DeleteVpa.
  destruct (vpas s !! vpaID) as [vpa|] eqn:Hv.
  - eexists _, _. split; [done|]. set (s' := set_emptyVPAs _ _).
    split; [done|]. split; [done|]. split; [done|]. split; [done|].
    assert (Hsub : ∀ id v', vpas s' !! id = Some v' →
              ∃ v, vpas s !! id = Some v ∧ vpa_ID v' = vpa_ID v
                   ∧ PodSelector v' = PodSelector v
                   ∧ aggregateContainerStates v' = aggregateContainerStates v).
    { intros id v'. simpl. rewrite lookup_delete_Some. intros [_ Hv'].
      by exists v'. }
    assert (Hwf' : wellFormed s') by by apply (wellFormed_vpas s).
    split; [split; [done|split]|].
    + by apply (linkConsistent_vpas s).
    + intros id v'. simpl. rewrite lookup_delete_Some. intros [_ Hv'].
      by rewrite (Hcount _ _ Hv').
    + intros Hl. apply (containersLinked_update s); try done.
      intros id p name c Hp Hc. left. eauto 10.
  - eexists _, _. split; [done|]. split; [by rewrite delete_id|].
    done.
Qed.

End Vpas.

(** ** [AddOrUpdateVpa] *)

Section CreateVpa.
Context `{LA : LabelsAPI} `{AA : AggregationAPI} `{MI : MapIteration}.

Lemma length_filter_map_to_list {A} (P : PodID * A → Prop)
    `{!∀ x, Decision (P x)} (m : gmap PodID A) :
  length (filter P (map_to_list m)) = size (filter P m).
Proof.
  induction m as [|i x m Hi IH] using map_ind.
  { by rewrite map_to_list_empty, map_filter_empty, map_size_empty. }
  rewrite map_to_list_insert by done.
  rewrite size_filter_insert, delete_id by done.
  rewrite filter_cons. destruct (decide (P (i, x))); simpl; by rewrite IH.
Qed.

Lemma GetMatchingPods_length (vpa : Vpa) (s : clusterState) :
  length (GetMatchingPods vpa s)
  = matchingPods s (vpa_ID vpa) (PodSelector vpa).
Proof.
  unfold GetMatchingPods, matchingPods.
  rewrite length_fmap, rangeOrder_perm, length_filter_map_to_list.
  f_equal. apply map_filter_ext. intros i x _. simpl.
  unfold PodLabelsMatchVPA.
  by rewrite andb_true_iff, bool_decide_eq_true.
Qed.

Lemma matchingPods_count (s : clusterState) (vpa : Vpa) :
  matchingPods s (vpa_ID vpa) (PodSelector vpa) = matchingPodCount s vpa.
Proof. done. Qed.

Lemma UseAggregationIfMatching_fields m key l (vpa : Vpa) :
  UseAggregationIfMatching m key l vpa
  = set_aggregateContainerStates
      (λ _, aggregateContainerStates (UseAggregationIfMatching m key l vpa))
      vpa.
Proof.
  unfold UseAggregationIfMatching.
  destruct (UsesAggregation vpa key); [by destruct vpa|].
  destruct (matchesAggregation m vpa key); by destruct vpa.
Qed.

Lemma matchesAggregation_target m (v v' : Vpa) key :
  vpaMeta v' = vpaMeta v →
  matchesAggregation m v' key = matchesAggregation m v key.
Proof.
  intros Hm. unfold matchesAggregation.
  by rewrite (vpaMeta_ID _ _ Hm), (vpaMeta_PodSelector _ _ Hm).
Qed.

Lemma foldl_Use_spec m (l : list (AggregateStateKey * positive)) :
  NoDup l.*1 → ∀ v : Vpa,
  let X := foldl (λ vpa e, UseAggregationIfMatching m e.1 e.2 vpa) v l in
  X = set_aggregateContainerStates (λ _, aggregateContainerStates X) v
  ∧ ∀ key l0,
      aggregateContainerStates X !! key = Some l0
      ↔ aggregateContainerStates v !! key = Some l0
        ∨ (aggregateContainerStates v !! key = None
           ∧ (key, l0) ∈ l ∧ matchesAggregation m v key = true).
Proof.
  induction l as [|[k l1] l IH]; intros Hnd v; simpl.
  { split; [by destruct v|]. intros key l0. rewrite elem_of_nil. tauto. }
  simpl in Hnd. apply NoDup_cons in Hnd as [Hk Hnd].
  destruct (IH Hnd (UseAggregationIfMatching m k l1 v)) as (Hf & Hl).
  simpl in Hf, Hl. split.
  { rewrite Hf at 1. by rewrite (UseAggregationIfMatching_fields m k l1 v). }
  intros key l0. rewrite Hl. clear IH Hl Hf.
  rewrite (matchesAggregation_target m v) by apply UseAggregationIfMatching_meta.
  rewrite elem_of_cons.
  destruct (decide (k = key)) as [<-|Hne].
  - assert (Hnot : ∀ l0, (k, l0) ∉ l).
    { intros l2 Hin. apply Hk. apply list_elem_of_fmap. by exists (k, l2). }
    destruct (aggregateContainerStates v !! k) as [l2|] eqn:Hv.
    + unfold UseAggregationIfMatching, UsesAggregation.
      rewrite bool_decide_eq_true_2 by (rewrite Hv; eauto).
      rewrite Hv. naive_solver.
    + rewrite (UseAggregationIfMatching_links_eq m k l1 v Hv).
      destruct (matchesAggregation m v k); naive_solver.
  - rewrite (UseAggregationIfMatching_links_ne m k l1 v key Hne).
    naive_solver.
Qed.

Lemma createVpa_spec (vpaID : VpaID) (selector : Selector) (created : Z)
    (s : clusterState) :
  createVpa vpaID selector created s
  = Done tt (set_vpas <[vpaID := seededVpa s vpaID selector created]> s).
Proof.
  unfold createVpa, modify. f_equal. f_equal. f_equal.
  set (l := rangeOrder (map_to_list (aggregateStateMap s))).
  assert (Hnd : NoDup l.*1).
  { unfold l. rewrite rangeOrder_perm. apply NoDup_fst_map_to_list. }
  destruct (foldl_Use_spec (labelSetMap s) l Hnd
              (NewVpa vpaID selector created)) as (Hf & Hl).
  simpl in Hf, Hl.
  set (X0 := foldl _ _ l) in *.
  assert (Hlinks : aggregateContainerStates X0
                   = matchingEntries s vpaID selector).
  { apply map_eq. intros key. apply option_eq. intros l0.
    rewrite Hl, lookup_empty. unfold matchingEntries.
    rewrite map_lookup_filter_Some. simpl. unfold l.
    rewrite rangeOrder_elem_of, elem_of_map_to_list.
    unfold matchesAggregation. simpl.
    rewrite andb_true_iff, bool_decide_eq_true.
    split; [intros [?|(_ & ? & ? & ?)]; [done|by eauto]|].
    intros (? & ? & ?). right. by eauto. }
  clearbody X0. rewrite Hlinks in Hf. subst X0.
  rewrite GetMatchingPods_length. done.
Qed.

Lemma seededVpa_invariant (vpaID : VpaID) (selector : Selector) (created : Z)
    (s : clusterState) :
  vpas s !! vpaID = None →
  let s' := set_vpas <[vpaID := seededVpa s vpaID selector created]> s in
  clusterInvariant s →
  clusterInvariant s' ∧ (containersLinked s → containersLinked s').
Proof.
  intros Hnone s' (Hwf & Hlink & Hcount).
  assert (Hwf' : wellFormed s').
  { destruct Hwf as (Hpod & Hvid & Hint & Hik & Hli).
    split; [exact Hpod|]. split; [|split; [exact Hint|split; [exact Hik|]]].
    - intros id v. simpl. rewrite lookup_insert. case_decide; [|by apply Hvid].
      by intros [= <-].
    - intros id v key. simpl. rewrite lookup_insert.
      case_decide; [|by apply Hli]. intros [= <-] [l Hl]. simpl in Hl.
      unfold matchingEntries in Hl. apply map_lookup_filter_Some in Hl.
      destruct Hl as [Hl _]. eauto. }
  split; [split; [done|split]|].
  - intros id v key. simpl. rewrite lookup_insert.
    case_decide; [|by apply Hlink]. intros [= <-] [l Hl].
    unfold holdsLink, keyMatches. simpl. unfold matchingEntries.
    split.
    + intros [l' Hl']. apply map_lookup_filter_Some in Hl'. by destruct Hl'.
    + intros Hm. exists l. by apply map_lookup_filter_Some.
  - intros id v. simpl. rewrite lookup_insert.
    case_decide; [|by apply Hcount]. by intros [= <-].
  - by apply containersLinked_vpas.
Qed.

Lemma refreshVpa_invariant (apiObject : VerticalPodAutoscaler)
    (conditionsMap : gmap string VerticalPodAutoscalerCondition)
    (currentRecommendation : option (list RecommendedContainerResources))
    (vpaID : VpaID) (s : clusterState) :
  let s' := set_vpas (alter (refreshVpa apiObject conditionsMap
                               currentRecommendation) vpaID) s in
  clusterInvariant s →
  clusterInvariant s' ∧ (containersLinked s → containersLinked s').
Proof.
  intros s' (Hwf & Hlink & Hcount).
  assert (Hsub : ∀ id v', vpas s' !! id = Some v' →
            ∃ v, vpas s !! id = Some v ∧ vpa_ID v' = vpa_ID v
                 ∧ PodSelector v' = PodSelector v
                 ∧ aggregateContainerStates v' = aggregateContainerStates v
                 ∧ PodCount v' = PodCount v).
  { intros id v'. simpl. rewrite lookup_alter_Some.
    intros [(<- & v & Hv & ->)|[_ Hv]]; eauto 10. }
  assert (Hwf' : wellFormed s').
  { apply (wellFormed_vpas s); try done. intros id v' Hv'.
    destruct (Hsub _ _ Hv') as (v & ?). exists v. naive_solver. }
  split; [split; [done|split]|].
  - apply (linkConsistent_vpas s); try done. intros id v' Hv'.
    destruct (Hsub _ _ Hv') as (v & ?). exists v. naive_solver.
  - intros id v' Hv'. destruct (Hsub _ _ Hv') as (v & Hv & Hid & Hsel & _ & Hc).
    rewrite Hc, (Hcount _ _ Hv). f_equal. symmetry.
    by apply matchingPodCount_target.
  - by apply containersLinked_vpas.
Qed.

Lemma AddOrUpdateVpa_invariant (apiObject : VerticalPodAutoscaler)
    (selector : Selector) (s : clusterState) :
  clusterInvariant s →
  ∃ err s', AddOrUpdateVpa apiObject selector s = Done err s'
    ∧ clusterInvariant s' ∧ (containersLinked s → containersLinked s').
Proof.
  intros Hinv. unfold AddOrUpdateVpa.
  set (vpaID := mkVpaID _ _).
  assert (Hcreate : ∀ s0, vpas s0 !! vpaID = None → clusterInvariant s0 →
            ∃ err s',
              (createVpa vpaID selector (api_CreationTimestamp apiObject) ;;;
               modify (set_vpas (alter (refreshVpa apiObject
                         (conditionsMapOf (api_Conditions apiObject))
                         (currentRecommendationOf apiObject
                            (conditionsMapOf (api_Conditions apiObject))))
                         vpaID)) ;;;
               ret (None : option error)) s0 = Done err s'
              ∧ clusterInvariant s'
              ∧ (containersLinked s0 → containersLinked s')).
  { intros s0 Hnone Hinv0. unfold bind at 1. rewrite createVpa_spec.
    unfold bind, modify, ret. eexists _, _. split; [done|].
    destruct (seededVpa_invariant vpaID selector
                (api_CreationTimestamp apiObject) s0 Hnone Hinv0) as (H1 & H2).
    destruct (refreshVpa_invariant apiObject
                (conditionsMapOf (api_Conditions apiObject))
                (currentRecommendationOf apiObject
                   (conditionsMapOf (api_Conditions apiObject)))
                vpaID _ H1) as (H3 & H4).
    split; [done|]. intros Hl. by apply H4, H2. }
  destruct (vpas s !! vpaID) as [vpa|] eqn:Hv; [|by apply Hcreate].
  case_bool_decide as Hsel.
  - unfold bind at 1.
    destruct (DeleteVpa_invariant vpaID s Hinv)
      as (err & s1 & Hrun & Hv1 & _ & _ & _ & Hinv1 & Hl1).
    rewrite Hrun. destruct err as [e|].
    { eexists _, _. split; [done|]. done. }
    destruct (Hcreate s1) as (err & s' & Hrun' & Hinv' & Hl'); [|done|].
    { rewrite Hv1. apply lookup_delete_eq. }
    exists err, s'. split; [done|]. split; [done|]. intros Hl.
    by apply Hl', Hl1.
  - unfold bind, modify, ret. eexists _, _. split; [done|].
    by apply refreshVpa_invariant.
Qed.

End CreateVpa.

(** ** The sweep of the garbage collector *)

Section GarbageCollection.
Context `{LA : LabelsAPI} `{AA : AggregationAPI} `{MI : MapIteration}.

(** The second loop of [garbageCollectAggregateCollectionStates]. *)
Lemma deleteKeys_spec (keys : list AggregateStateKey) :
  ∀ s : clusterState,
  let s' :=
    foldl (λ cluster key,
             set_vpas (fmap (DeleteAggregation key))
               (set_aggregateStateMap (delete key) cluster)) s keys in
  pods s' = pods s ∧ labelSetMap s' = labelSetMap s
  ∧ emptyVPAs s' = emptyVPAs s ∧ observedVPAs s' = observedVPAs s
  ∧ heap s' = heap s
  ∧ lastAggregateContainerStateGC s' = lastAggregateContainerStateGC s
  ∧ gcInterval s' = gcInterval s
  ∧ (∀ key, aggregateStateMap s' !! key
            = if bool_decide (key ∈ keys) then None
              else aggregateStateMap s !! key)
  ∧ (∀ vpaID,
       vpas s' !! vpaID
       = set_aggregateContainerStates
           (filter (λ e : AggregateStateKey * positive, e.1 ∉ keys))
         <$> vpas s !! vpaID).
Proof.
  induction keys as [|k keys IH]; intros s; simpl.
  { repeat (split; [done|]). intros vpaID.
    destruct (vpas s !! vpaID) as [v|]; [|done]. simpl. f_equal.
    destruct v. unfold set_aggregateContainerStates. simpl. f_equal.
    symmetry. apply map_filter_id. intros ? ? _. apply not_elem_of_nil. }
  destruct (IH (set_vpas (fmap (DeleteAggregation k))
                  (set_aggregateStateMap (delete k) s)))
    as (H1 & H2 & H3 & H4 & H5 & H6 & H7 & H8 & H9).
  simpl in *. repeat (split; [done|]). split.
  - intros key. rewrite H8. rewrite lookup_delete.
    destruct (decide (key ∈ keys)) as [Hin|Hin].
    + rewrite !bool_decide_eq_true_2; [done| |done]. by right.
    + rewrite (bool_decide_eq_false_2 (key ∈ keys)) by done.
      destruct (decide (k = key)) as [->|Hne].
      * rewrite bool_decide_eq_true_2; [done|by left].
      * rewrite bool_decide_eq_false_2; [done|].
        rewrite elem_of_cons. naive_solver.
  - intros vpaID. rewrite H9, lookup_fmap.
    destruct (vpas s !! vpaID) as [v|]; [|done]. simpl. f_equal.
    unfold DeleteAggregation, set_aggregateContainerStates. simpl. f_equal.
    apply map_eq. intros key. apply option_eq. intros l.
    rewrite !map_lookup_filter_Some, lookup_delete_Some. simpl.
    rewrite elem_of_cons. naive_solver.
Qed.

Lemma keysToDelete_elem_of (contributiveKeys : gset AggregateStateKey)
    (h : gmap positive AggregateContainerState) (now : Z)
    (index : gmap AggregateStateKey positive) (key : AggregateStateKey) :
  key ∈ (filter (λ e : AggregateStateKey * positive,
                   obsolete contributiveKeys h now e.1 e.2 = true)
           (rangeOrder (map_to_list index))).*1
  ↔ ∃ l, index !! key = Some l ∧ obsolete contributiveKeys h now key l = true.
Proof.
  rewrite list_elem_of_fmap. split.
  - intros ([k l] & -> & Hin). apply list_elem_of_filter in Hin as [Ho Hin].
    apply rangeOrder_elem_of, elem_of_map_to_list in Hin. by exists l.
  - intros (l & Hl & Ho). exists (key, l). split; [done|].
    apply list_elem_of_filter. split; [done|].
    by apply rangeOrder_elem_of, elem_of_map_to_list.
Qed.

Lemma garbageCollect_spec (now : Z)
    (controllerFetcher : ControllerKeyWithAPIVersion
                         → option ControllerKeyWithAPIVersion)
    (s : clusterState) :
  ∃ s',
    garbageCollectAggregateCollectionStates now controllerFetcher s
    = Done tt s'
    ∧ pods s' = pods s ∧ labelSetMap s' = labelSetMap s
    ∧ emptyVPAs s' = emptyVPAs s ∧ observedVPAs s' = observedVPAs s
    ∧ heap s' = heap s
    ∧ lastAggregateContainerStateGC s' = lastAggregateContainerStateGC s
    ∧ gcInterval s' = gcInterval s
    ∧ (∀ key,
         aggregateStateMap s' !! key
         = l ← aggregateStateMap s !! key;
           if obsolete (getContributiveAggregateStateKeys controllerFetcher s)
                (heap s) now key l
           then None else Some l)
    ∧ (∀ vpaID v', vpas s' !! vpaID = Some v' →
         ∃ v, vpas s !! vpaID = Some v
              ∧ vpaMeta v' = vpaMeta v
              ∧ ∀ key, aggregateContainerStates v' !! key
                       = if bool_decide
                              (is_Some (aggregateStateMap s !! key)
                               ∧ aggregateStateMap s' !! key = None)
                         then None
                         else aggregateContainerStates v !! key).
Proof.
  unfold garbageCollectAggregateCollectionStates, modify.
  eexists. split; [done|].
  set (contributiveKeys := getContributiveAggregateStateKeys _ s).
  set (keys := (filter _ _).*1).
  destruct (deleteKeys_spec keys s)
    as (H1 & H2 & H3 & H4 & H5 & H6 & H7 & H8 & H9).
  repeat (split; [done|]). unfold keys in *. clear keys.
  assert (Hidx : ∀ key,
            aggregateStateMap
              (foldl (λ cluster key,
                        set_vpas (fmap (DeleteAggregation key))
                          (set_aggregateStateMap (delete key) cluster)) s
                 (filter (λ e : AggregateStateKey * positive,
                            obsolete contributiveKeys (heap s) now e.1 e.2
                            = true)
                    (rangeOrder (map_to_list (aggregateStateMap s)))).*1)
              !! key
            = l ← aggregateStateMap s !! key;
              if obsolete contributiveKeys (heap s) now key l
              then None else Some l).
  { intros key. rewrite H8.
    destruct (aggregateStateMap s !! key) as [l|] eqn:Hl; simpl.
    - destruct (obsolete contributiveKeys (heap s) now key l) eqn:Ho.
      + rewrite bool_decide_eq_true_2; [done|].
        apply keysToDelete_elem_of. eauto.
      + rewrite bool_decide_eq_false_2; [done|].
        rewrite keysToDelete_elem_of. intros (l' & Hl' & Ho'). congruence.
    - by destruct (bool_decide _). }
  split; [done|].
  intros vpaID v'. rewrite H9.
  destruct (vpas s !! vpaID) as [v|]; [|done]. simpl. intros [= <-].
  exists v. split; [done|]. split; [done|]. intros key. simpl.
  rewrite Hidx.
  destruct (aggregateContainerStates v !! key) as [l0|] eqn:Hv.
  - case_bool_decide as Hd.
    + apply map_lookup_filter_None. right. intros l1 _. simpl.
      intros Hnot. apply Hnot. apply keysToDelete_elem_of.
      destruct Hd as ([l Hl] & Hd). rewrite Hl in Hd. simpl in Hd.
      exists l. split; [done|]. by destruct (obsolete _ _ _ _ _).
    + apply map_lookup_filter_Some. split; [done|]. simpl.
      rewrite keysToDelete_elem_of. intros (l & Hl & Ho). apply Hd.
      rewrite Hl. simpl. rewrite Ho. eauto.
  - rewrite (proj2 (map_lookup_filter_None _ _ _)) by (by left).
    by destruct (bool_decide _).
Qed.

Lemma garbageCollect_invariant (now : Z)
    (controllerFetcher : ControllerKeyWithAPIVersion
                         → option ControllerKeyWithAPIVersion)
    (s : clusterState) :
  clusterInvariant s →
  ∃ s',
    garbageCollectAggregateCollectionStates now controllerFetcher s
    = Done tt s'
    ∧ clusterInvariant s'.
Proof.
  intros (Hwf & Hlink & Hcount).
  destruct (garbageCollect_spec now controllerFetcher s)
    as (s' & Hrun & Hp & Hl & _ & _ & _ & _ & _ & Hidx & Hv).
  exists s'. split; [done|].
  assert (Hsub : ∀ key, is_Some (aggregateStateMap s' !! key) →
            aggregateStateMap s' !! key = aggregateStateMap s !! key).
  { intros key. rewrite Hidx.
    destruct (aggregateStateMap s !! key) as [l|]; [|done]. simpl.
    destruct (obsolete _ _ _ _ _); [by intros [? ?]|done]. }
  destruct Hwf as (Hpod & Hvid & Hint & Hik & Hli).
  split; [|split].
  - split; [|split; [|split; [|split]]].
    + intros id p. rewrite Hp. intros Hq.
      destruct (Hpod _ _ Hq) as (? & ? & ?). split; [done|]. by rewrite Hl.
    + intros id v' Hv'. destruct (Hv _ _ Hv') as (v & Hv0 & Hm & _).
      rewrite (vpaMeta_ID _ _ Hm). eauto.
    + by rewrite Hl.
    + intros key Hk. rewrite Hl. apply Hik. by rewrite <- Hsub.
    + intros id v' key Hv'. destruct (Hv _ _ Hv') as (v & Hv0 & Hm & Hlk).
      unfold holdsLink. rewrite Hlk. case_bool_decide as Hd.
      { by intros [? ?]. }
      intros Hh. assert (Hin := Hli _ _ _ Hv0 Hh).
      destruct (aggregateStateMap s' !! key) eqn:Hk; [done|].
      exfalso. by apply Hd.
  - intros id v' key Hv' Hk. destruct (Hv _ _ Hv') as (v & Hv0 & Hm & Hlk).
    unfold holdsLink. rewrite Hlk.
    rewrite bool_decide_eq_false_2.
    2:{ intros [_ Hnone]. rewrite Hnone in Hk. by destruct Hk. }
    rewrite (keyMatches_meta s s' v v' key Hl Hm).
    apply (Hlink id v key Hv0). by rewrite <- Hsub.
  - intros id v' Hv'. destruct (Hv _ _ Hv') as (v & Hv0 & Hm & _).
    rewrite (vpaMeta_PodCount _ _ Hm), (Hcount _ _ Hv0). f_equal. symmetry.
    apply matchingPodCount_same; [by rewrite Hp|by rewrite Hl|done].
Qed.

Lemma getContributiveAggregateStateKeys_elem_of
    (controllerFetcher : ControllerKeyWithAPIVersion
                         → option ControllerKeyWithAPIVersion)
    (s : clusterState) (key : AggregateStateKey) :
  key ∈ getContributiveAggregateStateKeys controllerFetcher s
  ↔ ∃ podID pod containerName,
      pods s !! podID = Some pod
      ∧ podContributive controllerFetcher s pod = true
      ∧ containerName ∈ dom (Containers pod)
      ∧ key = MakeAggregateStateKey pod containerName.
Proof.
  unfold getContributiveAggregateStateKeys.
  rewrite elem_of_list_to_set, list_elem_of_bind. split.
  - intros ([podID pod] & Hin & Hp). simpl in Hin.
    apply rangeOrder_elem_of, elem_of_map_to_list in Hp.
    destruct (podContributive controllerFetcher s pod) eqn:Hc;
      [|by apply elem_of_nil in Hin].
    apply list_elem_of_fmap in Hin as (name & -> & Hn).
    apply list_elem_of_fmap in Hn as ([n c] & -> & Hn). simpl.
    apply rangeOrder_elem_of, elem_of_map_to_list in Hn.
    exists podID, pod, n. split; [done|]. split; [done|]. split; [|done].
    apply elem_of_dom. eauto.
  - intros (podID & pod & name & Hp & Hc & Hn & ->).
    exists (podID, pod). split.
    + simpl. rewrite Hc. apply list_elem_of_fmap. exists name. split; [done|].
      apply elem_of_dom in Hn as [c Hn].
      apply list_elem_of_fmap. exists (name, c). split; [done|].
      by apply rangeOrder_elem_of, elem_of_map_to_list.
    + by apply rangeOrder_elem_of, elem_of_map_to_list.
Qed.

End GarbageCollection.

(** ** Every run keeps the invariant *)

Section Runs.
Context `{LA : LabelsAPI} `{AA : AggregationAPI} `{MI : MapIteration}.

Lemma NewClusterState_invariant (gcInterval : Z) :
  clusterInvariant (NewClusterState gcInterval)
  ∧ containersLinked (NewClusterState gcInterval).
Proof.
  split; [split; [|split]|].
  - repeat split; simpl; intros *; rewrite ?lookup_empty; try done;
      by intros [? ?].
  - intros vpaID vpa key. simpl. by rewrite lookup_empty.
  - intros vpaID vpa. simpl. by rewrite lookup_empty.
  - intros podID pod name c. simpl. by rewrite lookup_empty.
Qed.

Lemma RateLimitedGarbageCollect_invariant (now : Z)
    (controllerFetcher : ControllerKeyWithAPIVersion
                         → option ControllerKeyWithAPIVersion)
    (s : clusterState) :
  clusterInvariant s →
  ∃ s',
    RateLimitedGarbageCollectAggregateCollectionStates now controllerFetcher s
    = Done tt s'
    ∧ clusterInvariant s'.
Proof.
  intros Hinv. unfold RateLimitedGarbageCollectAggregateCollectionStates.
  destruct (_ <? _); [by eauto|].
  destruct (garbageCollect_invariant now controllerFetcher s Hinv)
    as (s1 & Hrun & Hinv1).
  unfold bind, modify. rewrite Hrun. eexists. split; [done|].
  by apply (invariant_same_fields s1).
Qed.

Lemma step_invariant (o : op) (s : clusterState) :
  clusterInvariant s →
  ∃ s', step o s = Done tt s'
    ∧ clusterInvariant s'
    ∧ (isGarbageCollect o = false →
       containersLinked s → containersLinked s').
Proof.
  intros Hinv. destruct o; simpl.
  - destruct (AddOrUpdatePod_spec podID newLabels phase s)
      as (s' & pod' & Hrun & _ & _ & _ & _ & H).
    exists s'. destruct (H Hinv). eauto.
  - destruct (DeletePod_spec podID s) as (s' & Hrun & _ & H).
    exists s'. destruct (H Hinv). eauto.
  - destruct (AddOrUpdateContainer_spec containerID request s)
      as (err & s' & Hrun & H).
    exists s'. unfold bind, ret. rewrite Hrun. destruct (H Hinv). eauto.
  - destruct (AddSample_invariant sample s Hinv) as (err & s' & Hrun & ? & ?).
    exists s'. unfold bind, ret. rewrite Hrun. eauto.
  - destruct (RecordOOM_invariant containerID timestamp requestedMemory s Hinv)
      as (err & s' & Hrun & ? & ?).
    exists s'. unfold bind, ret. rewrite Hrun. eauto.
  - destruct (AddOrUpdateVpa_invariant apiObject selector s Hinv)
      as (err & s' & Hrun & ? & ?).
    exists s'. unfold bind, ret. rewrite Hrun. eauto.
  - destruct (DeleteVpa_invariant vpaID s Hinv)
      as (err & s' & Hrun & _ & _ & _ & _ & ? & ?).
    exists s'. unfold bind, ret. rewrite Hrun. eauto.
  - destruct (garbageCollect_invariant now controllerFetcher s Hinv)
      as (s' & Hrun & ?).
    exists s'. by eauto.
  - destruct (RateLimitedGarbageCollect_invariant now controllerFetcher s Hinv)
      as (s' & Hrun & ?).
    exists s'. by eauto.
  - destruct (RecordRecommendation_invariant vpa now s Hinv)
      as (err & s' & Hrun & ? & ?).
    exists s'. unfold bind, ret. rewrite Hrun. eauto.
  - eexists. split; [done|].
    destruct (invariant_same_fields s (set_observedVPAs observed s)
                eq_refl eq_refl eq_refl eq_refl Hinv). eauto.
Qed.

Lemma run_invariant (ops : list op) :
  ∀ s : clusterState,
    clusterInvariant s →
    ∃ s', run ops s = Done tt s'
      ∧ clusterInvariant s'
      ∧ (forallb (λ o, negb (isGarbageCollect o)) ops = true →
         containersLinked s → containersLinked s').
Proof.
  induction ops as [|o ops IH]; intros s Hinv.
  { exists s. eauto. }
  destruct (step_invariant o s Hinv) as (s1 & Hrun1 & Hinv1 & Hl1).
  destruct (IH s1 Hinv1) as (s' & Hrun & Hinv' & Hl').
  exists s'. split.
  { unfold run in *. simpl. unfold bind. by rewrite Hrun1. }
  split; [done|]. simpl. rewrite andb_true_iff, negb_true_iff.
  intros [Ho Hops] Hl. by apply Hl', Hl1.
Qed.

End Runs.

(** ** The invariants I2, I3 and I1 (claims C1, C2, C3) *)

Section Claims_invariants.
Context `{LA : LabelsAPI} `{AA : AggregationAPI} `{MI : MapIteration}.





End Claims_invariants.

Section Claims_invariants_runs.
#[local] Existing Instances Demo.labels Demo.aggregations Demo.order.



End Claims_invariants_runs.

(** ** The garbage collector (claims C4, C5) *)

Section Claims_gc.
Context `{LA : LabelsAPI} `{AA : AggregationAPI} `{MI : MapIteration}.

Lemma podContributive_true
    (controllerFetcher : ControllerKeyWithAPIVersion
                         → option ControllerKeyWithAPIVersion)
    (s : clusterState) (pod : PodState) :
  podContributive controllerFetcher s pod = true
  ↔ (Phase pod ≠ PodSucceeded ∧ Phase pod ≠ PodFailed)
    ∨ is_Some (GetControllerForPodUnderVPA pod controllerFetcher s).
Proof.
  unfold podContributive.
  rewrite orb_true_iff, andb_true_iff, !negb_true_iff,
    !bool_decide_eq_false, bool_decide_eq_true. done.
Qed.

Lemma obsolete_true (contributiveKeys : gset AggregateStateKey)
    (h : gmap positive AggregateContainerState) (now : Z)
    (key : AggregateStateKey) (l : positive) :
  obsolete contributiveKeys h now key l = true
  ↔ (((key ∉ contributiveKeys) ∧ isEmpty (deref h l) = true)
     ∨ isExpired (deref h l) now = true).
Proof.
  unfold obsolete.
  rewrite orb_true_iff, andb_true_iff, negb_true_iff, bool_decide_eq_false.
  done.
Qed.

(** C4.  A sweep of the garbage collector at time [now] deletes an entry
    of the aggregation index if and only if its key is not contributive
    and its aggregation is empty, or its aggregation is expired as of
    [now]; the entries it keeps are unchanged and it adds none.  A key is
    contributive exactly when it is the key of a container of a registered
    pod that is active (its phase is neither succeeded nor failed) or
    whose controller is resolved.  After the sweep no policy object links
    a deleted key. *)
Theorem C4_garbage_collect (now : Z)
    (controllerFetcher : ControllerKeyWithAPIVersion
                         → option ControllerKeyWithAPIVersion)
    (s : clusterState) :
  let contributiveKeys :=
    getContributiveAggregateStateKeys controllerFetcher s in
  ∃ s',
    garbageCollectAggregateCollectionStates now controllerFetcher s
    = Done tt s'
    ∧ (∀ key l,
         aggregateStateMap s !! key = Some l →
         (aggregateStateMap s' !! key = None
          ↔ (((key ∉ contributiveKeys) ∧ isEmpty (deref (heap s) l) = true)
             ∨ isExpired (deref (heap s) l) now = true))
         ∧ (aggregateStateMap s' !! key ≠ None →
            aggregateStateMap s' !! key = Some l))
    ∧ (∀ key,
         aggregateStateMap s !! key = None →
         aggregateStateMap s' !! key = None)
    ∧ (∀ key,
         key ∈ contributiveKeys
         ↔ ∃ podID pod containerName,
             pods s !! podID = Some pod
             ∧ ((Phase pod ≠ PodSucceeded ∧ Phase pod ≠ PodFailed)
                ∨ is_Some (GetControllerForPodUnderVPA pod
                             controllerFetcher s))
             ∧ containerName ∈ dom (Containers pod)
             ∧ key = MakeAggregateStateKey pod containerName)
    ∧ (∀ key vpaID vpa',
         is_Some (aggregateStateMap s !! key) →
         aggregateStateMap s' !! key = None →
         vpas s' !! vpaID = Some vpa' →
         ¬ holdsLink vpa' key).
Proof.
  intros contributiveKeys.
  destruct (garbageCollect_spec now controllerFetcher s)
    as (s' & Hrun & _ & _ & _ & _ & _ & _ & _ & Hidx & Hv).
  exists s'. split; [done|]. fold contributiveKeys in Hidx.
  split; [|split; [|split]].
  - intros key l Hl. rewrite Hidx, Hl. simpl.
    rewrite <- obsolete_true.
    destruct (obsolete contributiveKeys (heap s) now key l); split; done.
  - intros key Hnone. by rewrite Hidx, Hnone.
  - intros key. unfold contributiveKeys.
    rewrite getContributiveAggregateStateKeys_elem_of.
    by setoid_rewrite podContributive_true.
  - intros key vpaID vpa' Hin Hnone Hv'.
    destruct (Hv _ _ Hv') as (v & _ & _ & Hlk).
    unfold holdsLink. rewrite Hlk, bool_decide_eq_true_2 by done.
    by intros [? ?].
Qed.

(** C5 as amended (property P4).  A sweep of the garbage collector does
    not delete an aggregation whose key is the key of a container of an
    active pod (phase neither succeeded nor failed), whether the
    aggregation is empty or not, unless the aggregation is expired as of
    the time of the sweep; and it deletes an aggregation that is empty
    and whose key is the key of no container of a contributive pod. *)
Theorem C5_gc_safety (now : Z)
    (controllerFetcher : ControllerKeyWithAPIVersion
                         → option ControllerKeyWithAPIVersion)
    (s : clusterState) :
  ∃ s',
    garbageCollectAggregateCollectionStates now controllerFetcher s
    = Done tt s'
    ∧ (∀ podID pod containerName l,
         pods s !! podID = Some pod →
         Phase pod ≠ PodSucceeded → Phase pod ≠ PodFailed →
         containerName ∈ dom (Containers pod) →
         aggregateStateMap s !! MakeAggregateStateKey pod containerName
         = Some l →
         isExpired (deref (heap s) l) now = false →
         aggregateStateMap s' !! MakeAggregateStateKey pod containerName
         = Some l)
    ∧ (∀ key l,
         aggregateStateMap s !! key = Some l →
         isEmpty (deref (heap s) l) = true →
         (∀ podID pod containerName,
            pods s !! podID = Some pod →
            podContributive controllerFetcher s pod = true →
            containerName ∈ dom (Containers pod) →
            key ≠ MakeAggregateStateKey pod containerName) →
         aggregateStateMap s' !! key = None).
Proof.
  destruct (garbageCollect_spec now controllerFetcher s)
    as (s' & Hrun & _ & _ & _ & _ & _ & _ & _ & Hidx & _).
  exists s'. split; [done|]. split.
  - intros podID pod name l Hp Hs Hf Hn Hl Hx. rewrite Hidx, Hl. simpl.
    destruct (obsolete _ _ _ _ _) eqn:Ho; [|done].
    apply obsolete_true in Ho as [[Hnot _]|Ho]; [|congruence].
    exfalso. apply Hnot. apply getContributiveAggregateStateKeys_elem_of.
    exists podID, pod, name. split; [done|]. split; [|done].
    apply podContributive_true. by left.
  - intros key l Hl He Hno. rewrite Hidx, Hl. simpl.
    rewrite (proj2 (obsolete_true _ _ _ _ _)); [done|]. left.
    split; [|done]. rewrite getContributiveAggregateStateKeys_elem_of.
    intros (podID & pod & name & Hp & Hc & Hn & ->). by eapply Hno.
Qed.

End Claims_gc.

Section Claims_gc_runs.
#[local] Existing Instances Demo.labels Demo.aggregations Demo.order.

(** C5, as the claim states it, fails.  After the run [Demo.active] the
    pod [p1] is active and its container [c1] has an aggregation in the
    index; a sweep at a time at which that aggregation is expired deletes
    it. *)
Lemma C5_counterexample :
  ∃ s pod l s',
    run Demo.active (NewClusterState 0) = Done tt s
    ∧ pods s !! Demo.p1 = Some pod
    ∧ Phase pod = "Running"
    ∧ is_Some (Containers pod !! "c1")
    ∧ aggregateStateMap s !! MakeAggregateStateKey pod "c1" = Some l
    ∧ garbageCollectAggregateCollectionStates Demo.window Demo.noController s
      = Done tt s'
    ∧ aggregateStateMap s' !! MakeAggregateStateKey pod "c1" = None.
Proof.
  eexists _, _, _, _. split; [vm_compute; reflexivity|].
  split; [vm_compute; reflexivity|]. split; [vm_compute; reflexivity|].
  split; [vm_compute; eauto|]. split; [vm_compute; reflexivity|].
  split; vm_compute; reflexivity.
Qed.

(** The same sweep at time 0, at which the aggregation is not expired,
    keeps it, empty as it is. *)
Lemma C5_witness :
  let s := Demo.final Demo.active in
  pods s !! Demo.p1 = Some Demo.pod1
  ∧ aggregateStateMap s !! MakeAggregateStateKey Demo.pod1 "c1"
    = Some 1%positive
  ∧ isEmpty (deref (heap s) 1%positive) = true
  ∧ ∃ s',
      garbageCollectAggregateCollectionStates 0 Demo.noController s
      = Done tt s'
      ∧ aggregateStateMap s' !! MakeAggregateStateKey Demo.pod1 "c1"
        = Some 1%positive.
Proof.
  intros s.
  assert (Hp : pods s !! Demo.p1 = Some Demo.pod1)
    by (vm_compute; reflexivity).
  assert (Hi : aggregateStateMap s !! MakeAggregateStateKey Demo.pod1 "c1"
               = Some 1%positive) by (vm_compute; reflexivity).
  split; [exact Hp|]. split; [exact Hi|]. split; [vm_compute; reflexivity|].
  destruct (C5_gc_safety 0 Demo.noController s) as (s' & Hrun & Hkeep & _).
  exists s'. split; [exact Hrun|].
  apply (Hkeep Demo.p1 Demo.pod1 "c1" 1%positive Hp).
  - discriminate.
  - discriminate.
  - apply elem_of_dom. vm_compute. eauto.
  - exact Hi.
  - vm_compute. reflexivity.
Defined.

End Claims_gc_runs.

(** ** Rate limit and missing recommendations (claims C6, C7) *)

Section Claims_time.
Context `{LA : LabelsAPI} `{AA : AggregationAPI} `{MI : MapIteration}.

Lemma Time_Sub_ge (g t u : Z) :
  minDuration < g → g ≤ maxDuration → g ≤ Time_Sub t u ↔ g ≤ t - u.
Proof. unfold Time_Sub, minDuration, maxDuration. lia. Qed.

(** C6 (property P5).  RateLimitedGarbageCollectAggregateCollectionStates
    at time [now] sweeps if and only if [now] minus the time of the last
    sweep is at least [gcInterval]: then it does what the sweep does and
    sets the time of the last sweep to [now]; otherwise it changes nothing.
    A second call less than [gcInterval] after a call that swept changes
    nothing.  The difference is that of [Time.Sub], which is the plain
    difference as far as [gcInterval] is concerned. *)
Theorem C6_rate_limit (now : Z)
    (controllerFetcher : ControllerKeyWithAPIVersion
                         → option ControllerKeyWithAPIVersion)
    (s : clusterState) :
  (gcInterval s ≤ Time_Sub now (lastAggregateContainerStateGC s) →
   ∃ s1,
     garbageCollectAggregateCollectionStates now controllerFetcher s
     = Done tt s1
     ∧ RateLimitedGarbageCollectAggregateCollectionStates now
         controllerFetcher s
       = Done tt (set_lastAggregateContainerStateGC now s1)
     ∧ gcInterval s1 = gcInterval s)
  ∧ (Time_Sub now (lastAggregateContainerStateGC s) < gcInterval s →
     RateLimitedGarbageCollectAggregateCollectionStates now
       controllerFetcher s
     = Done tt s)
  ∧ (∀ s' now' controllerFetcher',
       gcInterval s ≤ Time_Sub now (lastAggregateContainerStateGC s) →
       RateLimitedGarbageCollectAggregateCollectionStates now
         controllerFetcher s
       = Done tt s' →
       Time_Sub now' now < gcInterval s →
       RateLimitedGarbageCollectAggregateCollectionStates now'
         controllerFetcher' s'
       = Done tt s')
  ∧ (minDuration < gcInterval s → gcInterval s ≤ maxDuration →
     gcInterval s ≤ Time_Sub now (lastAggregateContainerStateGC s)
     ↔ gcInterval s ≤ now - lastAggregateContainerStateGC s).
Proof.
  destruct (garbageCollect_spec now controllerFetcher s)
    as (s1 & Hrun & _ & _ & _ & _ & _ & _ & Hg & _).
  assert (Hsweep :
    gcInterval s ≤ Time_Sub now (lastAggregateContainerStateGC s) →
    RateLimitedGarbageCollectAggregateCollectionStates now
      controllerFetcher s
    = Done tt (set_lastAggregateContainerStateGC now s1)).
  { intros Hge. unfold RateLimitedGarbageCollectAggregateCollectionStates.
    rewrite (proj2 (Z.ltb_ge _ _)) by done.
    unfold bind, modify. by rewrite Hrun. }
  split; [|split; [|split]].
  - intros Hge. exists s1. auto.
  - intros Hlt. unfold RateLimitedGarbageCollectAggregateCollectionStates.
    by rewrite (proj2 (Z.ltb_lt _ _)).
  - intros s' now' controllerFetcher' Hge Hrl Hlt.
    rewrite (Hsweep Hge) in Hrl. injection Hrl as <-.
    unfold RateLimitedGarbageCollectAggregateCollectionStates. simpl.
    by rewrite Hg, (proj2 (Z.ltb_lt _ _)).
  - apply Time_Sub_ge.
Qed.

Lemma hasRecommendation_true (vpa : Vpa) :
  hasRecommendation vpa = true
  ↔ ∃ l, Recommendation vpa = Some l ∧ l ≠ [].
Proof.
  unfold hasRecommendation. destruct (Recommendation vpa) as [l|].
  - rewrite bool_decide_eq_true. split.
    + intros Hl. exists l. split; [done|]. intros ->. simpl in Hl. lia.
    + intros (l' & [= <-] & Hne). destruct l; [done|]. simpl. lia.
  - split; [done|]. by intros (l & ? & _).
Qed.

(** C7 as amended (property P6).  For a policy object without a
    recommendation that is tracked since [t0], a call of
    RecordRecommendation at most 30 minutes after [t0] succeeds and
    changes nothing; a call more than 30 minutes after [t0] fails with
    the error of a missing recommendation and sets the tracked time to
    [now], so that the calls of the next 30 minutes succeed and change
    nothing.  A call for a policy object that carries a non-empty
    recommendation deletes the tracking entry and succeeds. *)
Theorem C7_missing_recommendation (vpa : Vpa) (now : Z) (s : clusterState) :
  ((∃ l, Recommendation vpa = Some l ∧ l ≠ []) →
   RecordRecommendation vpa now s
   = Done None (set_emptyVPAs (delete (vpa_ID vpa)) s))
  ∧ (∀ t0,
       (Recommendation vpa = None ∨ Recommendation vpa = Some []) →
       emptyVPAs s !! vpa_ID vpa = Some t0 →
       (now ≤ t0 + 30 * Minute →
        RecordRecommendation vpa now s = Done None s)
       ∧ (t0 + 30 * Minute < now →
          let s' := set_emptyVPAs <[vpa_ID vpa := now]> s in
          RecordRecommendation vpa now s
          = Done (Some (ErrMissingRecommendation (vpa_ID vpa) (30 * Minute)))
              s'
          ∧ emptyVPAs s' !! vpa_ID vpa = Some now
          ∧ ∀ now', now' ≤ now + 30 * Minute →
              RecordRecommendation vpa now' s' = Done None s')).
Proof.
  split.
  - intros Hrec. unfold RecordRecommendation.
    by rewrite (proj2 (hasRecommendation_true vpa) Hrec).
  - intros t0 Hrec Ht0.
    assert (Hno : hasRecommendation vpa = false).
    { unfold hasRecommendation. by destruct Hrec as [-> | ->]. }
    split.
    + intros Hle. unfold RecordRecommendation. rewrite Hno, Ht0.
      unfold Time_Before, Time_Add, RecommendationMissingMaxDuration.
      by rewrite (proj2 (Z.ltb_ge _ _)).
    + intros Hlt s'.
      assert (Hs' : emptyVPAs s' !! vpa_ID vpa = Some now).
      { simpl. by rewrite lookup_insert_eq. }
      split; [|split; [done|]].
      * unfold RecordRecommendation. rewrite Hno, Ht0.
        unfold Time_Before, Time_Add, RecommendationMissingMaxDuration.
        by rewrite (proj2 (Z.ltb_lt _ _)).
      * intros now' Hle. unfold RecordRecommendation. rewrite Hno, Hs'.
        unfold Time_Before, Time_Add, RecommendationMissingMaxDuration.
        by rewrite (proj2 (Z.ltb_ge _ _)).
Qed.

End Claims_time.

Section Claims_time_runs.
#[local] Existing Instances Demo.labels Demo.aggregations Demo.order.

(** Two triggers one second apart with an interval of ten minutes: the
    first sweeps, the second changes nothing. *)
Lemma C6_witness :
  let s := NewClusterState (10 * Minute) in
  gcInterval s ≤ Time_Sub (10 * Minute) (lastAggregateContainerStateGC s)
  ∧ Time_Sub (10 * Minute + 1000000000) (10 * Minute) < gcInterval s
  ∧ ∃ s',
      RateLimitedGarbageCollectAggregateCollectionStates (10 * Minute)
        Demo.noController s
      = Done tt s'
      ∧ lastAggregateContainerStateGC s' = 10 * Minute
      ∧ RateLimitedGarbageCollectAggregateCollectionStates
          (10 * Minute + 1000000000) Demo.noController s'
        = Done tt s'.
Proof.
  intros s.
  assert (H1 : gcInterval s
               ≤ Time_Sub (10 * Minute) (lastAggregateContainerStateGC s))
    by (vm_compute; discriminate).
  assert (H2 : Time_Sub (10 * Minute + 1000000000) (10 * Minute)
               < gcInterval s)
    by (vm_compute; reflexivity).
  split; [exact H1|]. split; [exact H2|].
  destruct (C6_rate_limit (10 * Minute) Demo.noController s)
    as (Hsweep & _ & Hsecond & _).
  destruct (Hsweep H1) as (s1 & _ & Hrl & _).
  eexists. split; [exact Hrl|]. split; [reflexivity|].
  exact (Hsecond _ _ Demo.noController H1 Hrl H2).
Defined.

(** C7, as the claim states it, fails.  The policy object [vpa1] is
    tracked since time 0; a call 30 minutes later, which is not less than
    30 minutes after, succeeds and leaves the tracked time at 0. *)
Lemma C7_counterexample :
  let s := Demo.final Demo.tracked in
  run Demo.tracked (NewClusterState 0) = Done tt s
  ∧ Recommendation Demo.vpa1 = None
  ∧ emptyVPAs s !! vpa_ID Demo.vpa1 = Some 0
  ∧ 30 * Minute ≤ Time_Sub (0 + 30 * Minute) 0
  ∧ RecordRecommendation Demo.vpa1 (0 + 30 * Minute) s = Done None s.
Proof.
  intros s. split; [vm_compute; reflexivity|].
  split; [reflexivity|]. split; [vm_compute; reflexivity|].
  split; [vm_compute; discriminate|]. vm_compute. reflexivity.
Qed.

(** A call 31 minutes after time 0 fails and sets the tracked time. *)
Lemma C7_witness :
  let s := Demo.final Demo.tracked in
  emptyVPAs s !! vpa_ID Demo.vpa1 = Some 0
  ∧ 0 + 30 * Minute < 31 * Minute
  ∧ RecordRecommendation Demo.vpa1 (31 * Minute) s
    = Done (Some (ErrMissingRecommendation (vpa_ID Demo.vpa1) (30 * Minute)))
        (set_emptyVPAs <[vpa_ID Demo.vpa1 := 31 * Minute]> s).
Proof.
  intros s.
  assert (H0 : emptyVPAs s !! vpa_ID Demo.vpa1 = Some 0)
    by (vm_compute; reflexivity).
  assert (H1 : 0 + 30 * Minute < 31 * Minute) by (vm_compute; reflexivity).
  split; [exact H0|]. split; [exact H1|].
  destruct (C7_missing_recommendation Demo.vpa1 (31 * Minute) s) as (_ & H).
  destruct (H 0 (or_introl eq_refl) H0) as (_ & Hfail).
  exact (proj1 (Hfail H1)).
Defined.

End Claims_time_runs.

(** ** Errors of the sample operations and [DeleteVpa] (claims C8, C10) *)

Section Claims_errors.
Context `{LA : LabelsAPI} `{AA : AggregationAPI} `{MI : MapIteration}.

Lemma AddSample_cases (sample : ContainerUsageSampleWithKey)
    (s : clusterState) :
  clusterInvariant s →
  ∃ err s',
    AddSample sample s = Done err s'
    ∧ (isKeyError err = true ↔ GetContainer (Container sample) s = None)
    ∧ (err = Some ErrSampleDiscarded
       ↔ ∃ c, GetContainer (Container sample) s = Some c
              ∧ acceptSample (currentAggregation (aggregator c) s)
                  (Sample sample) = None)
    ∧ (err = None
       ↔ ∃ c a', GetContainer (Container sample) s = Some c
                 ∧ acceptSample (currentAggregation (aggregator c) s)
                     (Sample sample) = Some a')
    ∧ (err ≠ None → s' = s).
Proof.
  intros Hinv. unfold AddSample, GetContainer.
  destruct (pods s !! CID_PodID (Container sample)) as [pod|] eqn:Hp.
  2:{ eexists _, _. split; [done|]. simpl.
      naive_solver. }
  destruct (Containers pod !! ContainerName (Container sample))
    as [c|] eqn:Hc.
  2:{ eexists _, _. split; [done|]. simpl.
      naive_solver. }
  unfold bind at 1. unfold ContainerState_AddSample.
  destruct (acceptSample _ _) as [a'|] eqn:Ha.
  - destruct (forwarded_invariant s _ pod _ c a' Hinv Hp Hc)
      as (l & s1 & Hrun & _).
    unfold bind, modify, ret. rewrite Hrun. simpl.
    eexists _, _. split; [done|]. simpl.
    split; [done|]. split; [|split; [|done]].
    + split; [done|]. intros (c' & [= <-] & Ha'). congruence.
    + split; [|done]. intros _. eauto.
  - eexists _, _. split; [done|]. simpl.
    split; [done|]. split; [|split; [|done]].
    + split; [|done]. intros _. eauto.
    + split; [done|]. intros (c' & a' & [= <-] & Ha'). congruence.
Qed.

Lemma RecordOOM_cases (containerID : ContainerID) (timestamp : Z)
    (requestedMemory : Z) (s : clusterState) :
  clusterInvariant s →
  ∃ err s',
    RecordOOM containerID timestamp requestedMemory s = Done err s'
    ∧ (isKeyError err = true ↔ GetContainer containerID s = None)
    ∧ (err ≠ None → s' = s).
Proof.
  intros Hinv. unfold RecordOOM, GetContainer.
  destruct (pods s !! CID_PodID containerID) as [pod|] eqn:Hp;
    [|by eexists _, _].
  destruct (Containers pod !! ContainerName containerID) as [c|] eqn:Hc;
    [|by eexists _, _].
  unfold bind at 1. unfold ContainerState_RecordOOM.
  destruct (acceptOOM _ _ _) as [reason|a'] eqn:Ha.
  - eexists _, _. split; [done|]. by simpl.
  - destruct (forwarded_invariant s _ pod _ c a' Hinv Hp Hc)
      as (l & s1 & Hrun & _).
    unfold bind, modify, ret. rewrite Hrun. simpl.
    eexists _, _. split; [done|]. by simpl.
Qed.

(** C8.  In every state that a sequence of operations reaches from a
    fresh cluster state, AddSample returns, without a panic, a
    missing-parent error if and only if the pod or the container of the
    sample is not registered, the error of a discarded sample if and only
    if the container is registered and its aggregation rejects the
    sample, and no error otherwise; RecordOOM returns, without a panic, a
    missing-parent error if and only if its pod or container is not
    registered; and whenever one of them returns an error, it leaves the
    whole cluster state unchanged. *)
Theorem C8_sample_errors (gcInterval : Z) (ops : list op) :
  ∃ s,
    run ops (NewClusterState gcInterval) = Done tt s
    ∧ (∀ sample,
         ∃ err s',
           AddSample sample s = Done err s'
           ∧ (isKeyError err = true
              ↔ GetContainer (Container sample) s = None)
           ∧ (err = Some ErrSampleDiscarded
              ↔ ∃ c, GetContainer (Container sample) s = Some c
                     ∧ acceptSample (currentAggregation (aggregator c) s)
                         (Sample sample) = None)
           ∧ (err = None
              ↔ ∃ c a', GetContainer (Container sample) s = Some c
                        ∧ acceptSample (currentAggregation (aggregator c) s)
                            (Sample sample) = Some a')
           ∧ (err ≠ None → s' = s))
    ∧ (∀ containerID timestamp requestedMemory,
         ∃ err s',
           RecordOOM containerID timestamp requestedMemory s = Done err s'
           ∧ (isKeyError err = true ↔ GetContainer containerID s = None)
           ∧ (err ≠ None → s' = s)).
Proof.
  destruct (run_invariant ops (NewClusterState gcInterval))
    as (s & Hrun & Hinv & _).
  { apply NewClusterState_invariant. }
  exists s. split; [done|]. split.
  - intros sample. by apply AddSample_cases.
  - intros containerID timestamp requestedMemory. by apply RecordOOM_cases.
Qed.

Lemma deref_insert_eq (h : gmap positive AggregateContainerState) l a :
  deref (<[l := a]> h) l = a.
Proof. unfold deref. by rewrite lookup_insert_eq. Qed.

Lemma deref_insert_ne (h : gmap positive AggregateContainerState) l l' a :
  l ≠ l' → deref (<[l := a]> h) l' = deref h l'.
Proof. intros Hne. unfold deref. by rewrite lookup_insert_ne. Qed.

(** The marks that [DeleteVpa] leaves on the heap. *)
Lemma markAll_spec (locs : list positive) :
  ∀ (h : gmap positive AggregateContainerState) (l : positive),
    let h' :=
      foldl (λ h state, <[state := MarkNotAutoscaled (deref h state)]> h)
        h locs in
    (l ∉ locs → h' !! l = h !! l)
    ∧ ∃ n, (l ∈ locs → (0 < n)%nat)
           ∧ deref h' l = Nat.iter n MarkNotAutoscaled (deref h l).
Proof.
  induction locs as [|a locs IH]; intros h l; simpl.
  { split; [done|]. exists 0%nat. split; [|done].
    by intros ?%elem_of_nil. }
  destruct (IH (<[a := MarkNotAutoscaled (deref h a)]> h) l)
    as (Hout & n & Hn & Hd).
  split.
  - rewrite not_elem_of_cons. intros [Hne Hnot].
    rewrite (Hout Hnot). by rewrite lookup_insert_ne.
  - destruct (decide (l = a)) as [->|Hne].
    + exists (S n). split; [lia|].
      by rewrite Hd, deref_insert_eq, Nat.iter_succ_r.
    + exists n. split.
      * rewrite elem_of_cons. intros [?|?]; [done|by apply Hn].
      * by rewrite Hd, deref_insert_ne.
Qed.

(** C10.  DeleteVpa returns a not-found error, and changes nothing, if no
    policy object with the ID is registered.  Otherwise it returns no
    error, marks every aggregation that the policy object links as not
    autoscaled, leaves the other aggregations as they are, removes the
    policy object from the registry and the entry of the ID from the
    tracking of missing recommendations, and changes nothing else. *)
Theorem C10_DeleteVpa (vpaID : VpaID) (s : clusterState) :
  (vpas s !! vpaID = None →
   DeleteVpa vpaID s = Done (Some (NewKeyError (KeyVpaID vpaID))) s)
  ∧ (∀ vpa,
       vpas s !! vpaID = Some vpa →
       ∃ s',
         DeleteVpa vpaID s = Done None s'
         ∧ vpas s' = delete vpaID (vpas s)
         ∧ emptyVPAs s' = delete vpaID (emptyVPAs s)
         ∧ (∀ key l,
              aggregateContainerStates vpa !! key = Some l →
              ∃ n, (0 < n)%nat
                   ∧ deref (heap s') l
                     = Nat.iter n MarkNotAutoscaled (deref (heap s) l))
         ∧ (∀ l,
              (∀ key, aggregateContainerStates vpa !! key ≠ Some l) →
              heap s' !! l = heap s !! l)
         ∧ pods s' = pods s
         ∧ aggregateStateMap s' = aggregateStateMap s
         ∧ labelSetMap s' = labelSetMap s
         ∧ observedVPAs s' = observedVPAs s
         ∧ lastAggregateContainerStateGC s' = lastAggregateContainerStateGC s
         ∧ gcInterval s' = gcInterval s).
Proof.
  unfold DeleteVpa. split.
  - by intros ->.
  - intros vpa ->. eexists. split; [done|]. simpl.
    split; [done|]. split; [done|].
    set (locs := rangeOrder ((map_to_list (aggregateContainerStates vpa)).*2)).
    assert (Hlocs : ∀ l, l ∈ locs
              ↔ ∃ key, aggregateContainerStates vpa !! key = Some l).
    { intros l. unfold locs. rewrite rangeOrder_elem_of, list_elem_of_fmap.
      split.
      - intros ([key l'] & -> & Hin).
        apply elem_of_map_to_list in Hin. eauto.
      - intros (key & Hk). exists (key, l). split; [done|].
        by apply elem_of_map_to_list. }
    split; [|split; [|by repeat split]].
    + intros key l Hk.
      destruct (markAll_spec locs (heap s) l) as (_ & n & Hn & Hd).
      exists n. split; [|done]. apply Hn, Hlocs. eauto.
    + intros l Hno.
      destruct (markAll_spec locs (heap s) l) as (Hout & _).
      apply Hout. rewrite Hlocs. intros (key & Hk). by eapply Hno.
Qed.

End Claims_errors.

(** ** [AddOrUpdateVpa] (claim C9) *)

Section Claims_vpa.
Context `{LA : LabelsAPI} `{AA : AggregationAPI} `{MI : MapIteration}.

Lemma set_vpas_ext (f g : gmap VpaID Vpa → gmap VpaID Vpa)
    (s : clusterState) :
  f (vpas s) = g (vpas s) → set_vpas f s = set_vpas g s.
Proof. unfold set_vpas. by intros ->. Qed.

(** C9.  AddOrUpdateVpa returns no error.  If a policy object with the ID
    of the API object is registered with a selector of another string
    form, DeleteVpa first deletes it (without an error), and the policy
    object is created anew.  A policy object that is created, anew or for
    the first time, has the given selector, links every entry of the
    aggregation index whose key matches it and no other key, and has the
    number of matching pods of the registry as its pod count.  In every
    case the target reference, annotations, conditions, current
    recommendation, update mode, resource policy and API version of the
    policy object are those of the API object, and nothing else
    changes. *)
Theorem C9_AddOrUpdateVpa (apiObject : VerticalPodAutoscaler)
    (selector : Selector) (s : clusterState) :
  let vpaID := mkVpaID (api_Namespace apiObject) (api_Name apiObject) in
  let conditionsMap := conditionsMapOf (api_Conditions apiObject) in
  let currentRecommendation :=
    currentRecommendationOf apiObject conditionsMap in
  let selectorChanged :=
    match vpas s !! vpaID with
    | Some vpa =>
        bool_decide (Selector_String (PodSelector vpa)
                     ≠ Selector_String selector)
    | None => false
    end in
  ∃ err s0 vpa0 vpa',
    (if selectorChanged
     then DeleteVpa vpaID s = Done err s0 ∧ vpas s0 !! vpaID = None
     else err = None ∧ s0 = s)
    ∧ err = None
    ∧ vpa0 = default (seededVpa s0 vpaID selector
                        (api_CreationTimestamp apiObject))
               (vpas s0 !! vpaID)
    ∧ vpa' = refreshVpa apiObject conditionsMap currentRecommendation vpa0
    ∧ AddOrUpdateVpa apiObject selector s
      = Done err (set_vpas <[vpaID := vpa']> s0)
    ∧ (vpas s0 !! vpaID = None →
       PodSelector vpa' = selector
       ∧ aggregateContainerStates vpa' = matchingEntries s0 vpaID selector
       ∧ PodCount vpa' = Z.of_nat (matchingPods s0 vpaID selector))
    ∧ TargetRef vpa' = api_TargetRef apiObject
    ∧ Annotations vpa' = api_Annotations apiObject
    ∧ Conditions vpa' = conditionsMap
    ∧ Recommendation vpa' = currentRecommendation
    ∧ UpdateMode vpa' = mjoin (api_UpdatePolicy apiObject)
    ∧ ResourcePolicy vpa' = api_ResourcePolicy apiObject
    ∧ APIVersion vpa' = api_Version apiObject.
Proof.
  intros vpaID conditionsMap currentRecommendation selectorChanged.
  assert (Hcreate : ∀ s0, vpas s0 !! vpaID = None →
    (createVpa vpaID selector (api_CreationTimestamp apiObject) ;;;
     modify (set_vpas (alter (refreshVpa apiObject conditionsMap
                                currentRecommendation) vpaID)) ;;;
     ret (None : option error)) s0
    = Done None
        (set_vpas <[vpaID := refreshVpa apiObject conditionsMap
                               currentRecommendation
                               (seededVpa s0 vpaID selector
                                  (api_CreationTimestamp apiObject))]> s0)).
  { intros s0 Hnone. unfold bind at 1. rewrite createVpa_spec.
    unfold bind, modify, ret. f_equal.
    unfold set_vpas. simpl. f_equal. by rewrite alter_insert_eq. }
  unfold AddOrUpdateVpa. fold vpaID conditionsMap currentRecommendation.
  subst selectorChanged.
  destruct (vpas s !! vpaID) as [vpa|] eqn:Hv.
  - case_bool_decide as Hsel.
    + unfold bind at 1. unfold DeleteVpa at 1 2. rewrite Hv.
      set (s0 := set_emptyVPAs _ _).
      assert (Hnone : vpas s0 !! vpaID = None) by apply lookup_delete_eq.
      exists None, s0,
        (seededVpa s0 vpaID selector (api_CreationTimestamp apiObject)),
        (refreshVpa apiObject conditionsMap currentRecommendation
           (seededVpa s0 vpaID selector (api_CreationTimestamp apiObject))).
      split; [done|]. split; [done|]. split; [by rewrite Hnone|].
      split; [done|]. split; [by rewrite (Hcreate s0 Hnone)|].
      by repeat split.
    + exists None, s, vpa,
        (refreshVpa apiObject conditionsMap currentRecommendation vpa).
      split; [done|]. split; [done|]. split; [by rewrite Hv|].
      split; [done|]. split; [|split; [by rewrite Hv|by repeat split]].
      unfold bind, modify, ret. f_equal. apply set_vpas_ext.
      by apply alter_insert_lookup.
  - exists None, s,
      (seededVpa s vpaID selector (api_CreationTimestamp apiObject)),
      (refreshVpa apiObject conditionsMap currentRecommendation
         (seededVpa s vpaID selector (api_CreationTimestamp apiObject))).
    split; [done|]. split; [done|]. split; [by rewrite Hv|].
    split; [done|]. split; [by rewrite (Hcreate s Hv)|]. by repeat split.
Qed.

End Claims_vpa.

(** ** What the operations write *)

Section Effects.
Context `{LA : LabelsAPI} `{AA : AggregationAPI} `{MI : MapIteration}.

(** The two outcomes of a find-or-create that returns. *)
Lemma findOrCreate_cases (containerID : ContainerID) (s s' : clusterState) l :
  findOrCreateAggregateContainerState containerID s = Done l s' →
  ∃ pod,
    pods s !! CID_PodID containerID = Some pod
    ∧ let key := MakeAggregateStateKey pod (ContainerName containerID) in
      (aggregateStateMap s !! key = Some l ∧ s' = s)
      ∨ (aggregateStateMap s !! key = None
         ∧ l = fresh (dom (heap s))
         ∧ s' = set_vpas (fmap (UseAggregationIfMatching (labelSetMap s)
                                  key l))
                  (set_aggregateStateMap <[key := l]>
                     (store l NewAggregateContainerState s))).
Proof.
  unfold findOrCreateAggregateContainerState, bind,
    aggregateStateKeyForContainerID.
  destruct (pods s !! CID_PodID containerID) as [pod|]; [|done].
  intros Hrun. exists pod. split; [done|]. simpl.
  destruct (aggregateStateMap s !! _) as [l0|] eqn:Hkey.
  - left. by injection Hrun as <- <-.
  - right. by injection Hrun as <- <-.
Qed.

(** [findOrCreateAggregateContainerState] panics exactly when the pod of
    the container is not registered. *)
Lemma findOrCreate_panics (containerID : ContainerID) (s : clusterState) :
  (∃ msg, findOrCreateAggregateContainerState containerID s = Panic msg)
  ↔ pods s !! CID_PodID containerID = None.
Proof.
  unfold findOrCreateAggregateContainerState, bind,
    aggregateStateKeyForContainerID.
  destruct (pods s !! CID_PodID containerID) as [pod|].
  - split; [|done]. intros [msg Hrun].
    by destruct (aggregateStateMap s !! _).
  - split; [done|]. eauto.
Qed.

End Effects.

(** ** Containers and pods *)

Section Containers.
Context `{LA : LabelsAPI} `{AA : AggregationAPI} `{MI : MapIteration}.

Lemma GetContainer_other_pod (containerID : ContainerID) (s s' : clusterState) :
  pods s' !! CID_PodID containerID = pods s !! CID_PodID containerID →
  GetContainer containerID s' = GetContainer containerID s.
Proof. unfold GetContainer. by intros ->. Qed.

(** The outcome of [AddOrUpdateContainer], by the registry. *)
Lemma AddOrUpdateContainer_cases (containerID : ContainerID)
    (request : gmap string Z) (s : clusterState) :
  ∃ err s',
    AddOrUpdateContainer containerID request s = Done err s'
    ∧ ((pods s !! CID_PodID containerID = None
        ∧ err = Some (NewKeyError (KeyPodID (CID_PodID containerID)))
        ∧ s' = s)
       ∨ (is_Some (pods s !! CID_PodID containerID)
          ∧ err = None
          ∧ GetContainer containerID s'
            = Some (NewContainerState request
                      match GetContainer containerID s with
                      | Some container => aggregator container
                      | None => ContainerStateAggregatorProxy containerID
                      end)))
    ∧ (∀ containerID',
         containerID' ≠ containerID →
         GetContainer containerID' s' = GetContainer containerID' s).
Proof.
  unfold AddOrUpdateContainer. destruct containerID as [podID name]. simpl.
  destruct (pods s !! podID) as [pod|] eqn:Hp; [|by eauto 10].
  assert (Hother : ∀ (s1 : clusterState) f,
            pods s1 = pods s →
            (∀ name', name' ≠ name →
               Containers (f pod) !! name' = Containers pod !! name') →
            ∀ containerID',
              containerID' ≠ mkContainerID podID name →
              GetContainer containerID' (set_pods (alter f podID) s1)
              = GetContainer containerID' s).
  { intros s1 f Hp1 Hf [podID' name'] Hne. unfold GetContainer. simpl.
    rewrite Hp1. destruct (decide (podID' = podID)) as [->|Hid].
    - rewrite lookup_alter_eq, Hp. simpl. apply Hf. congruence.
    - by rewrite lookup_alter_ne. }
  destruct (Containers pod !! name) as [c|] eqn:Hc.
  - eexists _, _. split; [done|]. split.
    + right. split; [done|]. split; [done|].
      unfold GetContainer. simpl. rewrite lookup_alter_eq, Hp. simpl.
      by rewrite lookup_alter_eq, Hc.
    + apply (Hother s); [done|]. intros name' Hne. simpl.
      by rewrite lookup_alter_ne.
  - destruct (findOrCreate_spec (mkContainerID podID name) s pod Hp)
      as (l & s1 & Hrun & _ & Hp1 & _).
    unfold bind, modify, ret. rewrite Hrun.
    eexists _, _. split; [done|]. split.
    + right. split; [done|]. split; [done|].
      unfold GetContainer. simpl. rewrite lookup_alter_eq, Hp1, Hp. simpl.
      by rewrite lookup_insert_eq, Hc.
    + apply (Hother s1); [done|]. intros name' Hne. simpl.
      by rewrite lookup_insert_ne.
Qed.

(** X1: [AddOrUpdateContainer] never panics.  It returns the key error of
    the pod ID and changes nothing when the pod is not registered;
    otherwise it returns no error and [GetContainer] then finds the
    container with the given request, with the aggregator it had if it
    existed and the proxy of its ID if it is new.  What [GetContainer]
    returns for every other container ID does not change. *)
Theorem X1_AddOrUpdateContainer_GetContainer (containerID : ContainerID)
    (request : gmap string Z) (s : clusterState) :
  ∃ err s',
    AddOrUpdateContainer containerID request s = Done err s'
    ∧ ((pods s !! CID_PodID containerID = None
        ∧ err = Some (NewKeyError (KeyPodID (CID_PodID containerID)))
        ∧ s' = s)
       ∨ (is_Some (pods s !! CID_PodID containerID)
          ∧ err = None
          ∧ GetContainer containerID s'
            = Some (NewContainerState request
                      match GetContainer containerID s with
                      | Some container => aggregator container
                      | None => ContainerStateAggregatorProxy containerID
                      end)))
    ∧ (∀ containerID',
         containerID' ≠ containerID →
         GetContainer containerID' s' = GetContainer containerID' s).
Proof. apply AddOrUpdateContainer_cases. Qed.

Lemma alter_fixed {K A} `{Countable K} (f : A → A) (m : gmap K A) i :
  (∀ x, m !! i = Some x → f x = x) → alter f i m = m.
Proof.
  intros Hf. apply map_eq. intros j. destruct (decide (j = i)) as [->|Hne].
  - rewrite lookup_alter_eq. destruct (m !! i) as [x|] eqn:Hx; [|done].
    simpl. by rewrite Hf.
  - by rewrite lookup_alter_ne.
Qed.

Lemma set_pods_fixed (f : gmap PodID PodState → gmap PodID PodState)
    (s : clusterState) :
  f (pods s) = pods s → set_pods f s = s.
Proof. destruct s. unfold set_pods. simpl. by intros ->. Qed.

(** X2: [AddOrUpdateContainer] is idempotent: a second call with the same
    container ID and request returns what the first returned and leaves
    the state of the first as it is. *)
Theorem X2_AddOrUpdateContainer_idempotent (containerID : ContainerID)
    (request : gmap string Z) (s : clusterState) :
  ∃ err s',
    AddOrUpdateContainer containerID request s = Done err s'
    ∧ AddOrUpdateContainer containerID request s' = Done err s'.
Proof.
  destruct (AddOrUpdateContainer_cases containerID request s)
    as (err & s' & Hrun & Hcase & _).
  exists err, s'. split; [done|].
  destruct Hcase as [(_ & _ & ->)|(_ & -> & Hget)]; [done|].
  unfold AddOrUpdateContainer. unfold GetContainer in Hget.
  destruct (pods s' !! CID_PodID containerID) as [pod'|] eqn:Hp'; [|done].
  rewrite Hget. f_equal. apply set_pods_fixed, alter_fixed.
  intros pod Hpod. assert (pod = pod') as -> by congruence.
  destruct pod' as [i k cs ics ph]. unfold set_Containers. simpl in *.
  f_equal. apply alter_fixed. intros c Hc.
  rewrite Hget in Hc. by injection Hc as <-.
Qed.

End Containers.

Section Pods.
Context `{LA : LabelsAPI} `{AA : AggregationAPI} `{MI : MapIteration}.

Lemma set_PodCount_links (f : Z → Z) (vpa : Vpa) :
  aggregateContainerStates (set_PodCount f vpa) = aggregateContainerStates vpa.
Proof. done. Qed.

(** X3: [DeletePod] never panics and removes the pod from the registry,
    with its containers.  It leaves the aggregation index, the
    aggregations, the label set map and the links of the policy objects
    as they are, and on a pod that is not registered it changes
    nothing. *)
Theorem X3_DeletePod (podID : PodID) (s : clusterState) :
  ∃ s',
    DeletePod podID s = Done tt s'
    ∧ Pods s' = delete podID (Pods s)
    ∧ (∀ containerName,
         GetContainer (mkContainerID podID containerName) s' = None)
    ∧ aggregateStateMap s' = aggregateStateMap s
    ∧ StateMapSize s' = StateMapSize s
    ∧ heap s' = heap s
    ∧ labelSetMap s' = labelSetMap s
    ∧ aggregateContainerStates <$> VPAs s'
      = aggregateContainerStates <$> VPAs s
    ∧ (pods s !! podID = None → s' = s).
Proof.
  unfold DeletePod, bind, modify, ret, removePodFromItsVpa, Pods, VPAs,
    StateMapSize, GetContainer.
  destruct (pods s !! podID) as [pod|] eqn:Hp.
  - eexists. split; [done|]. simpl. rewrite lookup_delete_eq.
    repeat (split; [done|]). split; [|done].
    rewrite <- map_fmap_compose. apply map_fmap_ext. intros vpaID vpa _.
    simpl. by destruct (podMatchesVpa _ _ _).
  - eexists. split; [done|]. simpl. rewrite lookup_delete_eq.
    repeat (split; [done|]). intros _. apply set_pods_fixed.
    by apply delete_id.
Qed.

Lemma set_PodCount_undo (vpa : Vpa) :
  set_PodCount (λ n, n - 1) (set_PodCount (λ n, n + 1) vpa) = vpa.
Proof.
  destruct vpa. unfold set_PodCount. simpl. f_equal. lia.
Qed.

(** X4: registering a pod that is new and deleting it again restores the
    registries, the pod counts, the index and the aggregations; of the
    call only the label set of the pod is left, in the label set map. *)
Theorem X4_add_then_delete (podID : PodID) (newLabels : LabelSet)
    (phase : string) (s : clusterState) :
  pods s !! podID = None →
  ∃ s1,
    AddOrUpdatePod podID newLabels phase s = Done tt s1
    ∧ DeletePod podID s1
      = Done tt (set_labelSetMap <[Set_String newLabels := newLabels]> s).
Proof.
  intros Hp. rewrite (AddOrUpdatePod_new _ _ _ _ Hp).
  eexists. split; [done|].
  unfold DeletePod, bind, modify, ret, removePodFromItsVpa. simpl.
  rewrite lookup_insert_eq. f_equal.
  destruct s as [ps vs es os idx lm gc gi h]. simpl in *.
  unfold set_pods, set_vpas, set_labelSetMap. simpl. f_equal.
  - by apply delete_insert_id.
  - rewrite <- map_fmap_compose. rewrite <- (map_fmap_id vs) at 2.
    apply map_fmap_ext. intros vpaID vpa _. simpl.
    unfold podMatchesVpa. simpl.
    destruct (PodLabelsMatchVPA _ _ (VpaID_Namespace (vpa_ID vpa))
                (PodSelector vpa)) eqn:Hm; simpl; rewrite Hm; [|done].
    apply set_PodCount_undo.
Qed.

End Pods.

Section Pods_runs.
#[local] Existing Instances Demo.labels Demo.aggregations Demo.order.

(** The pod [ns/p2] is new in the state that the run [Demo.active]
    leaves. *)
Lemma X4_witness :
  let s := Demo.final Demo.active in
  pods s !! Demo.p2 = None
  ∧ ∃ s1,
      AddOrUpdatePod Demo.p2 "app=bar" "Running" s = Done tt s1
      ∧ DeletePod Demo.p2 s1
        = Done tt (set_labelSetMap <["app=bar" := "app=bar"]> s).
Proof.
  intros s.
  assert (H : pods s !! Demo.p2 = None) by (vm_compute; reflexivity).
  split; [exact H|].
  exact (X4_add_then_delete Demo.p2 ("app=bar" : @LabelSet Demo.labels)
           "Running" s H).
Defined.

End Pods_runs.

(** ** What [AddOrUpdatePod] writes *)

Section PodEffects.
Context `{LA : LabelsAPI} `{AA : AggregationAPI} `{MI : MapIteration}.

Lemma fresh_heap (h : gmap positive AggregateContainerState) :
  h !! fresh (dom h) = None.
Proof. apply not_elem_of_dom, is_fresh. Qed.

Lemma findOrCreate_effect (containerID : ContainerID) (s s' : clusterState) l :
  findOrCreateAggregateContainerState containerID s = Done l s' →
  pods s' = pods s
  ∧ labelSetMap s' = labelSetMap s
  ∧ bookkeeping s' = bookkeeping s
  ∧ heap s ⊆ heap s'
  ∧ aggregateStateMap s ⊆ aggregateStateMap s'
  ∧ vpaData <$> vpas s' = vpaData <$> vpas s
  ∧ PodCount <$> vpas s' = PodCount <$> vpas s.
Proof.
  intros Hrun. apply findOrCreate_cases in Hrun as (pod & Hp & Hcase).
  simpl in Hcase. destruct Hcase as [[_ ->]|(Hkey & -> & ->)]; [done|].
  simpl. repeat (split; [done|]).
  split; [apply insert_subseteq, fresh_heap|].
  split; [by apply insert_subseteq|].
  split; rewrite <- map_fmap_compose; apply map_fmap_ext;
    intros vpaID vpa _; simpl; unfold UseAggregationIfMatching;
    destruct (UsesAggregation _ _); try done;
    by destruct (matchesAggregation _ _ _).
Qed.

Lemma podData_relinked (pod : PodState) name a :
  podData (set_Containers (alter (set_aggregator a) name) pod) = podData pod.
Proof.
  unfold podData. simpl. f_equal. apply map_eq. intros name'.
  rewrite !lookup_fmap. destruct (decide (name' = name)) as [->|Hne].
  - rewrite lookup_alter_eq. by destruct (Containers pod !! name).
  - by rewrite lookup_alter_ne.
Qed.

(** The loop of [AddOrUpdatePod] over the containers of the pod. *)
Lemma relinkLoop_effect (podID : PodID) (names : list string) :
  ∀ (s : clusterState) (pod : PodState),
    pods s !! podID = Some pod →
    ∃ s' pod',
      forM_ (relinkContainer podID) names s = Done tt s'
      ∧ pods s' !! podID = Some pod'
      ∧ podData pod' = podData pod
      ∧ (∀ id, id ≠ podID → pods s' !! id = pods s !! id)
      ∧ labelSetMap s' = labelSetMap s
      ∧ bookkeeping s' = bookkeeping s
      ∧ heap s ⊆ heap s'
      ∧ aggregateStateMap s ⊆ aggregateStateMap s'
      ∧ vpaData <$> vpas s' = vpaData <$> vpas s
      ∧ PodCount <$> vpas s' = PodCount <$> vpas s.
Proof.
  induction names as [|name names IH]; intros s pod Hpod.
  { exists s, pod. by eauto 10. }
  destruct (findOrCreate_spec (mkContainerID podID name) s pod Hpod)
    as (l & s1 & Hrun & _).
  destruct (findOrCreate_effect _ _ _ _ Hrun)
    as (Hp1 & Hl1 & Hb1 & Hh1 & Hi1 & Hv1 & Hc1).
  set (pod1 := set_Containers (alter (set_aggregator (AggregatorPtr l)) name)
                 pod).
  set (s2 := set_pods (alter (set_Containers
                (alter (set_aggregator (AggregatorPtr l)) name)) podID) s1).
  assert (Hpod2 : pods s2 !! podID = Some pod1).
  { simpl. by rewrite lookup_alter_eq, Hp1, Hpod. }
  destruct (IH s2 pod1 Hpod2)
    as (s' & pod' & Hrun' & Hp' & Hd' & Ho' & Hl' & Hb' & Hh' & Hi' & Hv'
        & Hc').
  exists s', pod'. split.
  { simpl. unfold bind at 1. unfold relinkContainer, bind, modify.
    simpl. by rewrite Hrun. }
  split; [done|]. split; [rewrite Hd'; apply podData_relinked|].
  split.
  { intros id Hid. rewrite (Ho' id Hid). simpl.
    by rewrite lookup_alter_ne, Hp1. }
  split; [by rewrite Hl'|]. split; [by rewrite Hb'|].
  split; [by etrans|]. split; [by etrans|].
  split; [by rewrite Hv'|by rewrite Hc'].
Qed.

Lemma podData_fields (pod pod' : PodState) :
  podData pod' = podData pod ↔
  ID pod' = ID pod ∧ pod_labelSetKey pod' = pod_labelSetKey pod
  ∧ InitContainers pod' = InitContainers pod ∧ Phase pod' = Phase pod
  ∧ Request <$> Containers pod' = Request <$> Containers pod.
Proof.
  unfold podData. split.
  - by intros [= -> -> -> -> ->].
  - by intros (-> & -> & -> & -> & ->).
Qed.

Lemma adjust_vpaData (b : Vpa → bool) (g : Z → Z) (m : gmap VpaID Vpa) :
  vpaData <$> ((λ vpa, if b vpa then set_PodCount g vpa else vpa) <$> m)
  = vpaData <$> m.
Proof.
  rewrite <- map_fmap_compose. apply map_fmap_ext. intros vpaID vpa _.
  simpl. by destruct (b vpa).
Qed.

Lemma adjust_links (b : Vpa → bool) (g : Z → Z) (m : gmap VpaID Vpa) :
  aggregateContainerStates
    <$> ((λ vpa, if b vpa then set_PodCount g vpa else vpa) <$> m)
  = aggregateContainerStates <$> m.
Proof.
  rewrite <- map_fmap_compose. apply map_fmap_ext. intros vpaID vpa _.
  simpl. by destruct (b vpa).
Qed.

(** What [AddOrUpdatePod] does to the state: it returns, the pod is
    registered with the phase and the label set key of the call and is
    otherwise the pod it was (a pod without containers if it is new) but
    for the aggregators of its containers; the label set is in the label
    set map; no other pod, no aggregation and no entry of the index is
    changed; the policy objects change by their pod counts and links
    only. *)
Lemma AddOrUpdatePod_effect (podID : PodID) (newLabels : LabelSet)
    (phase : string) (s : clusterState) :
  ∃ s' pod',
    AddOrUpdatePod podID newLabels phase s = Done tt s'
    ∧ pods s' !! podID = Some pod'
    ∧ podData pod'
      = podData (set_Phase phase
                   (set_pod_labelSetKey (Set_String newLabels)
                      (default (newPod podID) (pods s !! podID))))
    ∧ (∀ id, id ≠ podID → pods s' !! id = pods s !! id)
    ∧ labelSetMap s' = <[Set_String newLabels := newLabels]> (labelSetMap s)
    ∧ bookkeeping s' = bookkeeping s
    ∧ heap s ⊆ heap s'
    ∧ aggregateStateMap s ⊆ aggregateStateMap s'
    ∧ vpaData <$> vpas s' = vpaData <$> vpas s.
Proof.
  destruct (pods s !! podID) as [pod|] eqn:Hp.
  - destruct (decide (pod_labelSetKey pod = Set_String newLabels)) as [Hk|Hk].
    + rewrite (AddOrUpdatePod_same _ _ _ _ _ Hp Hk).
      eexists _, (set_Phase phase pod). split; [done|]. simpl.
      split; [by rewrite lookup_alter_eq, Hp|].
      split; [unfold podData; simpl; by rewrite Hk|].
      split; [intros id Hid; by rewrite lookup_alter_ne|]. done.
    + rewrite (AddOrUpdatePod_changed _ _ phase _ _ Hp Hk).
      set (k := Set_String newLabels).
      set (s1 := set_labelSetMap <[k := newLabels]> s).
      set (s2 := set_vpas _ s1). set (s3 := set_pods _ s2).
      assert (Hp3 : pods s3 !! podID = Some (set_pod_labelSetKey k pod)).
      { simpl. by rewrite lookup_alter_eq, Hp. }
      destruct (relinkLoop_effect podID
                  (rangeOrder ((map_to_list (Containers pod)).*1)) s3 _ Hp3)
        as (s4 & pod4 & Hrun & Hp4 & Hd4 & Ho4 & Hl4 & Hb4 & Hh4 & Hi4 & Hv4
            & _).
      unfold bind at 1. unfold bind at 1. rewrite Hrun.
      unfold addPodToItsVpa, modify.
      eexists _, (set_Phase phase pod4). split; [done|]. simpl.
      split; [by rewrite lookup_alter_eq, Hp4|].
      split.
      { apply podData_fields in Hd4 as (? & ? & ? & ? & ?).
        apply podData_fields. simpl. done. }
      split.
      { intros id Hid. rewrite lookup_alter_ne, (Ho4 id) by done. simpl.
        by rewrite lookup_alter_ne. }
      split; [exact Hl4|]. split; [exact Hb4|].
      split; [exact Hh4|]. split; [exact Hi4|].
      rewrite adjust_vpaData, Hv4. simpl. apply adjust_vpaData.
  - rewrite (AddOrUpdatePod_new _ _ _ _ Hp).
    eexists _, _. split; [done|]. simpl.
    split; [by rewrite lookup_insert_eq|]. split; [done|].
    split; [intros id Hid; by rewrite lookup_insert_ne|].
    repeat (split; [done|]). apply adjust_vpaData.
Qed.

End PodEffects.

Section PodTheorems.
Context `{LA : LabelsAPI} `{AA : AggregationAPI} `{MI : MapIteration}.

Lemma set_labelSetMap_fixed
    (f : gmap string LabelSet → gmap string LabelSet) (s : clusterState) :
  f (labelSetMap s) = labelSetMap s → set_labelSetMap f s = s.
Proof. destruct s. unfold set_labelSetMap. simpl. by intros ->. Qed.

(** X5: [AddOrUpdatePod] is idempotent: it never panics, and a second call
    with the same pod ID, labels and phase leaves the state of the first
    call as it is. *)
Theorem X5_AddOrUpdatePod_idempotent (podID : PodID) (newLabels : LabelSet)
    (phase : string) (s : clusterState) :
  ∃ s',
    AddOrUpdatePod podID newLabels phase s = Done tt s'
    ∧ AddOrUpdatePod podID newLabels phase s' = Done tt s'.
Proof.
  destruct (AddOrUpdatePod_effect podID newLabels phase s)
    as (s' & pod' & Hrun & Hp' & Hd' & _ & Hl' & _).
  exists s'. split; [done|].
  apply podData_fields in Hd' as (_ & Hk & _ & Hph & _). simpl in Hk, Hph.
  rewrite (AddOrUpdatePod_same _ _ _ _ _ Hp' Hk). f_equal.
  rewrite set_labelSetMap_fixed.
  - apply set_pods_fixed, alter_fixed. intros pod Hpod.
    assert (pod = pod') as -> by congruence.
    destruct pod'. unfold set_Phase. simpl in *. by rewrite Hph.
  - apply insert_id. by rewrite Hl', lookup_insert_eq.
Qed.

(** X6: after [AddOrUpdatePod] the labels of the aggregation keys of the
    pod, as [Labels] reads them from the label set map, are the labels of
    the call: the string that [getLabelSetKey] returned leads back to the
    label set it was made from. *)
Theorem X6_AddOrUpdatePod_Labels (podID : PodID) (newLabels : LabelSet)
    (phase : string) (s : clusterState) :
  ∃ s' pod',
    AddOrUpdatePod podID newLabels phase s = Done tt s'
    ∧ Pods s' !! podID = Some pod'
    ∧ ∀ containerName,
        Labels (labelSetMap s') (MakeAggregateStateKey pod' containerName)
        = newLabels.
Proof.
  destruct (AddOrUpdatePod_effect podID newLabels phase s)
    as (s' & pod' & Hrun & Hp' & Hd' & _ & Hl' & _).
  exists s', pod'. split; [done|]. split; [done|]. intros name.
  apply podData_fields in Hd' as (_ & Hk & _). simpl in Hk.
  unfold Labels, lookupLabels. simpl.
  by rewrite Hk, Hl', lookup_insert_eq.
Qed.

(** X7: [AddOrUpdatePod] writes its own pod only: the pod keeps its ID,
    its init containers and the names and requests of its containers (a
    new pod has no container), every other pod is as it was, no entry
    leaves the aggregation index, and every aggregation that existed is
    unchanged.  The policy objects change by their pod counts and links
    only, and the fields of the cluster state besides the registries, the
    index and the label set map do not change. *)
Theorem X7_AddOrUpdatePod_frame (podID : PodID) (newLabels : LabelSet)
    (phase : string) (s : clusterState) :
  ∃ s' pod',
    AddOrUpdatePod podID newLabels phase s = Done tt s'
    ∧ Pods s' !! podID = Some pod'
    ∧ ID pod' = ID (default (newPod podID) (Pods s !! podID))
    ∧ InitContainers pod'
      = InitContainers (default (newPod podID) (Pods s !! podID))
    ∧ Request <$> Containers pod'
      = Request <$> Containers (default (newPod podID) (Pods s !! podID))
    ∧ (Pods s !! podID = None → Containers pod' = ∅)
    ∧ (∀ id, id ≠ podID → Pods s' !! id = Pods s !! id)
    ∧ aggregateStateMap s ⊆ aggregateStateMap s'
    ∧ (StateMapSize s ≤ StateMapSize s')%nat
    ∧ heap s ⊆ heap s'
    ∧ vpaData <$> VPAs s' = vpaData <$> VPAs s
    ∧ emptyVPAs s' = emptyVPAs s
    ∧ ObservedVPAs s' = ObservedVPAs s
    ∧ lastAggregateContainerStateGC s' = lastAggregateContainerStateGC s
    ∧ gcInterval s' = gcInterval s.
Proof.
  destruct (AddOrUpdatePod_effect podID newLabels phase s)
    as (s' & pod' & Hrun & Hp' & Hd' & Ho' & _ & Hb' & Hh' & Hi' & Hv').
  exists s', pod'. unfold Pods, VPAs, ObservedVPAs, StateMapSize.
  apply podData_fields in Hd' as (Hid & _ & Hic & _ & Hreq).
  simpl in Hid, Hic, Hreq.
  split; [done|]. split; [done|]. split; [done|]. split; [done|].
  split; [done|]. split.
  { intros Hnone. rewrite Hnone in Hreq. simpl in Hreq.
    rewrite fmap_empty in Hreq. by apply fmap_empty_inv in Hreq. }
  split; [done|]. split; [done|].
  split; [by apply map_subseteq_size|].
  split; [done|]. split; [done|].
  unfold bookkeeping in Hb'. by injection Hb' as -> -> -> ->.
Qed.

End PodTheorems.

(** ** The scans of the registries *)

Section Scans.
Context `{LA : LabelsAPI} `{AA : AggregationAPI} `{MI : MapIteration}.

(** X8: [GetMatchingPods] returns, each once, the IDs of the registered
    pods whose namespace and labels match the policy object, whatever the
    phase of the pod; the policy object itself need not be registered. *)
Theorem X8_GetMatchingPods (vpa : Vpa) (s : clusterState) :
  NoDup (GetMatchingPods vpa s)
  ∧ ∀ podID,
      podID ∈ GetMatchingPods vpa s
      ↔ ∃ pod,
          Pods s !! podID = Some pod
          ∧ PodLabelsMatchVPA (PodID_Namespace podID)
              (lookupLabels (labelSetMap s) (pod_labelSetKey pod))
              (VpaID_Namespace (vpa_ID vpa)) (PodSelector vpa) = true.
Proof.
  unfold GetMatchingPods, Pods. split.
  - apply (sublist_NoDup _ ((rangeOrder (map_to_list (pods s))).*1)).
    + rewrite rangeOrder_perm. apply NoDup_fst_map_to_list.
    + apply fmap_sublist, sublist_filter.
  - intros podID. rewrite list_elem_of_fmap. split.
    + intros ([id pod] & -> & Hin).
      apply list_elem_of_filter in Hin as [Hm Hin].
      apply rangeOrder_elem_of, elem_of_map_to_list in Hin. eauto.
    + intros (pod & Hp & Hm). exists (podID, pod). split; [done|].
      apply list_elem_of_filter. split; [done|].
      by apply rangeOrder_elem_of, elem_of_map_to_list.
Qed.

(** X9: in every state that a sequence of operations reaches from a new
    cluster state, the pod count of a registered policy object is the
    length of what [GetMatchingPods] returns for it: the counts that
    [AddOrUpdatePod] and [DeletePod] adjust one by one stay equal to a
    scan of the pod registry. *)
Theorem X9_PodCount_GetMatchingPods (gcInterval : Z) (ops : list op) :
  ∃ s,
    run ops (NewClusterState gcInterval) = Done tt s
    ∧ ∀ vpaID vpa,
        VPAs s !! vpaID = Some vpa →
        PodCount vpa = Z.of_nat (length (GetMatchingPods vpa s)).
Proof.
  destruct (NewClusterState_invariant gcInterval) as [Hinv0 _].
  destruct (run_invariant ops _ Hinv0) as (s & Hrun & (_ & _ & Hcount) & _).
  exists s. split; [done|]. intros vpaID vpa Hv.
  rewrite (Hcount vpaID vpa Hv).
  by rewrite GetMatchingPods_length, matchingPods_count.
Qed.

(** What [GetControllingVPA] returns. *)
Lemma GetControllingVPA_cases (pod : PodState) (s : clusterState) :
  (GetControllingVPA pod s = None
   ↔ ∀ vpaID vpa,
       vpas s !! vpaID = Some vpa →
       podMatchesVpa (labelSetMap s) pod vpa = false)
  ∧ (∀ vpa,
       GetControllingVPA pod s = Some vpa →
       (∃ vpaID, vpas s !! vpaID = Some vpa)
       ∧ podMatchesVpa (labelSetMap s) pod vpa = true).
Proof.
  unfold GetControllingVPA.
  set (l := (rangeOrder (map_to_list (vpas s))).*2).
  assert (Hl : ∀ vpa, vpa ∈ l ↔ ∃ vpaID, vpas s !! vpaID = Some vpa).
  { intros vpa. unfold l. rewrite list_elem_of_fmap. split.
    - intros ([id v] & -> & Hin).
      apply rangeOrder_elem_of, elem_of_map_to_list in Hin. eauto.
    - intros [id Hv]. exists (id, vpa). split; [done|].
      by apply rangeOrder_elem_of, elem_of_map_to_list. }
  split.
  - rewrite head_None. split.
    + intros Hnil vpaID vpa Hv.
      destruct (podMatchesVpa (labelSetMap s) pod vpa) eqn:Hm; [|done].
      assert (Hin : vpa ∈ filter (λ vpa, podMatchesVpa (labelSetMap s) pod vpa
                                         = true) l).
      { apply list_elem_of_filter. split; [done|]. apply Hl. eauto. }
      rewrite Hnil in Hin. by apply not_elem_of_nil in Hin.
    + intros Hno.
      destruct (filter _ l) as [|vpa l'] eqn:Hf; [done|].
      assert (Hin : vpa ∈ filter (λ vpa, podMatchesVpa (labelSetMap s) pod vpa
                                         = true) l).
      { rewrite Hf. left. }
      apply list_elem_of_filter in Hin as [Hm Hin].
      apply Hl in Hin as [vpaID Hv]. by rewrite (Hno _ _ Hv) in Hm.
  - intros vpa Hhead. apply head_Some_elem_of in Hhead.
    apply list_elem_of_filter in Hhead as [Hm Hin]. split; [|done].
    by apply Hl.
Qed.

(** X10: [GetControllingVPA] returns nil exactly when no registered policy
    object matches the namespace and labels of the pod; a policy object
    it returns is registered and matches the pod.  The pod itself need
    not be registered. *)
Theorem X10_GetControllingVPA (pod : PodState) (s : clusterState) :
  (GetControllingVPA pod s = None
   ↔ ∀ vpaID vpa,
       VPAs s !! vpaID = Some vpa →
       PodLabelsMatchVPA (PodID_Namespace (ID pod))
         (lookupLabels (labelSetMap s) (pod_labelSetKey pod))
         (VpaID_Namespace (vpa_ID vpa)) (PodSelector vpa) = false)
  ∧ (∀ vpa,
       GetControllingVPA pod s = Some vpa →
       (∃ vpaID, VPAs s !! vpaID = Some vpa)
       ∧ PodLabelsMatchVPA (PodID_Namespace (ID pod))
           (lookupLabels (labelSetMap s) (pod_labelSetKey pod))
           (VpaID_Namespace (vpa_ID vpa)) (PodSelector vpa) = true).
Proof. apply GetControllingVPA_cases. Qed.

(** The key that [GetControllerForPodUnderVPA] gives to the controller
    fetcher for a policy object. *)
Lemma controller_of_vpa (pod : PodState)
    (controllerFetcher : ControllerKeyWithAPIVersion
                         → option ControllerKeyWithAPIVersion)
    (s : clusterState) :
  GetControllerForPodUnderVPA pod controllerFetcher s
  = vpa ← GetControllingVPA pod s;
    controllerFetcher
      (mkControllerKey (VpaID_Namespace (vpa_ID vpa))
         (ref_Kind (TargetRef vpa)) (ref_Name (TargetRef vpa))
         (ref_APIVersion (TargetRef vpa))).
Proof.
  unfold GetControllerForPodUnderVPA. by destruct (GetControllingVPA pod s).
Qed.

(** X11: [GetControllerForPodUnderVPA] returns nil, whatever the controller
    fetcher, when no registered policy object matches the pod.  A
    controller it returns is the answer of the fetcher for the namespace
    and the target reference of a registered policy object that matches
    the pod; and when the policy objects that match the pod all have one
    namespace and one target reference, it returns the answer of the
    fetcher for them, in whatever order the registry is visited. *)
Theorem X11_GetControllerForPodUnderVPA (pod : PodState)
    (controllerFetcher : ControllerKeyWithAPIVersion
                         → option ControllerKeyWithAPIVersion)
    (s : clusterState) :
  let matches (vpa : Vpa) :=
    PodLabelsMatchVPA (PodID_Namespace (ID pod))
      (lookupLabels (labelSetMap s) (pod_labelSetKey pod))
      (VpaID_Namespace (vpa_ID vpa)) (PodSelector vpa) in
  let key (vpa : Vpa) :=
    mkControllerKey (VpaID_Namespace (vpa_ID vpa))
      (ref_Kind (TargetRef vpa)) (ref_Name (TargetRef vpa))
      (ref_APIVersion (TargetRef vpa)) in
  ((∀ vpaID vpa, VPAs s !! vpaID = Some vpa → matches vpa = false) →
   GetControllerForPodUnderVPA pod controllerFetcher s = None)
  ∧ (∀ controller,
       GetControllerForPodUnderVPA pod controllerFetcher s = Some controller →
       ∃ vpaID vpa,
         VPAs s !! vpaID = Some vpa ∧ matches vpa = true
         ∧ controllerFetcher (key vpa) = Some controller)
  ∧ (∀ vpaID vpa,
       VPAs s !! vpaID = Some vpa → matches vpa = true →
       (∀ vpaID' vpa',
          VPAs s !! vpaID' = Some vpa' → matches vpa' = true →
          key vpa' = key vpa) →
       GetControllerForPodUnderVPA pod controllerFetcher s
       = controllerFetcher (key vpa)).
Proof.
  intros matches key. rewrite controller_of_vpa.
  destruct (GetControllingVPA_cases pod s) as [Hnone Hsome].
  destruct (GetControllingVPA pod s) as [vpa0|] eqn:Hget; simpl.
  - destruct (Hsome vpa0 eq_refl) as [[vpaID0 Hv0] Hm0].
    split; [|split].
    + intros Hno. specialize (Hno _ _ Hv0). unfold matches in Hno.
      unfold podMatchesVpa in Hm0. congruence.
    + intros controller Hc. by exists vpaID0, vpa0.
    + intros vpaID vpa Hv Hm Hall. f_equal. exact (Hall _ _ Hv0 Hm0).
  - split; [done|]. split; [done|].
    intros vpaID vpa Hv Hm _.
    destruct Hnone as [Hnone _]. specialize (Hnone eq_refl _ _ Hv).
    unfold matches in Hm. unfold podMatchesVpa in Hnone. congruence.
Qed.


End Scans.

(** ** Policy objects *)

Section VpaEffects.
Context `{LA : LabelsAPI} `{AA : AggregationAPI} `{MI : MapIteration}.

(** The loop of [AddOrUpdateVpa] over the conditions of the API object:
    of the conditions of one type the last one stays. *)
Lemma conditionsMapOf_lookup (conditions : list VerticalPodAutoscalerCondition)
    (t : string) :
  conditionsMapOf conditions !! t
  = last (filter (λ c, cond_Type c = t) conditions).
Proof.
  unfold conditionsMapOf.
  induction conditions as [|c conditions IH] using rev_ind.
  { apply lookup_empty. }
  rewrite foldl_app, filter_app. simpl.
  rewrite filter_cons, filter_nil.
  destruct (decide (cond_Type c = t)) as [<-|Hne].
  - by rewrite lookup_insert_eq, last_snoc.
  - by rewrite lookup_insert_ne, app_nil_r.
Qed.

Lemma set_vpas_insert_fixed (vpaID : VpaID) (vpa : Vpa) (s : clusterState) :
  vpas s !! vpaID = Some vpa → set_vpas <[vpaID := vpa]> s = s.
Proof.
  intros Hv. destruct s. unfold set_vpas. simpl in *. f_equal.
  by apply insert_id.
Qed.

(** The state in which [AddOrUpdateVpa] ends: [s0] is the state after the
    policy object was deleted, if its selector changed. *)
Lemma AddOrUpdateVpa_closed_form (apiObject : VerticalPodAutoscaler)
    (selector : Selector) (s : clusterState) :
  let vpaID := mkVpaID (api_Namespace apiObject) (api_Name apiObject) in
  let conditionsMap := conditionsMapOf (api_Conditions apiObject) in
  let currentRecommendation :=
    currentRecommendationOf apiObject conditionsMap in
  ∃ s0 vpa0,
    match vpas s !! vpaID with
    | Some vpa =>
        if bool_decide (Selector_String (PodSelector vpa)
                        ≠ Selector_String selector)
        then DeleteVpa vpaID s = Done None s0
             ∧ vpa0 = seededVpa s0 vpaID selector
                        (api_CreationTimestamp apiObject)
        else s0 = s ∧ vpa0 = vpa
    | None =>
        s0 = s
        ∧ vpa0 = seededVpa s0 vpaID selector (api_CreationTimestamp apiObject)
    end
    ∧ Selector_String (PodSelector vpa0) = Selector_String selector
    ∧ AddOrUpdateVpa apiObject selector s
      = Done None
          (set_vpas <[vpaID := refreshVpa apiObject conditionsMap
                                 currentRecommendation vpa0]> s0).
Proof.
  intros vpaID conditionsMap currentRecommendation.
  assert (Hcreate : ∀ s0,
    (createVpa vpaID selector (api_CreationTimestamp apiObject) ;;;
     modify (set_vpas (alter (refreshVpa apiObject conditionsMap
                                currentRecommendation) vpaID)) ;;;
     ret (None : option error)) s0
    = Done None
        (set_vpas <[vpaID := refreshVpa apiObject conditionsMap
                               currentRecommendation
                               (seededVpa s0 vpaID selector
                                  (api_CreationTimestamp apiObject))]> s0)).
  { intros s0. unfold bind at 1. rewrite createVpa_spec.
    unfold bind, modify, ret. f_equal.
    unfold set_vpas. simpl. f_equal.
    by rewrite alter_insert_eq. }
  unfold AddOrUpdateVpa. fold vpaID conditionsMap currentRecommendation.
  destruct (vpas s !! vpaID) as [vpa|] eqn:Hv.
  - case_bool_decide as Hsel.
    + unfold bind at 1. unfold DeleteVpa at 1 2. rewrite Hv.
      eexists _, _. split; [done|]. split; [done|]. by rewrite Hcreate.
    + exists s, vpa. split; [done|].
      split; [by destruct (decide (Selector_String (PodSelector vpa)
                                   = Selector_String selector))|].
      unfold bind, modify, ret. f_equal. unfold set_vpas. f_equal.
      by apply alter_insert_lookup.
  - eexists _, _. split; [done|]. split; [done|]. by rewrite Hcreate.
Qed.

Lemma currentRecommendationOf_last (apiObject : VerticalPodAutoscaler) :
  currentRecommendationOf apiObject
    (conditionsMapOf (api_Conditions apiObject))
  = if bool_decide
         (cond_Status
            <$> last (filter (λ c, cond_Type c = RecommendationProvided)
                        (api_Conditions apiObject))
          = Some ConditionTrue)
    then api_Recommendation apiObject else None.
Proof.
  unfold currentRecommendationOf. rewrite conditionsMapOf_lookup.
  destruct (last _) as [c|]; simpl; [|done].
  destruct (decide (cond_Status c = ConditionTrue)) as [Hc|Hc].
  - by rewrite !bool_decide_eq_true_2 by congruence.
  - by rewrite !bool_decide_eq_false_2 by congruence.
Qed.

(** X13: [AddOrUpdateVpa] keeps, of the conditions of the API object that
    have one type, the last: the conditions of the policy object map each
    type to the last condition of that type in the list.  The policy
    object gets the recommendation of the API object when the last
    condition of type RecommendationProvided has the status True, and no
    recommendation otherwise, also when the API object carries one. *)
Theorem X13_AddOrUpdateVpa_conditions (apiObject : VerticalPodAutoscaler)
    (selector : Selector) (s : clusterState) :
  let vpaID := mkVpaID (api_Namespace apiObject) (api_Name apiObject) in
  ∃ s' vpa',
    AddOrUpdateVpa apiObject selector s = Done None s'
    ∧ VPAs s' !! vpaID = Some vpa'
    ∧ (∀ t, Conditions vpa' !! t
            = last (filter (λ c, cond_Type c = t)
                      (api_Conditions apiObject)))
    ∧ Recommendation vpa'
      = if bool_decide
             (cond_Status
                <$> last (filter (λ c, cond_Type c = RecommendationProvided)
                            (api_Conditions apiObject))
              = Some ConditionTrue)
        then api_Recommendation apiObject else None.
Proof.
  intros vpaID.
  destruct (AddOrUpdateVpa_closed_form apiObject selector s)
    as (s0 & vpa0 & _ & _ & Hrun).
  eexists _, _. split; [exact Hrun|]. unfold VPAs. simpl.
  split; [by rewrite lookup_insert_eq|]. simpl.
  split; [intros t; apply conditionsMapOf_lookup|].
  apply currentRecommendationOf_last.
Qed.

(** X14: [AddOrUpdateVpa] is idempotent: it returns no error, and a second
    call with the same API object and selector leaves the state of the
    first call as it is; the policy object is not created anew and its
    aggregations are not marked. *)
Theorem X14_AddOrUpdateVpa_idempotent (apiObject : VerticalPodAutoscaler)
    (selector : Selector) (s : clusterState) :
  ∃ s',
    AddOrUpdateVpa apiObject selector s = Done None s'
    ∧ AddOrUpdateVpa apiObject selector s' = Done None s'.
Proof.
  destruct (AddOrUpdateVpa_closed_form apiObject selector s)
    as (s0 & vpa0 & _ & Hsel & Hrun).
  eexists. split; [exact Hrun|].
  set (vpaID := mkVpaID (api_Namespace apiObject) (api_Name apiObject)).
  set (vpa' := refreshVpa _ _ _ vpa0).
  set (s' := set_vpas <[vpaID := vpa']> s0).
  assert (Hv' : vpas s' !! vpaID = Some vpa').
  { simpl. by rewrite lookup_insert_eq. }
  destruct (AddOrUpdateVpa_closed_form apiObject selector s')
    as (s1 & vpa1 & Hcase & _ & Hrun').
  fold vpaID in Hcase, Hrun'. rewrite Hv' in Hcase.
  rewrite bool_decide_eq_false_2 in Hcase by (intros Hne; by apply Hne).
  destruct Hcase as [-> ->]. rewrite Hrun'. f_equal.
  apply set_vpas_insert_fixed. exact Hv'.
Qed.

End VpaEffects.

Section Tracking.
Context `{LA : LabelsAPI} `{AA : AggregationAPI} `{MI : MapIteration}.

(** X15: [RecordRecommendation] never panics and writes nothing but the
    entry of the ID of the policy object in [emptyVPAs]; it does not look
    the policy object up in the registry.  On a policy object that is not
    tracked it returns no error: it starts to track it at [now] if the
    recommendation is nil or has no container recommendation, and leaves
    it untracked otherwise.  Whenever it returns an error the policy
    object was tracked before the call and is tracked at [now] after
    it. *)
Theorem X15_RecordRecommendation (vpa : Vpa) (now : Z) (s : clusterState) :
  ∃ err s',
    RecordRecommendation vpa now s = Done err s'
    ∧ s' = set_emptyVPAs (λ _, emptyVPAs s') s
    ∧ (∀ vpaID, vpaID ≠ vpa_ID vpa →
                emptyVPAs s' !! vpaID = emptyVPAs s !! vpaID)
    ∧ (emptyVPAs s !! vpa_ID vpa = None →
       err = None
       ∧ emptyVPAs s' !! vpa_ID vpa
         = match Recommendation vpa with
           | Some (_ :: _) => None
           | _ => Some now
           end)
    ∧ (err ≠ None →
       is_Some (emptyVPAs s !! vpa_ID vpa)
       ∧ emptyVPAs s' !! vpa_ID vpa = Some now).
Proof.
  unfold RecordRecommendation, hasRecommendation.
  assert (Hfix : ∀ f, set_emptyVPAs f s
                      = set_emptyVPAs (λ _, emptyVPAs (set_emptyVPAs f s)) s)
    by done.
  assert (Hid : s = set_emptyVPAs (λ _, emptyVPAs s) s) by by destruct s.
  destruct (Recommendation vpa) as [[|r l]|] eqn:Hrec; simpl.
  - destruct (emptyVPAs s !! vpa_ID vpa) as [t0|] eqn:Ht.
    + destruct (Time_Before _ _); eexists _, _; (split; [done|]); simpl.
      * split; [done|]. split; [by intros; rewrite lookup_insert_ne|].
        split; [done|]. intros _. by rewrite lookup_insert_eq.
      * split; [done|]. by split; [|split].
    + eexists _, _. split; [done|]. simpl. split; [done|].
      split; [by intros; rewrite lookup_insert_ne|].
      split; [by rewrite lookup_insert_eq|done].
  - eexists _, _. split; [done|]. simpl. split; [done|].
    split; [by intros; rewrite lookup_delete_ne|].
    split; [by rewrite lookup_delete_eq|done].
  - destruct (emptyVPAs s !! vpa_ID vpa) as [t0|] eqn:Ht.
    + destruct (Time_Before _ _); eexists _, _; (split; [done|]); simpl.
      * split; [done|]. split; [by intros; rewrite lookup_insert_ne|].
        split; [done|]. intros _. by rewrite lookup_insert_eq.
      * split; [done|]. by split; [|split].
    + eexists _, _. split; [done|]. simpl. split; [done|].
      split; [by intros; rewrite lookup_insert_ne|].
      split; [by rewrite lookup_insert_eq|done].
Qed.

(** X16: a policy object whose selector changes is no longer tracked as
    missing its recommendation: [AddOrUpdateVpa] deletes the entry of its
    ID from [emptyVPAs] when the string of the selector differs from that
    of the registered policy object, and leaves [emptyVPAs] as it is in
    every other case.  After [DeleteVpa], or such a change of selector, a
    call of [RecordRecommendation] for the ID returns no error, however
    long the recommendation was missing before. *)
Theorem X16_tracking_restarts (apiObject : VerticalPodAutoscaler)
    (selector : Selector) (s : clusterState) :
  let vpaID := mkVpaID (api_Namespace apiObject) (api_Name apiObject) in
  let selectorChanged :=
    match VPAs s !! vpaID with
    | Some vpa =>
        bool_decide (Selector_String (PodSelector vpa)
                     ≠ Selector_String selector)
    | None => false
    end in
  (∃ s',
     AddOrUpdateVpa apiObject selector s = Done None s'
     ∧ emptyVPAs s'
       = if selectorChanged then delete vpaID (emptyVPAs s) else emptyVPAs s)
  ∧ (∀ s' vpa now,
       (selectorChanged = true
        ∧ AddOrUpdateVpa apiObject selector s = Done None s')
       ∨ DeleteVpa vpaID s = Done None s' →
       vpa_ID vpa = vpaID →
       ∃ s'', RecordRecommendation vpa now s' = Done None s'').
Proof.
  intros vpaID selectorChanged.
  destruct (AddOrUpdateVpa_closed_form apiObject selector s)
    as (s0 & vpa0 & Hcase & _ & Hrun).
  fold vpaID in Hcase, Hrun.
  assert (Hdel : ∀ s1, DeleteVpa vpaID s = Done None s1 →
                       emptyVPAs s1 = delete vpaID (emptyVPAs s)).
  { intros s1. unfold DeleteVpa. destruct (vpas s !! vpaID); [|done].
    by intros [= <-]. }
  assert (Hempty : emptyVPAs s0
                   = if selectorChanged then delete vpaID (emptyVPAs s)
                     else emptyVPAs s).
  { subst selectorChanged. unfold VPAs.
    destruct (vpas s !! vpaID) as [vpa|]; [|by destruct Hcase as [-> _]].
    destruct (bool_decide _); [|by destruct Hcase as [-> _]].
    destruct Hcase as [Hrun0 _]. by apply Hdel. }
  split.
  { eexists. split; [exact Hrun|]. exact Hempty. }
  intros s' vpa now Hs' Hid.
  assert (Hnone : emptyVPAs s' !! vpa_ID vpa = None).
  { rewrite Hid. destruct Hs' as [[Hch Hrun']|Hrun'].
    - rewrite Hrun in Hrun'. injection Hrun' as <-. simpl.
      rewrite Hempty, Hch. apply lookup_delete_eq.
    - rewrite (Hdel _ Hrun'). apply lookup_delete_eq. }
  unfold RecordRecommendation. rewrite Hnone.
  destruct (hasRecommendation vpa); eauto.
Qed.

End Tracking.

(** ** What each operation writes *)

Section Writes.
Context `{LA : LabelsAPI} `{AA : AggregationAPI} `{MI : MapIteration}.

(** A sample or an OOM event that the aggregation accepted is stored. *)
Lemma forward_effect {A} (a : ContainerStateAggregator)
    (a' : AggregateContainerState) (r r' : A) (s s' : clusterState) :
  (l <- aggregatorLoc a ;; modify (store l a') ;;; ret r) s = Done r' s' →
  pods s' = pods s
  ∧ labelSetMap s' = labelSetMap s
  ∧ bookkeeping s' = bookkeeping s
  ∧ dom (heap s) ⊆ dom (heap s')
  ∧ aggregateStateMap s ⊆ aggregateStateMap s'
  ∧ dom (vpas s') = dom (vpas s).
Proof.
  unfold bind, modify, ret.
  destruct (aggregatorLoc a s) as [l s1|msg] eqn:Hloc; [|done].
  intros [= _ <-]. simpl.
  destruct a as [containerID|l0]; simpl in Hloc.
  - apply findOrCreate_effect in Hloc as (-> & -> & Hb & Hh & Hi & Hv & _).
    split; [done|]. split; [done|]. split; [done|].
    split; [|split; [done|]].
    + rewrite dom_insert. apply subseteq_dom in Hh. set_solver.
    + apply (f_equal dom) in Hv. by rewrite !dom_fmap_L in Hv.
  - injection Hloc as <- <-. repeat (split; [done|]).
    split; [|done]. rewrite dom_insert. set_solver.
Qed.

Lemma AddSample_effect (sample : ContainerUsageSampleWithKey)
    (s s' : clusterState) err :
  AddSample sample s = Done err s' →
  pods s' = pods s
  ∧ labelSetMap s' = labelSetMap s
  ∧ bookkeeping s' = bookkeeping s
  ∧ dom (heap s) ⊆ dom (heap s')
  ∧ aggregateStateMap s ⊆ aggregateStateMap s'
  ∧ dom (vpas s') = dom (vpas s).
Proof.
  unfold AddSample.
  destruct (pods s !! _) as [pod|]; [|by intros [= _ <-]].
  destruct (Containers pod !! _) as [c|]; [|by intros [= _ <-]].
  unfold bind at 1. unfold ContainerState_AddSample.
  destruct (acceptSample _ _) as [a'|]; [|by intros [= _ <-]].
  destruct ((l <- aggregatorLoc (aggregator c) ;; modify (store l a') ;;;
             ret true) s) as [ok s1|msg] eqn:Hf; [|done].
  apply forward_effect in Hf. destruct ok; simpl; by intros [= _ <-].
Qed.

Lemma RecordOOM_effect (containerID : ContainerID) (timestamp : Z)
    (requestedMemory : Z) (s s' : clusterState) err :
  RecordOOM containerID timestamp requestedMemory s = Done err s' →
  pods s' = pods s
  ∧ labelSetMap s' = labelSetMap s
  ∧ bookkeeping s' = bookkeeping s
  ∧ dom (heap s) ⊆ dom (heap s')
  ∧ aggregateStateMap s ⊆ aggregateStateMap s'
  ∧ dom (vpas s') = dom (vpas s).
Proof.
  unfold RecordOOM.
  destruct (pods s !! _) as [pod|]; [|by intros [= _ <-]].
  destruct (Containers pod !! _) as [c|]; [|by intros [= _ <-]].
  unfold bind at 1. unfold ContainerState_RecordOOM.
  destruct (acceptOOM _ _ _) as [reason|a']; [by intros [= _ <-]|].
  destruct ((l <- aggregatorLoc (aggregator c) ;; modify (store l a') ;;;
             ret None) s) as [e s1|msg] eqn:Hf; [|done].
  apply forward_effect in Hf. destruct e; simpl; by intros [= _ <-].
Qed.

Lemma markAll_dom (locs : list positive) :
  ∀ h : gmap positive AggregateContainerState,
    dom h ⊆ dom (foldl (λ h state,
                          <[state := MarkNotAutoscaled (deref h state)]> h)
                   h locs).
Proof.
  induction locs as [|l locs IH]; intros h; simpl; [done|].
  etrans; [|apply IH]. rewrite dom_insert. set_solver.
Qed.

Lemma DeleteVpa_effect (vpaID : VpaID) (s s' : clusterState) err :
  DeleteVpa vpaID s = Done err s' →
  pods s' = pods s
  ∧ labelSetMap s' = labelSetMap s
  ∧ observedVPAs s' = observedVPAs s
  ∧ lastAggregateContainerStateGC s' = lastAggregateContainerStateGC s
  ∧ gcInterval s' = gcInterval s
  ∧ dom (heap s) ⊆ dom (heap s')
  ∧ aggregateStateMap s' = aggregateStateMap s
  ∧ dom (vpas s') = dom (vpas s) ∖ {[vpaID]}.
Proof.
  unfold DeleteVpa. destruct (vpas s !! vpaID) as [vpa|] eqn:Hv.
  - intros [= _ <-]. simpl. repeat (split; [done|]).
    split; [apply markAll_dom|]. split; [done|]. by rewrite dom_delete_L.
  - intros [= _ <-]. repeat (split; [done|]).
    apply not_elem_of_dom in Hv. set_solver.
Qed.

Lemma AddOrUpdateVpa_effect (apiObject : VerticalPodAutoscaler)
    (selector : Selector) (s s' : clusterState) err :
  AddOrUpdateVpa apiObject selector s = Done err s' →
  pods s' = pods s
  ∧ labelSetMap s' = labelSetMap s
  ∧ observedVPAs s' = observedVPAs s
  ∧ lastAggregateContainerStateGC s' = lastAggregateContainerStateGC s
  ∧ gcInterval s' = gcInterval s
  ∧ dom (heap s) ⊆ dom (heap s')
  ∧ aggregateStateMap s' = aggregateStateMap s
  ∧ dom (vpas s')
    = {[mkVpaID (api_Namespace apiObject) (api_Name apiObject)]}
      ∪ dom (vpas s).
Proof.
  destruct (AddOrUpdateVpa_closed_form apiObject selector s)
    as (s0 & vpa0 & Hcase & _ & Hrun).
  rewrite Hrun. intros [= _ <-]. simpl.
  set (vpaID := mkVpaID (api_Namespace apiObject) (api_Name apiObject))
    in *.
  assert (H0 : pods s0 = pods s
    ∧ labelSetMap s0 = labelSetMap s
    ∧ observedVPAs s0 = observedVPAs s
    ∧ lastAggregateContainerStateGC s0 = lastAggregateContainerStateGC s
    ∧ gcInterval s0 = gcInterval s
    ∧ dom (heap s) ⊆ dom (heap s0)
    ∧ aggregateStateMap s0 = aggregateStateMap s
    ∧ {[vpaID]} ∪ dom (vpas s0) = {[vpaID]} ∪ dom (vpas s)).
  { destruct (vpas s !! vpaID) as [vpa|] eqn:Hv;
      [|by destruct Hcase as [-> _]].
    destruct (bool_decide _); [|by destruct Hcase as [-> _]].
    destruct Hcase as [Hdel _].
    apply DeleteVpa_effect in Hdel
      as (? & ? & ? & ? & ? & ? & ? & Hdom).
    repeat (split; [done|]). rewrite Hdom.
    apply set_eq. intros x. rewrite !elem_of_union, elem_of_difference.
    destruct (decide (x ∈ ({[vpaID]} : gset VpaID))); naive_solver. }
  destruct H0 as (? & ? & ? & ? & ? & ? & ? & Hdom).
  repeat (split; [done|]). by rewrite dom_insert_L.
Qed.

Lemma garbageCollect_effect (now : Z)
    (controllerFetcher : ControllerKeyWithAPIVersion
                         → option ControllerKeyWithAPIVersion)
    (s s' : clusterState) :
  garbageCollectAggregateCollectionStates now controllerFetcher s
  = Done tt s' →
  pods s' = pods s
  ∧ labelSetMap s' = labelSetMap s
  ∧ bookkeeping s' = bookkeeping s
  ∧ heap s' = heap s
  ∧ aggregateStateMap s' ⊆ aggregateStateMap s
  ∧ dom (vpas s') = dom (vpas s).
Proof.
  destruct (garbageCollect_spec now controllerFetcher s)
    as (s1 & Hrun & Hp & Hl & He & Ho & Hh & Hgc & Hgi & Hidx & Hv).
  rewrite Hrun. intros [= <-].
  split; [done|]. split; [done|].
  split; [unfold bookkeeping; congruence|]. split; [done|]. split.
  - apply map_subseteq_spec. intros key l. rewrite Hidx.
    destruct (aggregateStateMap s !! key) as [l0|]; [|done]. simpl.
    by destruct (obsolete _ _ _ _ _).
  - clear Hv. revert Hrun. unfold garbageCollectAggregateCollectionStates,
      modify. intros [= <-].
    set (keys := (filter _ _).*1). clearbody keys.
    destruct (deleteKeys_spec keys s) as (_ & _ & _ & _ & _ & _ & _ & _ & Hv).
    apply set_eq. intros vpaID. rewrite !elem_of_dom, Hv.
    by rewrite fmap_is_Some.
Qed.

End Writes.

Section StepWrites.
Context `{LA : LabelsAPI} `{AA : AggregationAPI} `{MI : MapIteration}.

Lemma bookkeeping_fields (s s' : clusterState) :
  bookkeeping s' = bookkeeping s ↔
  emptyVPAs s' = emptyVPAs s ∧ observedVPAs s' = observedVPAs s
  ∧ lastAggregateContainerStateGC s' = lastAggregateContainerStateGC s
  ∧ gcInterval s' = gcInterval s.
Proof.
  unfold bookkeeping. split.
  - by intros [= -> -> -> ->].
  - by intros (-> & -> & -> & ->).
Qed.

Lemma AddOrUpdateContainer_effect (containerID : ContainerID)
    (request : gmap string Z) (s s' : clusterState) err :
  AddOrUpdateContainer containerID request s = Done err s' →
  labelSetMap s' = labelSetMap s
  ∧ bookkeeping s' = bookkeeping s
  ∧ heap s ⊆ heap s'
  ∧ aggregateStateMap s ⊆ aggregateStateMap s'
  ∧ dom (vpas s') = dom (vpas s)
  ∧ (λ pod, dom (Containers pod)) <$> pods s'
    = alter (λ names, {[ContainerName containerID]} ∪ names)
        (CID_PodID containerID) ((λ pod, dom (Containers pod)) <$> pods s).
Proof.
  unfold AddOrUpdateContainer.
  destruct (pods s !! CID_PodID containerID) as [pod|] eqn:Hp.
  2:{ intros [= _ <-]. repeat (split; [done|]).
      symmetry. apply alter_fixed. intros names.
      by rewrite lookup_fmap, Hp. }
  destruct (Containers pod !! ContainerName containerID) as [c|] eqn:Hc.
  - intros [= _ <-]. simpl. repeat (split; [done|]).
    apply map_eq. intros podID.
    destruct (decide (podID = CID_PodID containerID)) as [->|Hne].
    + rewrite lookup_alter_eq, !lookup_fmap, lookup_alter_eq, Hp. simpl.
      f_equal. rewrite dom_alter_L. apply elem_of_dom_2 in Hc. set_solver.
    + by rewrite lookup_alter_ne, !lookup_fmap, lookup_alter_ne.
  - unfold bind, modify, ret.
    destruct (findOrCreateAggregateContainerState containerID s)
      as [l s1|msg] eqn:Hf; [|done].
    apply findOrCreate_effect in Hf as (Hp1 & Hl1 & Hb1 & Hh1 & Hi1 & Hv1 & _).
    intros [= _ <-]. simpl. repeat (split; [done|]).
    split.
    { apply (f_equal dom) in Hv1. by rewrite !dom_fmap_L in Hv1. }
    rewrite Hp1. apply map_eq. intros podID.
    destruct (decide (podID = CID_PodID containerID)) as [->|Hne].
    + rewrite lookup_alter_eq, !lookup_fmap, lookup_alter_eq, Hp. simpl.
      f_equal. by rewrite dom_insert_L.
    + by rewrite lookup_alter_ne, !lookup_fmap, lookup_alter_ne.
Qed.

Lemma AddOrUpdatePod_registry (podID : PodID) (newLabels : LabelSet)
    (phase : string) (s s' : clusterState) :
  AddOrUpdatePod podID newLabels phase s = Done tt s' →
  (λ pod, dom (Containers pod)) <$> pods s'
  = <[podID := default ∅
                 (((λ pod, dom (Containers pod)) <$> pods s) !! podID)]>
      ((λ pod, dom (Containers pod)) <$> pods s)
  ∧ dom (vpas s') = dom (vpas s).
Proof.
  destruct (AddOrUpdatePod_effect podID newLabels phase s)
    as (s1 & pod' & Hrun & Hp' & Hd' & Ho' & _ & _ & _ & _ & Hv').
  rewrite Hrun. intros [= <-]. split.
  - apply map_eq. intros id. destruct (decide (id = podID)) as [->|Hne].
    + rewrite lookup_insert_eq, !lookup_fmap, Hp'. simpl. f_equal.
      apply podData_fields in Hd' as (_ & _ & _ & _ & Hreq). simpl in Hreq.
      apply (f_equal dom) in Hreq. rewrite !dom_fmap_L in Hreq.
      rewrite Hreq. by destruct (pods s !! podID).
    + by rewrite lookup_insert_ne, !lookup_fmap, (Ho' id Hne).
  - apply (f_equal dom) in Hv'. by rewrite !dom_fmap_L in Hv'.
Qed.

(** What a step writes, by the kind of the operation. *)
Lemma step_writes (o : op) (s s' : clusterState) :
  step o s = Done tt s' →
  writes o s s' ∧ registryOf s' = registryStep o (registryOf s).
Proof.
  unfold writes, registryOf. destruct o; simpl.
  - intros Hrun. destruct (AddOrUpdatePod_registry _ _ _ _ _ Hrun) as [-> ->].
    destruct (AddOrUpdatePod_effect podID newLabels phase s)
      as (s1 & pod' & Hrun1 & _ & _ & _ & Hl & Hb & Hh & Hi & _).
    rewrite Hrun in Hrun1. injection Hrun1 as <-.
    apply bookkeeping_fields in Hb as (_ & ? & ? & ?).
    apply subseteq_dom in Hh. done.
  - unfold DeletePod, bind, modify, ret, removePodFromItsVpa.
    destruct (pods s !! podID); intros [= <-]; simpl;
      rewrite ?fmap_delete, ?dom_fmap_L; done.
  - unfold bind, ret.
    destruct (AddOrUpdateContainer containerID request s)
      as [err s1|msg] eqn:Hrun; [|done].
    intros [= <-].
    apply AddOrUpdateContainer_effect in Hrun
      as (Hl & Hb & Hh & Hi & Hv & Hr).
    apply bookkeeping_fields in Hb as (_ & ? & ? & ?).
    apply subseteq_dom in Hh. rewrite Hr, Hv. done.
  - unfold bind, ret.
    destruct (AddSample sample s) as [err s1|msg] eqn:Hrun; [|done].
    intros [= <-].
    apply AddSample_effect in Hrun as (Hp & Hl & Hb & Hh & Hi & Hv).
    apply bookkeeping_fields in Hb as (_ & ? & ? & ?).
    rewrite Hp, Hv. done.
  - unfold bind, ret.
    destruct (RecordOOM containerID timestamp requestedMemory s)
      as [err s1|msg] eqn:Hrun; [|done].
    intros [= <-].
    apply RecordOOM_effect in Hrun as (Hp & Hl & Hb & Hh & Hi & Hv).
    apply bookkeeping_fields in Hb as (_ & ? & ? & ?).
    rewrite Hp, Hv. done.
  - unfold bind, ret.
    destruct (AddOrUpdateVpa apiObject selector s)
      as [err s1|msg] eqn:Hrun; [|done].
    intros [= <-].
    apply AddOrUpdateVpa_effect in Hrun
      as (Hp & Hl & Ho & Hgc & Hgi & Hh & Hi & Hv).
    rewrite Hp, Hv, Hi. done.
  - unfold bind, ret.
    destruct (DeleteVpa vpaID s) as [err s1|msg] eqn:Hrun; [|done].
    intros [= <-].
    apply DeleteVpa_effect in Hrun
      as (Hp & Hl & Ho & Hgc & Hgi & Hh & Hi & Hv).
    rewrite Hp, Hv, Hi. done.
  - intros Hrun.
    apply garbageCollect_effect in Hrun as (Hp & Hl & Hb & Hh & Hi & Hv).
    apply bookkeeping_fields in Hb as (_ & ? & ? & ?).
    rewrite Hp, Hv, Hh. done.
  - unfold RateLimitedGarbageCollectAggregateCollectionStates.
    destruct (_ <? _); [by intros [= <-]|].
    unfold bind, modify.
    destruct (garbageCollectAggregateCollectionStates now controllerFetcher s)
      as [[] s1|msg] eqn:Hrun; [|done].
    intros [= <-]. simpl.
    apply garbageCollect_effect in Hrun as (Hp & Hl & Hb & Hh & Hi & Hv).
    apply bookkeeping_fields in Hb as (_ & ? & ? & ?).
    rewrite Hp, Hv, Hh. done.
  - unfold bind, ret.
    destruct (RecordRecommendation vpa now s) as [err s1|msg] eqn:Hrun;
      [|done].
    intros [= <-]. revert Hrun. unfold RecordRecommendation.
    destruct (hasRecommendation vpa); [by intros [= _ <-]|].
    destruct (emptyVPAs s !! vpa_ID vpa); [|by intros [= _ <-]].
    destruct (Time_Before _ _); by intros [= _ <-].
  - by intros [= <-].
Qed.

End StepWrites.

(** ** Runs: what stays and what grows *)

Section RunWrites.
Context `{LA : LabelsAPI} `{AA : AggregationAPI} `{MI : MapIteration}.

Lemma run_cons (o : op) (ops : list op) (s s' : clusterState) :
  run (o :: ops) s = Done tt s' ↔
  ∃ s1, step o s = Done tt s1 ∧ run ops s1 = Done tt s'.
Proof.
  unfold run. simpl. unfold bind. split.
  - destruct (step o s) as [[] s1|msg]; [|done]. eauto.
  - by intros (s1 & -> & ->).
Qed.

Lemma run_app (ops ops' : list op) :
  ∀ s s' : clusterState,
    run (ops ++ ops') s = Done tt s' ↔
    ∃ s1, run ops s = Done tt s1 ∧ run ops' s1 = Done tt s'.
Proof.
  induction ops as [|o ops IH]; intros s s'; simpl.
  - split; [by eauto|]. by intros (s1 & [= <-] & ?).
  - rewrite run_cons. split.
    + intros (s1 & Hstep & Hrun). apply IH in Hrun as (s2 & ? & ?).
      exists s2. split; [|done]. apply run_cons. eauto.
    + intros (s2 & Hrun & Hrun'). apply run_cons in Hrun as (s1 & ? & ?).
      exists s1. split; [done|]. apply IH. eauto.
Qed.

(** Every run from a new cluster state returns. *)
Lemma run_returns (gcInterval : Z) (ops : list op) :
  ∃ s, run ops (NewClusterState gcInterval) = Done tt s ∧ clusterInvariant s.
Proof.
  destruct (NewClusterState_invariant gcInterval) as [Hinv0 _].
  destruct (run_invariant ops _ Hinv0) as (s & Hrun & Hinv & _). eauto.
Qed.

(** The label set map after a run. *)
Lemma run_labelSetMap (ops : list op) :
  ∀ s s' : clusterState,
    run ops s = Done tt s' →
    (∀ k labelSet, labelSetMap s !! k = Some labelSet →
                   Set_String labelSet = k) →
    ∀ k labelSet,
      labelSetMap s' !! k = Some labelSet
      ↔ labelSetMap s !! k = Some labelSet
        ∨ (Set_String labelSet = k
           ∧ ∃ podID phase, OpAddOrUpdatePod podID labelSet phase ∈ ops).
Proof.
  induction ops as [|o ops IH]; intros s s' Hrun Hcan k labelSet.
  { injection Hrun as <-. split; [by eauto|]. intros [?|(_ & ? & ? & Hin)];
      [done|]. by apply elem_of_nil in Hin. }
  apply run_cons in Hrun as (s1 & Hstep & Hrun).
  apply step_writes in Hstep as [(_ & Hl & _) _].
  assert (Hcan1 : ∀ k labelSet, labelSetMap s1 !! k = Some labelSet →
                                Set_String labelSet = k).
  { intros k' l'. rewrite Hl. destruct o; try apply Hcan.
    rewrite lookup_insert_Some. intros [[<- <-]|[_ ?]]; [done|].
    by apply Hcan. }
  rewrite (IH s1 s' Hrun Hcan1 k labelSet).
  assert (Hin : ∀ podID phase,
            OpAddOrUpdatePod podID labelSet phase ∈ o :: ops
            ↔ o = OpAddOrUpdatePod podID labelSet phase
              ∨ OpAddOrUpdatePod podID labelSet phase ∈ ops).
  { intros. rewrite elem_of_cons. naive_solver. }
  rewrite Hl. destruct o;
    try (split; (intros [?|(? & podID' & phase' & Hops)]; [by left|]);
         right; (split; [done|]); exists podID', phase';
         [apply Hin; by right|apply Hin in Hops as [?|?]; done]).
  rewrite lookup_insert_Some. split.
  - intros [[[<- <-]|[_ Hs]]|(? & podID' & phase' & Hops)].
    + right. split; [done|]. exists podID, phase. apply Hin. by left.
    + by left.
    + right. split; [done|]. exists podID', phase'. apply Hin. by right.
  - intros [Hs|(Hk & podID' & phase' & Hops)].
    + left. destruct (decide (Set_String newLabels = k)) as [Heq|Hne].
      * left. split; [done|]. apply Set_String_inj.
        by rewrite (Hcan _ _ Hs).
      * by right.
    + apply Hin in Hops as [Ho|Hops].
      * injection Ho as -> -> ->. left. left. done.
      * right. split; [done|]. eauto.
Qed.

(** X17: the label set map holds exactly the label sets that
    [AddOrUpdatePod] was called with since the cluster state is new,
    each under its string: no operation removes a label set from it,
    neither [DeletePod] nor the sweep of the aggregations. *)
Theorem X17_labelSetMap_grows (gcInterval : Z) (ops : list op) :
  ∃ s,
    run ops (NewClusterState gcInterval) = Done tt s
    ∧ ∀ k labelSet,
        labelSetMap s !! k = Some labelSet
        ↔ Set_String labelSet = k
          ∧ ∃ podID phase, OpAddOrUpdatePod podID labelSet phase ∈ ops.
Proof.
  destruct (run_returns gcInterval ops) as (s & Hrun & _).
  exists s. split; [done|]. intros k labelSet.
  rewrite (run_labelSetMap ops _ s Hrun); [|by intros ? ?; simpl;
                                              rewrite lookup_empty].
  simpl. rewrite lookup_empty. naive_solver.
Qed.

(** X18: no operation but the sweep removes or replaces an entry of the
    aggregation index, so that [StateMapSize] does not decrease along a
    run without sweeps, whatever pods and policy objects are deleted in
    it; and a sweep adds no entry. *)
Theorem X18_StateMapSize_monotone (ops : list op) (s s' : clusterState) :
  run ops s = Done tt s' →
  (forallb (λ o, negb (isGarbageCollect o)) ops = true →
   aggregateStateMap s ⊆ aggregateStateMap s'
   ∧ (StateMapSize s ≤ StateMapSize s')%nat)
  ∧ (forallb isGarbageCollect ops = true →
     aggregateStateMap s' ⊆ aggregateStateMap s
     ∧ (StateMapSize s' ≤ StateMapSize s)%nat).
Proof.
  unfold StateMapSize. revert s.
  induction ops as [|o ops IH]; intros s Hrun.
  { injection Hrun as <-. done. }
  apply run_cons in Hrun as (s1 & Hstep & Hrun).
  apply step_writes in Hstep as [(_ & _ & _ & _ & Hi & _) _].
  destruct (IH s1 Hrun) as [IH1 IH2]. simpl.
  split; rewrite andb_true_iff.
  - intros [Ho Hops]. apply negb_true_iff in Ho. rewrite Ho in Hi. simpl in Hi.
    destruct (IH1 Hops) as [Hsub _].
    assert (aggregateStateMap s ⊆ aggregateStateMap s')
      by by transitivity (aggregateStateMap s1).
    split; [done|]. by apply map_subseteq_size.
  - intros [Ho Hops]. rewrite Ho in Hi. simpl in Hi.
    destruct (IH2 Hops) as [Hsub _].
    assert (aggregateStateMap s' ⊆ aggregateStateMap s)
      by by transitivity (aggregateStateMap s1).
    split; [done|]. by apply map_subseteq_size.
Qed.

Lemma last_cons_default {A} (d x : A) (l : list A) :
  default d (last (x :: l)) = default x (last l).
Proof.
  destruct l as [|y l]; [done|]. rewrite last_cons_cons.
  destruct (last (y :: l)) eqn:Hl; [done|]. by apply last_None in Hl.
Qed.

Lemma run_observedVPAs (ops : list op) :
  ∀ s s' : clusterState,
    run ops s = Done tt s' →
    observedVPAs s'
    = default (observedVPAs s)
        (last (omap (λ o, match o with
                          | OpSetObservedVPAs observed => Some observed
                          | _ => None
                          end) ops)).
Proof.
  induction ops as [|o ops IH]; intros s s' Hrun.
  { by injection Hrun as <-. }
  apply run_cons in Hrun as (s1 & Hstep & Hrun).
  apply step_writes in Hstep as [(_ & _ & Ho & _) _].
  rewrite (IH s1 s' Hrun), Ho.
  destruct o; try done. simpl. by rewrite last_cons_default.
Qed.

(** X19: [ObservedVPAs] returns the list of the last [SetObservedVPAs] of
    the run, the empty list if there was none: no other operation writes
    the observed policy objects. *)
Theorem X19_ObservedVPAs (gcInterval : Z) (ops : list op) :
  ∃ s,
    run ops (NewClusterState gcInterval) = Done tt s
    ∧ ObservedVPAs s
      = default []
          (last (omap (λ o, match o with
                            | OpSetObservedVPAs observed => Some observed
                            | _ => None
                            end) ops)).
Proof.
  destruct (run_returns gcInterval ops) as (s & Hrun & _).
  exists s. split; [done|]. unfold ObservedVPAs.
  by rewrite (run_observedVPAs ops _ s Hrun).
Qed.

(** The registries after a run. *)
Lemma run_registry (ops : list op) :
  ∀ s s' : clusterState,
    run ops s = Done tt s' →
    registryOf s' = foldl (λ r o, registryStep o r) (registryOf s) ops.
Proof.
  induction ops as [|o ops IH]; intros s s' Hrun.
  { by injection Hrun as <-. }
  apply run_cons in Hrun as (s1 & Hstep & Hrun).
  apply step_writes in Hstep as [_ Hr].
  rewrite (IH s1 s' Hrun), Hr. done.
Qed.

(** X20: as sets, the registries follow the calls that register and
    delete: [AddOrUpdatePod] adds a pod without containers or keeps the
    pod with its containers, [DeletePod] removes the pod with its
    containers, [AddOrUpdateContainer] adds the container to a pod that
    is registered and nothing otherwise, [AddOrUpdateVpa] and [DeleteVpa]
    add and remove the ID of the policy object.  The samples, the OOM
    events, the sweeps and the recommendations register and delete
    nothing.  [GetContainer] finds a container exactly when its name is
    among those of its pod. *)
Theorem X20_registries (gcInterval : Z) (ops : list op) :
  ∃ s,
    run ops (NewClusterState gcInterval) = Done tt s
    ∧ registryOf s = foldl (λ r o, registryStep o r) (∅, ∅) ops
    ∧ (∀ podID, is_Some (Pods s !! podID)
                ↔ is_Some ((registryOf s).1 !! podID))
    ∧ (∀ vpaID, is_Some (VPAs s !! vpaID) ↔ vpaID ∈ (registryOf s).2)
    ∧ (∀ containerID,
         is_Some (GetContainer containerID s)
         ↔ ∃ names,
             (registryOf s).1 !! CID_PodID containerID = Some names
             ∧ ContainerName containerID ∈ names).
Proof.
  destruct (run_returns gcInterval ops) as (s & Hrun & _).
  exists s. split; [done|]. split.
  { rewrite (run_registry ops _ s Hrun). unfold registryOf. simpl.
    by rewrite fmap_empty, dom_empty_L. }
  unfold registryOf, Pods, VPAs, GetContainer. simpl.
  split; [intros; by rewrite lookup_fmap, fmap_is_Some|].
  split; [intros; by rewrite elem_of_dom|].
  intros [podID name]. simpl. rewrite lookup_fmap.
  destruct (pods s !! podID) as [pod|]; simpl.
  - rewrite <- elem_of_dom. naive_solver.
  - split; [by intros [? ?]|]. by intros (? & ? & ?).
Qed.

End RunWrites.

Section RateLimit.
Context `{LA : LabelsAPI} `{AA : AggregationAPI} `{MI : MapIteration}.

Lemma run_clock (ops : list op) :
  ∀ s s' : clusterState,
    run ops s = Done tt s' →
    forallb (λ o, match o with
                  | OpRateLimitedGarbageCollect _ _ => false
                  | _ => true
                  end) ops = true →
    lastAggregateContainerStateGC s' = lastAggregateContainerStateGC s
    ∧ gcInterval s' = gcInterval s.
Proof.
  induction ops as [|o ops IH]; intros s s' Hrun Hops.
  { by injection Hrun as <-. }
  apply run_cons in Hrun as (s1 & Hstep & Hrun).
  apply step_writes in Hstep as [(Hgi & _ & _ & Hgc & _) _].
  simpl in Hops. apply andb_true_iff in Hops as [Ho Hops].
  destruct (IH s1 s' Hrun Hops) as [-> ->].
  split; [|done]. by destruct o.
Qed.

(** X21: the rate limit holds across the other operations: after a
    rate-limited call that swept at [now], and whatever operations other
    than rate-limited sweeps were run since, a rate-limited call less
    than [gcInterval] after [now] changes nothing.  No other operation
    writes the time of the last sweep or the interval. *)
Theorem X21_rate_limit_across_operations (now now' : Z)
    (controllerFetcher controllerFetcher'
       : ControllerKeyWithAPIVersion → option ControllerKeyWithAPIVersion)
    (ops : list op) (s s1 s2 : clusterState) :
  gcInterval s ≤ Time_Sub now (lastAggregateContainerStateGC s) →
  RateLimitedGarbageCollectAggregateCollectionStates now controllerFetcher s
  = Done tt s1 →
  forallb (λ o, match o with
                | OpRateLimitedGarbageCollect _ _ => false
                | _ => true
                end) ops = true →
  run ops s1 = Done tt s2 →
  Time_Sub now' now < gcInterval s →
  RateLimitedGarbageCollectAggregateCollectionStates now' controllerFetcher'
    s2
  = Done tt s2.
Proof.
  intros Hdue Hrl Hops Hrun Hsoon.
  assert (H1 : lastAggregateContainerStateGC s1 = now
               ∧ gcInterval s1 = gcInterval s).
  { revert Hrl. unfold RateLimitedGarbageCollectAggregateCollectionStates.
    destruct (Z.ltb_spec (Time_Sub now (lastAggregateContainerStateGC s))
                (gcInterval s)) as [Hlt|_]; [lia|].
    unfold bind, modify.
    destruct (garbageCollectAggregateCollectionStates now controllerFetcher s)
      as [[] s0|msg] eqn:Hgc; [|done].
    intros [= <-]. simpl.
    apply garbageCollect_effect in Hgc as (_ & _ & Hb & _).
    by apply bookkeeping_fields in Hb as (_ & _ & _ & ->). }
  destruct H1 as [Hl1 Hg1].
  destruct (run_clock ops s1 s2 Hrun Hops) as [Hl2 Hg2].
  unfold RateLimitedGarbageCollectAggregateCollectionStates.
  rewrite Hl2, Hg2, Hl1, Hg1.
  destruct (Z.ltb_spec (Time_Sub now' now) (gcInterval s)) as [_|Hge];
    [done|lia].
Qed.

End RateLimit.

Section RunWrites_runs.
#[local] Existing Instances Demo.labels Demo.aggregations Demo.order.

(** The run [Demo.active], which has no sweep, from a new cluster
    state. *)
Lemma X18_witness :
  let s := NewClusterState 0 in
  let s' := Demo.final Demo.active in
  run Demo.active s = Done tt s'
  ∧ aggregateStateMap s ⊆ aggregateStateMap s'
  ∧ (StateMapSize s ≤ StateMapSize s')%nat.
Proof.
  intros s s'.
  assert (H : run Demo.active s = Done tt s') by (vm_compute; reflexivity).
  split; [exact H|].
  exact (proj1 (X18_StateMapSize_monotone Demo.active s s' H) eq_refl).
Defined.

(** A rate-limited sweep at ten minutes with an interval of ten minutes,
    then the run [Demo.active], then a rate-limited call one second
    later. *)
Lemma X21_witness :
  let s := NewClusterState (10 * Minute) in
  let s1 := set_lastAggregateContainerStateGC (10 * Minute) s in
  let s2 := Demo.after (run Demo.active s1) in
  gcInterval s ≤ Time_Sub (10 * Minute) (lastAggregateContainerStateGC s)
  ∧ RateLimitedGarbageCollectAggregateCollectionStates (10 * Minute)
      Demo.noController s
    = Done tt s1
  ∧ run Demo.active s1 = Done tt s2
  ∧ Time_Sub (10 * Minute + 1000000000) (10 * Minute) < gcInterval s
  ∧ RateLimitedGarbageCollectAggregateCollectionStates
      (10 * Minute + 1000000000) Demo.noController s2
    = Done tt s2.
Proof.
  intros s s1 s2.
  assert (H1 : gcInterval s
               ≤ Time_Sub (10 * Minute) (lastAggregateContainerStateGC s))
    by (vm_compute; discriminate).
  assert (H2 : RateLimitedGarbageCollectAggregateCollectionStates
                 (10 * Minute) Demo.noController s = Done tt s1)
    by (vm_compute; reflexivity).
  assert (H3 : run Demo.active s1 = Done tt s2) by (vm_compute; reflexivity).
  assert (H4 : Time_Sub (10 * Minute + 1000000000) (10 * Minute)
               < gcInterval s)
    by (vm_compute; reflexivity).
  split; [exact H1|]. split; [exact H2|]. split; [exact H3|].
  split; [exact H4|].
  exact (X21_rate_limit_across_operations (10 * Minute)
           (10 * Minute + 1000000000) Demo.noController Demo.noController
           Demo.active s s1 s2 H1 H2 eq_refl H3 H4).
Defined.

End RunWrites_runs.

(** ** The aggregations are not shared between keys *)

Section Pointers.
Context `{LA : LabelsAPI} `{AA : AggregationAPI} `{MI : MapIteration}.

Lemma pointersSound_same (s s' : clusterState) :
  aggregateStateMap s' = aggregateStateMap s →
  dom (heap s) ⊆ dom (heap s') →
  (∀ vpaID v', vpas s' !! vpaID = Some v' →
     ∃ vpaID0 v, vpas s !! vpaID0 = Some v
                 ∧ aggregateContainerStates v' = aggregateContainerStates v) →
  pointersSound s → pointersSound s'.
Proof.
  intros Hi Hh Hv (Ha & Hinj & Hl). split; [|split].
  - intros key l. rewrite Hi. intros Hk. apply Hh. by eapply Ha.
  - intros key key' l. rewrite Hi. apply Hinj.
  - intros vpaID v' key l Hv' Hk. rewrite Hi.
    destruct (Hv _ _ Hv') as (vpaID0 & v & Hv0 & Heq).
    rewrite Heq in Hk. by eapply Hl.
Qed.

Lemma adjust_lookup (b : Vpa → bool) (g : Z → Z) (m : gmap VpaID Vpa)
    vpaID v' :
  ((λ vpa, if b vpa then set_PodCount g vpa else vpa) <$> m) !! vpaID
  = Some v' →
  ∃ vpaID0 v, m !! vpaID0 = Some v
              ∧ aggregateContainerStates v' = aggregateContainerStates v.
Proof.
  rewrite lookup_fmap. destruct (m !! vpaID) as [v|] eqn:Hv; [|done].
  intros [= <-]. exists vpaID, v. split; [done|]. by destruct (b v).
Qed.

Lemma findOrCreate_pointers (containerID : ContainerID) (s s' : clusterState)
    l :
  findOrCreateAggregateContainerState containerID s = Done l s' →
  pointersSound s → pointersSound s'.
Proof.
  intros Hrun (Ha & Hinj & Hl).
  apply findOrCreate_cases in Hrun as (pod & Hp & Hcase). simpl in Hcase.
  destruct Hcase as [[_ ->]|(Hkey & -> & ->)]; [done|].
  set (key := MakeAggregateStateKey pod (ContainerName containerID)) in *.
  set (l := fresh (dom (heap s))).
  assert (Hfresh : l ∉ dom (heap s)) by apply is_fresh.
  split; [|split]; simpl.
  - intros key' l'. rewrite dom_insert, lookup_insert_Some.
    intros [[_ <-]|[_ Hk]]; [set_solver|].
    apply elem_of_union_r. by eapply Ha.
  - intros k1 k2 x. rewrite !lookup_insert_Some.
    intros [[<- <-]|[Hne1 Hk1]] [[<- Hx]|[Hne2 Hk2]]; try done.
    + exfalso. apply Hfresh. by eapply Ha.
    + exfalso. apply Hfresh. subst x. by eapply Ha.
    + by eapply Hinj.
  - intros vpaID v' k x. rewrite lookup_fmap.
    destruct (vpas s !! vpaID) as [v|] eqn:Hv; [|done]. intros [= <-].
    destruct (decide (key = k)) as [<-|Hne].
    + assert (Hnone : aggregateContainerStates v !! key = None).
      { destruct (aggregateContainerStates v !! key) as [y|] eqn:Hy; [|done].
        by rewrite (Hl _ _ _ _ Hv Hy) in Hkey. }
      rewrite (UseAggregationIfMatching_links_eq _ _ _ _ Hnone).
      destruct (matchesAggregation _ _ _); [|done].
      intros [= <-]. by rewrite lookup_insert_eq.
    + rewrite (UseAggregationIfMatching_links_ne _ _ _ _ _ Hne).
      intros Hk. rewrite lookup_insert_ne by done. by eapply Hl.
Qed.

Lemma relinkLoop_pointers (podID : PodID) (names : list string) :
  ∀ s s' : clusterState,
    forM_ (relinkContainer podID) names s = Done tt s' →
    pointersSound s → pointersSound s'.
Proof.
  induction names as [|name names IH]; intros s s'; simpl.
  { by intros [= <-]. }
  unfold bind at 1. unfold relinkContainer, bind, modify.
  destruct (findOrCreateAggregateContainerState _ s) as [l s1|msg] eqn:Hf;
    [|done].
  intros Hrun Hs. apply (IH _ _ Hrun).
  apply (pointersSound_same s1); [done|done| |by eapply findOrCreate_pointers].
  intros vpaID v' Hv'. by exists vpaID, v'.
Qed.

Lemma AddOrUpdatePod_pointers (podID : PodID) (newLabels : LabelSet)
    (phase : string) (s s' : clusterState) :
  AddOrUpdatePod podID newLabels phase s = Done tt s' →
  pointersSound s → pointersSound s'.
Proof.
  destruct (pods s !! podID) as [pod|] eqn:Hp.
  - destruct (decide (pod_labelSetKey pod = Set_String newLabels)) as [Hk|Hk].
    + rewrite (AddOrUpdatePod_same _ _ _ _ _ Hp Hk). intros [= <-].
      apply pointersSound_same; [done|done|]. intros vpaID v' Hv'.
      by exists vpaID, v'.
    + rewrite (AddOrUpdatePod_changed _ _ phase _ _ Hp Hk).
      set (s3 := set_pods _ _).
      unfold bind at 1. unfold bind at 1.
      destruct (forM_ _ _ s3) as [[] s4|msg] eqn:Hloop; [|done].
      unfold addPodToItsVpa, modify. intros [= <-] Hs.
      assert (Hs3 : pointersSound s3).
      { revert Hs. apply pointersSound_same; [done|done|].
        intros vpaID v'. simpl. apply adjust_lookup. }
      apply (relinkLoop_pointers _ _ _ _ Hloop) in Hs3. revert Hs3.
      apply pointersSound_same; [done|done|].
      intros vpaID v'. simpl. apply adjust_lookup.
  - rewrite (AddOrUpdatePod_new _ _ _ _ Hp). intros [= <-].
    apply pointersSound_same; [done|done|].
    intros vpaID v'. simpl. apply adjust_lookup.
Qed.

Lemma AddOrUpdateContainer_pointers (containerID : ContainerID)
    (request : gmap string Z) (s s' : clusterState) err :
  AddOrUpdateContainer containerID request s = Done err s' →
  pointersSound s → pointersSound s'.
Proof.
  unfold AddOrUpdateContainer.
  destruct (pods s !! CID_PodID containerID) as [pod|];
    [|by intros [= _ <-]].
  destruct (Containers pod !! ContainerName containerID) as [c|].
  - intros [= _ <-]. apply pointersSound_same; [done|done|].
    intros vpaID v' Hv'. by exists vpaID, v'.
  - unfold bind, modify, ret.
    destruct (findOrCreateAggregateContainerState containerID s)
      as [l s1|msg] eqn:Hf; [|done].
    intros [= _ <-] Hs.
    apply (pointersSound_same s1);
      [done|done| |by eapply findOrCreate_pointers].
    intros vpaID v' Hv'. by exists vpaID, v'.
Qed.

Lemma forward_pointers {A} (a : ContainerStateAggregator)
    (a' : AggregateContainerState) (r r' : A) (s s' : clusterState) :
  (l <- aggregatorLoc a ;; modify (store l a') ;;; ret r) s = Done r' s' →
  pointersSound s → pointersSound s'.
Proof.
  unfold bind, modify, ret.
  destruct (aggregatorLoc a s) as [l s1|msg] eqn:Hloc; [|done].
  intros [= _ <-] Hs.
  assert (Hs1 : pointersSound s1).
  { destruct a as [containerID|l0]; simpl in Hloc.
    - by eapply findOrCreate_pointers.
    - by injection Hloc as <- <-. }
  revert Hs1. apply pointersSound_same; [done| |].
  - simpl. rewrite dom_insert. set_solver.
  - intros vpaID v' Hv'. by exists vpaID, v'.
Qed.

Lemma AddSample_pointers (sample : ContainerUsageSampleWithKey)
    (s s' : clusterState) err :
  AddSample sample s = Done err s' → pointersSound s → pointersSound s'.
Proof.
  unfold AddSample.
  destruct (pods s !! _) as [pod|]; [|by intros [= _ <-]].
  destruct (Containers pod !! _) as [c|]; [|by intros [= _ <-]].
  unfold bind at 1. unfold ContainerState_AddSample.
  destruct (acceptSample _ _) as [a'|]; [|by intros [= _ <-]].
  destruct ((l <- aggregatorLoc (aggregator c) ;; modify (store l a') ;;;
             ret true) s) as [ok s1|msg] eqn:Hf; [|done].
  pose proof (forward_pointers _ _ _ _ _ _ Hf) as Hs.
  destruct ok; simpl; intros [= _ <-]; exact Hs.
Qed.

Lemma RecordOOM_pointers (containerID : ContainerID) (timestamp : Z)
    (requestedMemory : Z) (s s' : clusterState) err :
  RecordOOM containerID timestamp requestedMemory s = Done err s' →
  pointersSound s → pointersSound s'.
Proof.
  unfold RecordOOM.
  destruct (pods s !! _) as [pod|]; [|by intros [= _ <-]].
  destruct (Containers pod !! _) as [c|]; [|by intros [= _ <-]].
  unfold bind at 1. unfold ContainerState_RecordOOM.
  destruct (acceptOOM _ _ _) as [reason|a']; [by intros [= _ <-]|].
  destruct ((l <- aggregatorLoc (aggregator c) ;; modify (store l a') ;;;
             ret None) s) as [e s1|msg] eqn:Hf; [|done].
  pose proof (forward_pointers _ _ _ _ _ _ Hf) as Hs.
  destruct e; simpl; intros [= _ <-]; exact Hs.
Qed.

Lemma DeleteVpa_pointers (vpaID : VpaID) (s s' : clusterState) err :
  DeleteVpa vpaID s = Done err s' → pointersSound s → pointersSound s'.
Proof.
  unfold DeleteVpa. destruct (vpas s !! vpaID) as [vpa|];
    [|by intros [= _ <-]].
  intros [= _ <-]. apply pointersSound_same; [done|apply markAll_dom|].
  intros id v'. simpl. rewrite lookup_delete_Some. intros [_ Hv'].
  by exists id, v'.
Qed.

Lemma AddOrUpdateVpa_pointers (apiObject : VerticalPodAutoscaler)
    (selector : Selector) (s s' : clusterState) err :
  AddOrUpdateVpa apiObject selector s = Done err s' →
  pointersSound s → pointersSound s'.
Proof.
  destruct (AddOrUpdateVpa_closed_form apiObject selector s)
    as (s0 & vpa0 & Hcase & _ & Hrun).
  rewrite Hrun. intros [= _ <-] Hs.
  set (vpaID := mkVpaID (api_Namespace apiObject) (api_Name apiObject))
    in *.
  assert (H0 : pointersSound s0
               ∧ ∀ key l, aggregateContainerStates vpa0 !! key = Some l →
                          aggregateStateMap s0 !! key = Some l).
  { assert (Hseed : ∀ s1 created key l,
              aggregateContainerStates (seededVpa s1 vpaID selector created)
                !! key = Some l →
              aggregateStateMap s1 !! key = Some l).
    { intros s1 created key l. simpl. unfold matchingEntries.
      rewrite map_lookup_filter_Some. by intros [? _]. }
    destruct (vpas s !! vpaID) as [vpa|] eqn:Hv.
    - destruct (bool_decide _).
      + destruct Hcase as [Hdel ->]. split; [|apply Hseed].
        by eapply DeleteVpa_pointers.
      + destruct Hcase as [-> ->]. split; [done|].
        destruct Hs as (_ & _ & Hl). intros key l. by apply (Hl _ _ _ _ Hv).
    - destruct Hcase as [-> ->]. split; [done|apply Hseed]. }
  destruct H0 as [(Ha & Hinj & Hl) Hl0].
  split; [done|]. split; [done|]. intros id v' key l. simpl.
  rewrite lookup_insert_Some. intros [[_ <-]|[_ Hv']].
  - simpl. apply Hl0.
  - by eapply Hl.
Qed.

Lemma garbageCollect_pointers (now : Z)
    (controllerFetcher : ControllerKeyWithAPIVersion
                         → option ControllerKeyWithAPIVersion)
    (s s' : clusterState) :
  garbageCollectAggregateCollectionStates now controllerFetcher s
  = Done tt s' →
  pointersSound s → pointersSound s'.
Proof.
  intros Hrun (Ha & Hinj & Hl).
  destruct (garbageCollect_effect _ _ _ _ Hrun) as (_ & _ & _ & Hh & Hsub & _).
  destruct (garbageCollect_spec now controllerFetcher s)
    as (s1 & Hrun1 & _ & _ & _ & _ & _ & _ & _ & _ & Hv).
  rewrite Hrun in Hrun1. injection Hrun1 as <-.
  split; [|split].
  - intros key l Hk. rewrite Hh. eapply Ha. by eapply lookup_weaken.
  - intros key key' l Hk Hk'.
    eapply Hinj; by eapply lookup_weaken.
  - intros vpaID v' key l Hv' Hk.
    destruct (Hv _ _ Hv') as (v & Hv0 & _ & Hlinks).
    rewrite Hlinks in Hk. case_bool_decide as Hdel; [done|].
    pose proof (Hl _ _ _ _ Hv0 Hk) as Hidx.
    destruct (aggregateStateMap s' !! key) as [l'|] eqn:Hk'.
    + by rewrite (lookup_weaken _ _ _ _ Hk' Hsub) in Hidx.
    + exfalso. apply Hdel. split; [by eauto|done].
Qed.

Lemma step_pointers (o : op) (s s' : clusterState) :
  step o s = Done tt s' → pointersSound s → pointersSound s'.
Proof.
  assert (Hid : ∀ s0 : clusterState, ∀ vpaID v',
            vpas s0 !! vpaID = Some v' →
            ∃ vpaID0 v, vpas s0 !! vpaID0 = Some v
                        ∧ aggregateContainerStates v'
                          = aggregateContainerStates v).
  { intros s0 vpaID v' Hv'. by exists vpaID, v'. }
  destruct o; simpl.
  - apply AddOrUpdatePod_pointers.
  - unfold DeletePod, bind, modify, ret, removePodFromItsVpa.
    destruct (pods s !! podID); intros [= <-];
      (apply pointersSound_same; [done|done|]).
    + intros vpaID v'. simpl. apply adjust_lookup.
    + exact (Hid s).
  - unfold bind, ret.
    destruct (AddOrUpdateContainer containerID request s)
      as [err s1|msg] eqn:Hrun; [|done].
    intros [= <-]. by eapply AddOrUpdateContainer_pointers.
  - unfold bind, ret.
    destruct (AddSample sample s) as [err s1|msg] eqn:Hrun; [|done].
    intros [= <-]. by eapply AddSample_pointers.
  - unfold bind, ret.
    destruct (RecordOOM containerID timestamp requestedMemory s)
      as [err s1|msg] eqn:Hrun; [|done].
    intros [= <-]. by eapply RecordOOM_pointers.
  - unfold bind, ret.
    destruct (AddOrUpdateVpa apiObject selector s)
      as [err s1|msg] eqn:Hrun; [|done].
    intros [= <-]. by eapply AddOrUpdateVpa_pointers.
  - unfold bind, ret.
    destruct (DeleteVpa vpaID s) as [err s1|msg] eqn:Hrun; [|done].
    intros [= <-]. by eapply DeleteVpa_pointers.
  - apply garbageCollect_pointers.
  - unfold RateLimitedGarbageCollectAggregateCollectionStates.
    destruct (_ <? _); [by intros [= <-]|].
    unfold bind, modify.
    destruct (garbageCollectAggregateCollectionStates now controllerFetcher s)
      as [[] s1|msg] eqn:Hrun; [|done].
    intros [= <-] Hs.
    apply (pointersSound_same s1); [done|done|exact (Hid s1)|].
    by eapply garbageCollect_pointers.
  - unfold bind, ret.
    destruct (RecordRecommendation vpa now s) as [err s1|msg] eqn:Hrun;
      [|done].
    intros [= <-]. revert Hrun. unfold RecordRecommendation.
    destruct (hasRecommendation vpa);
      [intros [= _ <-];
       apply pointersSound_same; [done|done|exact (Hid s)]|].
    destruct (emptyVPAs s !! vpa_ID vpa);
      [|intros [= _ <-];
        apply pointersSound_same; [done|done|exact (Hid s)]].
    destruct (Time_Before _ _); intros [= _ <-]; [|done].
    apply pointersSound_same; [done|done|exact (Hid s)].
  - intros [= <-]. apply pointersSound_same; [done|done|exact (Hid s)].
Qed.

Lemma run_pointers (ops : list op) :
  ∀ s s' : clusterState,
    run ops s = Done tt s' → pointersSound s → pointersSound s'.
Proof.
  induction ops as [|o ops IH]; intros s s' Hrun Hs.
  { by injection Hrun as <-. }
  apply run_cons in Hrun as (s1 & Hstep & Hrun).
  apply (IH s1 s' Hrun). by eapply step_pointers.
Qed.

(** X22: in every state that a sequence of operations reaches from a new
    cluster state, no two keys of the aggregation index share an
    aggregation, and every link of a registered policy object holds the
    aggregation that the index holds for the key of the link: what
    [DeleteVpa] marks and what a policy object reads through its links
    are aggregations of the index, also after sweeps deleted entries and
    [findOrCreateAggregateContainerState] made new ones for their
    keys. *)
Theorem X22_aggregations_not_shared (gcInterval : Z) (ops : list op) :
  ∃ s,
    run ops (NewClusterState gcInterval) = Done tt s
    ∧ (∀ key key' l,
         aggregateStateMap s !! key = Some l →
         aggregateStateMap s !! key' = Some l → key = key')
    ∧ (∀ vpaID vpa key l,
         VPAs s !! vpaID = Some vpa →
         aggregateContainerStates vpa !! key = Some l →
         aggregateStateMap s !! key = Some l).
Proof.
  destruct (run_returns gcInterval ops) as (s & Hrun & _).
  exists s. split; [done|].
  assert (H0 : pointersSound (NewClusterState gcInterval)).
  { repeat split; simpl; intros *; by rewrite lookup_empty. }
  by destruct (run_pointers ops _ s Hrun H0) as (_ & ? & ?).
Qed.

End Pointers.

(** ** One aggregation per key *)

Section Sharing.
Context `{LA : LabelsAPI} `{AA : AggregationAPI} `{MI : MapIteration}.

(** X23: [findOrCreateAggregateContainerState] panics exactly when the pod
    of the container is not registered.  Otherwise it returns the
    aggregation that the index holds for the key of the container and
    changes nothing, or, if the index has none, puts a new aggregation
    ([NewAggregateContainerState]) under the key and returns it.  Asked again, for the same
    container or for a container of the same name in a pod of the same
    namespace and label set key, it returns the same aggregation and
    changes nothing: the containers of one key share one aggregation. *)
Theorem X23_findOrCreate_shares (containerID : ContainerID)
    (s : clusterState) :
  (Pods s !! CID_PodID containerID = None
   ↔ ∃ msg, findOrCreateAggregateContainerState containerID s = Panic msg)
  ∧ ∀ pod,
      Pods s !! CID_PodID containerID = Some pod →
      let key := MakeAggregateStateKey pod (ContainerName containerID) in
      ∃ l s',
        findOrCreateAggregateContainerState containerID s = Done l s'
        ∧ aggregateStateMap s' = <[key := l]> (aggregateStateMap s)
        ∧ (∀ l0, aggregateStateMap s !! key = Some l0 → l = l0 ∧ s' = s)
        ∧ (aggregateStateMap s !! key = None →
           heap s !! l = None
           ∧ heap s' = <[l := NewAggregateContainerState]> (heap s))
        ∧ ∀ containerID' pod',
            Pods s !! CID_PodID containerID' = Some pod' →
            MakeAggregateStateKey pod' (ContainerName containerID') = key →
            findOrCreateAggregateContainerState containerID' s' = Done l s'.
Proof.
  unfold Pods. split.
  { split.
    - intros Hp. by apply findOrCreate_panics.
    - intros Hpanic. by apply findOrCreate_panics in Hpanic. }
  intros pod Hp.
  set (key := MakeAggregateStateKey pod (ContainerName containerID)).
  destruct (findOrCreate_spec containerID s pod Hp)
    as (l & s' & Hrun & _ & Hp' & Hkey' & _).
  exists l, s'. split; [done|].
  destruct (findOrCreate_cases _ _ _ _ Hrun) as (pod0 & Hp0 & Hcase).
  assert (pod0 = pod) as -> by congruence. simpl in Hcase. fold key in Hcase.
  split; [|split; [|split]].
  - destruct Hcase as [[Hk ->]|(_ & _ & ->)]; [|done].
    symmetry. by apply insert_id.
  - intros l0 Hl0. destruct Hcase as [[Hk ->]|(Hk & _)]; [|congruence].
    split; [congruence|done].
  - intros Hnone. destruct Hcase as [[Hk _]|(_ & -> & ->)]; [congruence|].
    split; [apply fresh_heap|done].
  - intros containerID' pod' Hp1 Hkey1.
    unfold findOrCreateAggregateContainerState, bind,
      aggregateStateKeyForContainerID.
    rewrite Hp', Hp1, Hkey1. fold key in Hkey'. by rewrite Hkey'.
Qed.

End Sharing.

Section SampleTarget.
Context `{LA : LabelsAPI} `{AA : AggregationAPI} `{MI : MapIteration}.

(** The aggregation that the reference of a linked container stands
    for. *)
Lemma linked_reference (s : clusterState) (a : ContainerStateAggregator) l :
  referredAggregation s a = Some l →
  currentAggregation a s = deref (heap s) l
  ∧ aggregatorLoc a s = Done l s.
Proof.
  destruct a as [containerID|l0]; simpl.
  - unfold findOrCreateAggregateContainerState, bind,
      aggregateStateKeyForContainerID.
    destruct (pods s !! CID_PodID containerID) as [pod|]; [|done]. simpl.
    by intros ->.
  - by intros [= ->].
Qed.

(** X24: in a state that a sequence of operations without a sweep reaches
    from a new cluster state, a sample for a registered container goes to
    the aggregation that the index holds for the key of the container
    (namespace and label set key of the pod, name of the container): if
    that aggregation accepts the sample, [AddSample] returns no error and
    only that aggregation changes; if it refuses it, [AddSample] returns
    the error of a discarded sample and changes nothing.  Here
    [AddSample] of the container state forwards the sample to the
    aggregation of the container. *)
Theorem X24_AddSample_target (gcInterval : Z) (ops : list op) :
  forallb (λ o, negb (isGarbageCollect o)) ops = true →
  ∃ s,
    run ops (NewClusterState gcInterval) = Done tt s
    ∧ ∀ sample pod,
        Pods s !! CID_PodID (Container sample) = Some pod →
        ContainerName (Container sample) ∈ dom (Containers pod) →
        ∃ l,
          aggregateStateMap s
            !! MakeAggregateStateKey pod (ContainerName (Container sample))
          = Some l
          ∧ AddSample sample s
            = match acceptSample (deref (heap s) l) (Sample sample) with
              | Some a' => Done None (store l a' s)
              | None => Done (Some ErrSampleDiscarded) s
              end.
Proof.
  intros Hops.
  destruct (NewClusterState_invariant gcInterval) as [Hinv0 Hl0].
  destruct (run_invariant ops _ Hinv0) as (s & Hrun & Hinv & Hl).
  specialize (Hl Hops Hl0). exists s. split; [done|].
  intros sample pod Hp Hin. unfold Pods in Hp.
  apply elem_of_dom in Hin as [c Hc].
  destruct (Hl _ _ _ _ Hp Hc) as (l & Hidx & Href).
  destruct Hinv as ((Hpod & _) & _). destruct (Hpod _ _ Hp) as (Hid & _).
  exists l. split.
  { unfold MakeAggregateStateKey. by rewrite Hid. }
  destruct (linked_reference s _ l Href) as [Hcur Hloc].
  unfold AddSample. rewrite Hp, Hc.
  unfold bind at 1. unfold ContainerState_AddSample. rewrite Hcur.
  destruct (acceptSample _ _) as [a'|]; [|done].
  unfold bind, modify, ret. by rewrite Hloc.
Qed.

End SampleTarget.

Section SampleTarget_runs.
#[local] Existing Instances Demo.labels Demo.aggregations Demo.order.

(** The run [Demo.active] has no sweep. *)
Lemma X24_witness :
  forallb (λ o, negb (isGarbageCollect o)) Demo.active = true
  ∧ ∃ s,
      run Demo.active (NewClusterState 0) = Done tt s
      ∧ ∀ sample pod,
          Pods s !! CID_PodID (Container sample) = Some pod →
          ContainerName (Container sample) ∈ dom (Containers pod) →
          ∃ l,
            aggregateStateMap s
              !! MakeAggregateStateKey pod (ContainerName (Container sample))
            = Some l
            ∧ AddSample sample s
              = match acceptSample (deref (heap s) l) (Sample sample) with
                | Some a' => Done None (store l a' s)
                | None => Done (Some ErrSampleDiscarded) s
                end.
Proof.
  split; [reflexivity|].
  exact (X24_AddSample_target 0 Demo.active eq_refl).
Defined.

End SampleTarget_runs.
